(** * NetNodeGateway: ingestion and integrity subsystem

    A shallow embedding of the C++ sources of the gateway (CRC engine,
    frame parser, sequence tracker, statistics aggregator, gateway
    orchestrator, control-channel framer, fault injector) and the
    properties of the specification proved, or refuted, on it.

    Conventions.  A [uintN_t] is a [Z] in [0, 2^N) with the wrap-around of
    every arithmetic operation written out ([wrap32], [wrap64]).  A byte is
    a [Byte.byte].  A [std::unordered_map] is a [gmap].  A method that
    mutates its object takes the object and returns the new one. *)

From Stdlib Require Import ZArith List Lia Bool.
From Stdlib.Strings Require Import Byte.
From stdpp Require Import base option list gmap.

Local Open Scope Z_scope.

(** ** Machine integers *)

Definition wrap8  (x : Z) : Z := x mod 2 ^ 8.
Definition wrap16 (x : Z) : Z := x mod 2 ^ 16.
Definition wrap32 (x : Z) : Z := x mod 2 ^ 32.
Definition wrap64 (x : Z) : Z := x mod 2 ^ 64.

Definition is_u16 (x : Z) : Prop := 0 <= x < 2 ^ 16.
Definition is_u32 (x : Z) : Prop := 0 <= x < 2 ^ 32.
Definition is_u64 (x : Z) : Prop := 0 <= x < 2 ^ 64.

(** The value of a byte, and the byte of the low eight bits of an integer
    ([static_cast<uint8_t>]). *)
Definition byte_val (b : byte) : Z := Z.of_N (Byte.to_N b).

Definition byte_of_Z (z : Z) : byte :=
  match Byte.of_N (Z.to_N (wrap8 z)) with
  | Some b => b
  | None => x00
  end.

(** ** src/gateway/sequence_tracker.{h,cpp} *)

Module SeqResult.
Inductive t := FIRST | OK | GAP | REORDER | DUPLICATE.
End SeqResult.

Record SeqEvent := mkSeqEvent {
  result       : SeqResult.t;
  ev_src_id    : Z;
  expected_seq : Z;
  actual_seq   : Z;
  gap_size     : Z
}.

Definition WINDOW_SIZE : Z := 64.

(** [std::bitset<WINDOW_SIZE>] as a 64-bit integer: bit [i] of the bitset is
    bit [i] of the integer. *)
Definition bitset_reset : Z := 0.
Definition bitset_shl (w k : Z) : Z := wrap64 (Z.shiftl w k).
Definition bitset_set (w i : Z) : Z := Z.lor w (Z.shiftl 1 i).
Definition bitset_test (w i : Z) : bool := Z.testbit w i.

Record SourceState := mkSourceState {
  next_expected : Z;
  initialized   : bool;
  seen_window   : Z
}.

(** The value-initialised [SourceState] that [sources_[src_id]] creates. *)
Definition SourceState_default : SourceState :=
  {| next_expected := 0; initialized := false; seen_window := bitset_reset |}.

(** The tracker object: its only member is [sources_]. *)
Abbreviation SequenceTracker := (gmap Z SourceState).

Definition SequenceTracker_new : SequenceTracker := ∅.

(** [auto& s = sources_[src_id]]: the entry, created when absent. *)
Definition sources_at (t : gmap Z SourceState) (src_id : Z) : SourceState :=
  default SourceState_default (t !! src_id).

(** The effect of [track] on the state [s] of one source. *)
Definition track_state (s : SourceState) (src_id seq : Z)
  : SeqEvent * SourceState :=
  if negb (initialized s) then
    (mkSeqEvent SeqResult.FIRST src_id 0 seq 0,
     {| next_expected := wrap32 (seq + 1);
        initialized := true;
        seen_window := bitset_reset |})
  else if seq =? next_expected s then
    (mkSeqEvent SeqResult.OK src_id seq seq 0,
     {| next_expected := wrap32 (seq + 1);
        initialized := true;
        seen_window := bitset_set (bitset_shl (seen_window s) 1) (WINDOW_SIZE - 1) |})
  else if next_expected s <? seq then
    let gap := wrap32 (seq - next_expected s) in
    let w := if WINDOW_SIZE <=? wrap32 (gap + 1)
             then bitset_reset
             else bitset_shl (seen_window s) (wrap32 (gap + 1)) in
    (mkSeqEvent SeqResult.GAP src_id (wrap32 (seq - gap)) seq gap,
     {| next_expected := wrap32 (seq + 1);
        initialized := true;
        seen_window := bitset_set w (WINDOW_SIZE - 1) |})
  else
    let age := wrap32 (next_expected s - seq) in
    if age <=? WINDOW_SIZE then
      let bit_idx := WINDOW_SIZE - age in
      if bitset_test (seen_window s) bit_idx then
        (mkSeqEvent SeqResult.DUPLICATE src_id (next_expected s) seq 0, s)
      else
        (mkSeqEvent SeqResult.REORDER src_id (next_expected s) seq 0,
         {| next_expected := next_expected s;
            initialized := true;
            seen_window := bitset_set (seen_window s) bit_idx |})
    else
      (mkSeqEvent SeqResult.REORDER src_id (next_expected s) seq 0, s).

(** [SequenceTracker::track]. *)
Definition track (t : SequenceTracker) (src_id seq : Z)
  : SeqEvent * SequenceTracker :=
  let '(ev, s') := track_state (sources_at t src_id) src_id seq in
  (ev, <[src_id := s']> t).

Definition tracker_reset (t : SequenceTracker) (src_id : Z) : SequenceTracker :=
  delete src_id t.

Definition reset_all (t : SequenceTracker) : SequenceTracker := ∅.

Definition source_count (t : SequenceTracker) : nat := size t.

(** Feeding a list of [(src_id, seq)] pairs, collecting the events. *)
Fixpoint track_all (t : SequenceTracker) (inputs : list (Z * Z))
  : list SeqEvent * SequenceTracker :=
  match inputs with
  | [] => ([], t)
  | (src_id, seq) :: rest =>
      let '(ev, t1) := track t src_id seq in
      let '(evs, t2) := track_all t1 rest in
      (ev :: evs, t2)
  end.

(** ** src/common/crc32.{h,cpp} *)

(** [~x] on a [uint32_t]. *)
Definition lnot32 (x : Z) : Z := Z.lxor x 0xFFFFFFFF.

(** One round of the loop of [make_crc_entry]. *)
Definition crc_round (crc : Z) : Z :=
  if Z.testbit crc 0
  then Z.lxor (Z.shiftr crc 1) 0xEDB88320
  else Z.shiftr crc 1.

Definition make_crc_entry (idx : Z) : Z :=
  Nat.iter 8 crc_round idx.

(** [constexpr CrcTable table{}]: the 256 entries, computed once. *)
Definition table_entries : list Z :=
  Eval vm_compute in List.map (fun i => make_crc_entry (Z.of_nat i)) (seq 0 256).

Definition table_at (idx : Z) : Z := nth (Z.to_nat idx) table_entries 0.

(** The body of the loop of [crc32_update], for one byte. *)
Definition crc_step (crc : Z) (b : byte) : Z :=
  let idx := wrap8 (Z.lxor crc (byte_val b)) in
  Z.lxor (Z.shiftr crc 8) (table_at idx).

Definition crc32_update (crc : Z) (data : list byte) : Z :=
  lnot32 (fold_left crc_step data (lnot32 crc)).

Definition crc32 (data : list byte) : Z := crc32_update 0 data.

(** ** src/common/types.h, src/common/protocol.h *)

Definition PROTOCOL_VERSION : Z := 1.
Definition FRAME_HEADER_SIZE : Z := 18.
Definition FRAME_CRC_SIZE : Z := 4.
Definition MAX_PAYLOAD_SIZE : Z := 1024.

Module MsgType.
Definition PLOT : Z := 0x01.
Definition TRACK : Z := 0x02.
Definition HEARTBEAT : Z := 0x03.
Definition ENGAGEMENT : Z := 0x04.
End MsgType.

Module SubsystemState.
Definition OK : Z := 0.
Definition DEGRADED : Z := 1.
Definition ERROR : Z := 2.
Definition OFFLINE : Z := 3.
End SubsystemState.

Module Severity.
Inductive t := DEBUG | INFO | WARN | ALARM | ERROR | FATAL.
End Severity.

Module EventCategory.
Inductive t := TRACKING | THREAT | IFF | ENGAGEMENT | NETWORK | HEALTH | CONTROL.
End EventCategory.

Inductive EventId :=
  | EVT_TRACK_NEW | EVT_TRACK_UPDATE | EVT_TRACK_LOST | EVT_TRACK_CLASSIFY
  | EVT_THREAT_EVAL | EVT_THREAT_CRITICAL
  | EVT_IFF_RESPONSE | EVT_IFF_FOE
  | EVT_ENGAGE_START | EVT_ENGAGE_CEASE | EVT_WEAPON_STATUS | EVT_AMMO_LOW
  | EVT_SEQ_GAP | EVT_SEQ_REORDER | EVT_FRAME_MALFORMED | EVT_CRC_FAIL
  | EVT_SOURCE_ONLINE | EVT_SOURCE_TIMEOUT
  | EVT_HEARTBEAT_OK | EVT_HEARTBEAT_DEGRADE | EVT_HEARTBEAT_ERROR
  | EVT_CONFIG_CHANGE.

Record TelemetryHeader := mkTelemetryHeader {
  version     : Z;
  msg_type    : Z;
  hdr_src_id  : Z;
  hdr_seq     : Z;
  ts_ns       : Z;
  payload_len : Z
}.

Definition sizeof_PlotPayload : Z := 21.
Definition sizeof_TrackPayload : Z := 25.
Definition sizeof_HeartbeatPayload : Z := 11.
Definition sizeof_EngagementPayload : Z := 13.

(** The unsigned integer that [memcpy] reads from the bytes [l] on the
    little-endian host the code is written for. *)
Fixpoint le_combine (l : list byte) : Z :=
  match l with
  | [] => 0
  | b :: rest => byte_val b + 2 ^ 8 * le_combine rest
  end.

(** The [n] bytes at [buf + off]. *)
Definition bytes_at (buf : list byte) (off n : nat) : list byte :=
  take n (drop off buf).

(** [deserialize_header]: a [memcpy] of 18 bytes into the packed struct. *)
Definition deserialize_header (buf : list byte) : TelemetryHeader :=
  {| version     := le_combine (bytes_at buf 0 1);
     msg_type    := le_combine (bytes_at buf 1 1);
     hdr_src_id  := le_combine (bytes_at buf 2 2);
     hdr_seq     := le_combine (bytes_at buf 4 4);
     ts_ns       := le_combine (bytes_at buf 8 8);
     payload_len := le_combine (bytes_at buf 16 2) |}.

(** ** src/gateway/telemetry_parser.{h,cpp} *)

Module ParseError.
Inductive t :=
  OK | TOO_SHORT | BAD_VERSION | BAD_MSG_TYPE | PAYLOAD_TOO_LONG
| TRUNCATED | CRC_MISMATCH.

Definition eqb (a b : t) : bool :=
  match a, b with
  | OK, OK | TOO_SHORT, TOO_SHORT | BAD_VERSION, BAD_VERSION
  | BAD_MSG_TYPE, BAD_MSG_TYPE | PAYLOAD_TOO_LONG, PAYLOAD_TOO_LONG
  | TRUNCATED, TRUNCATED | CRC_MISMATCH, CRC_MISMATCH => true
  | _, _ => false
  end.
End ParseError.

(** [payload_ptr] is [None] for [nullptr] and [Some off] for [buf + off],
    a pointer into the buffer that was parsed. *)
Record ParsedFrame := mkParsedFrame {
  header      : TelemetryHeader;
  payload_ptr : option Z;
  crc         : Z;
  has_crc     : bool
}.

(** A default-initialised [ParsedFrame] whose header members hold [h]. *)
Definition ParsedFrame_init (h : TelemetryHeader) : ParsedFrame :=
  {| header := h; payload_ptr := None; crc := 0; has_crc := false |}.

Definition set_header (out : ParsedFrame) (h : TelemetryHeader) : ParsedFrame :=
  {| header := h; payload_ptr := payload_ptr out; crc := crc out; has_crc := has_crc out |}.
Definition set_payload_ptr (out : ParsedFrame) (p : option Z) : ParsedFrame :=
  {| header := header out; payload_ptr := p; crc := crc out; has_crc := has_crc out |}.
Definition set_crc (out : ParsedFrame) (c : Z) : ParsedFrame :=
  {| header := header out; payload_ptr := payload_ptr out; crc := c; has_crc := has_crc out |}.
Definition set_has_crc (out : ParsedFrame) (b : bool) : ParsedFrame :=
  {| header := header out; payload_ptr := payload_ptr out; crc := crc out; has_crc := b |}.

Definition buf_len (buf : list byte) : Z := Z.of_nat (length buf).

(** [parse_frame(buf, len, crc_enabled, out)]: the error code and the value
    of the out-parameter at the return. *)
Definition parse_frame (buf : list byte) (crc_enabled : bool) (out : ParsedFrame)
  : ParseError.t * ParsedFrame :=
  let len := buf_len buf in
  if len <? FRAME_HEADER_SIZE then (ParseError.TOO_SHORT, out)
  else
    let out := set_header out (deserialize_header buf) in
    if negb (version (header out) =? PROTOCOL_VERSION) then
      (ParseError.BAD_VERSION, out)
    else
      let mt := msg_type (header out) in
      if (mt <? MsgType.PLOT) || (MsgType.ENGAGEMENT <? mt) then
        (ParseError.BAD_MSG_TYPE, out)
      else if MAX_PAYLOAD_SIZE <? payload_len (header out) then
        (ParseError.PAYLOAD_TOO_LONG, out)
      else
        let expected := FRAME_HEADER_SIZE + payload_len (header out) in
        let expected := if crc_enabled then expected + FRAME_CRC_SIZE else expected in
        if len <? expected then (ParseError.TRUNCATED, out)
        else
          let out := set_payload_ptr out (Some FRAME_HEADER_SIZE) in
          let out := set_has_crc out crc_enabled in
          if crc_enabled then
            let crc_offset := FRAME_HEADER_SIZE + payload_len (header out) in
            let out := set_crc out (le_combine (bytes_at buf (Z.to_nat crc_offset)
                                                           (Z.to_nat FRAME_CRC_SIZE))) in
            let computed :=
              crc32 (take (Z.to_nat (FRAME_HEADER_SIZE + payload_len (header out))) buf) in
            if negb (computed =? crc out) then (ParseError.CRC_MISMATCH, out)
            else (ParseError.OK, out)
          else
            (ParseError.OK, set_crc out 0).

(** *** The error order as the specification words it

    Each check of section 4.2 as a predicate on the raw bytes, in the order
    of the specification; the header fields are read at their wire offsets
    (version at 0, msg_type at 1, payload_len at 16 and 17, little-endian).
    The CRC check is the check of a frame that carries a CRC, so it applies
    when [crc_enabled]. *)
Definition wire_byte (buf : list byte) (i : nat) : Z :=
  byte_val (nth i buf x00).

Definition wire_payload_len (buf : list byte) : Z :=
  wire_byte buf 16 + 256 * wire_byte buf 17.

Definition wire_crc (buf : list byte) : Z :=
  let off := Z.to_nat (18 + wire_payload_len buf) in
  wire_byte buf off + 256 * wire_byte buf (off + 1)
  + 65536 * wire_byte buf (off + 2) + 16777216 * wire_byte buf (off + 3).

Definition spec_checks (buf : list byte) (crc_enabled : bool)
  : list (ParseError.t * bool) :=
  let len := buf_len buf in
  let plen := wire_payload_len buf in
  [ (ParseError.TOO_SHORT, len <? 18);
    (ParseError.BAD_VERSION, negb (wire_byte buf 0 =? 1));
    (ParseError.BAD_MSG_TYPE,
       negb ((0x01 <=? wire_byte buf 1) && (wire_byte buf 1 <=? 0x04)));
    (ParseError.PAYLOAD_TOO_LONG, 1024 <? plen);
    (ParseError.TRUNCATED, len <? 18 + plen + (if crc_enabled then 4 else 0));
    (ParseError.CRC_MISMATCH,
       crc_enabled && negb (crc32 (take (Z.to_nat (18 + plen)) buf) =? wire_crc buf)) ].

(** Earliest failure wins; no failure is OK. *)
Fixpoint earliest_failure (checks : list (ParseError.t * bool)) : ParseError.t :=
  match checks with
  | [] => ParseError.OK
  | (e, fails) :: rest => if fails then e else earliest_failure rest
  end.

(** ** src/gateway/stats_manager.{h,cpp} *)

Record GlobalStats := mkGlobalStats {
  rx_total        : Z;
  malformed_total : Z;
  gap_total       : Z;
  reorder_total   : Z;
  duplicate_total : Z;
  crc_fail_total  : Z
}.

Record SourceStats := mkSourceStats {
  src_id     : Z;
  rx_count   : Z;
  malformed  : Z;
  gaps       : Z;
  reorders   : Z;
  duplicates : Z;
  last_seq   : Z;
  last_ts_ns : Z
}.

(** [GlobalStats{}] and [SourceStats{}]: the default member initialisers. *)
Definition GlobalStats_default : GlobalStats := mkGlobalStats 0 0 0 0 0 0.
Definition SourceStats_default : SourceStats := mkSourceStats 0 0 0 0 0 0 0 0.

Module HealthState.
Inductive t := OK | DEGRADED | ERROR.
End HealthState.

(** The aggregator object.  Every method holds the lock for its whole body,
    so each is one atomic step on this state. *)
Record StatsManager := mkStatsManager {
  global_  : GlobalStats;
  sources_ : gmap Z SourceStats
}.

Definition StatsManager_new : StatsManager :=
  {| global_ := GlobalStats_default; sources_ := ∅ |}.

(** [get_or_create_source]: the entry the returned reference denotes. *)
Definition get_or_create_source (m : gmap Z SourceStats) (id : Z) : SourceStats :=
  match m !! id with
  | None => mkSourceStats id 0 0 0 0 0 0 0
  | Some s => s
  end.

(** Writing through the reference returned by [get_or_create_source]. *)
Definition update_source (st : StatsManager) (g : GlobalStats) (id : Z)
    (f : SourceStats -> SourceStats) : StatsManager :=
  {| global_ := g;
     sources_ := <[id := f (get_or_create_source (sources_ st) id)]> (sources_ st) |}.

Definition record_rx (st : StatsManager) (id seq ts : Z) : StatsManager :=
  let g := global_ st in
  update_source st
    (mkGlobalStats (wrap64 (rx_total g + 1)) (malformed_total g) (gap_total g)
                   (reorder_total g) (duplicate_total g) (crc_fail_total g))
    id
    (fun s => mkSourceStats (src_id s) (wrap64 (rx_count s + 1)) (malformed s) (gaps s)
                            (reorders s) (duplicates s) seq ts).

Definition record_malformed (st : StatsManager) (id : Z) : StatsManager :=
  let g := global_ st in
  update_source st
    (mkGlobalStats (rx_total g) (wrap64 (malformed_total g + 1)) (gap_total g)
                   (reorder_total g) (duplicate_total g) (crc_fail_total g))
    id
    (fun s => mkSourceStats (src_id s) (rx_count s) (wrap64 (malformed s + 1)) (gaps s)
                            (reorders s) (duplicates s) (last_seq s) (last_ts_ns s)).

Definition record_gap (st : StatsManager) (id gap : Z) : StatsManager :=
  let g := global_ st in
  update_source st
    (mkGlobalStats (rx_total g) (malformed_total g) (wrap64 (gap_total g + gap))
                   (reorder_total g) (duplicate_total g) (crc_fail_total g))
    id
    (fun s => mkSourceStats (src_id s) (rx_count s) (malformed s) (wrap64 (gaps s + gap))
                            (reorders s) (duplicates s) (last_seq s) (last_ts_ns s)).

Definition record_reorder (st : StatsManager) (id : Z) : StatsManager :=
  let g := global_ st in
  update_source st
    (mkGlobalStats (rx_total g) (malformed_total g) (gap_total g)
                   (wrap64 (reorder_total g + 1)) (duplicate_total g) (crc_fail_total g))
    id
    (fun s => mkSourceStats (src_id s) (rx_count s) (malformed s) (gaps s)
                            (wrap64 (reorders s + 1)) (duplicates s) (last_seq s) (last_ts_ns s)).

Definition record_duplicate (st : StatsManager) (id : Z) : StatsManager :=
  let g := global_ st in
  update_source st
    (mkGlobalStats (rx_total g) (malformed_total g) (gap_total g)
                   (reorder_total g) (wrap64 (duplicate_total g + 1)) (crc_fail_total g))
    id
    (fun s => mkSourceStats (src_id s) (rx_count s) (malformed s) (gaps s)
                            (reorders s) (wrap64 (duplicates s + 1)) (last_seq s) (last_ts_ns s)).

Definition record_crc_fail (st : StatsManager) (id : Z) : StatsManager :=
  let g := global_ st in
  update_source st
    (mkGlobalStats (rx_total g) (malformed_total g) (gap_total g)
                   (reorder_total g) (duplicate_total g) (wrap64 (crc_fail_total g + 1)))
    id
    (fun s => mkSourceStats (src_id s) (rx_count s) (wrap64 (malformed s + 1)) (gaps s)
                            (reorders s) (duplicates s) (last_seq s) (last_ts_ns s)).

Definition get_global_stats (st : StatsManager) : GlobalStats := global_ st.

(** [get_source_stats] is a [const] method: it returns a value and leaves
    the object as it is. *)
Definition get_source_stats (st : StatsManager) (id : Z) : SourceStats :=
  match sources_ st !! id with
  | None => SourceStats_default
  | Some s => s
  end.

Definition get_health (st : StatsManager) : HealthState.t :=
  let g := global_ st in
  if (0 <? malformed_total g) || (0 <? crc_fail_total g) then HealthState.ERROR
  else if (0 <? gap_total g) || (0 <? reorder_total g) then HealthState.DEGRADED
  else HealthState.OK.

Definition stats_reset (st : StatsManager) : StatsManager := StatsManager_new.

(** ** src/gateway/gateway.{h,cpp} *)

(** An event handed to [publish_event].  The detail string and the clock
    reading are formatting and time, and are left out. *)
Record EventRecord := mkEventRecord {
  event_id : EventId;
  category : EventCategory.t;
  severity : Severity.t
}.

(** The members of [Gateway] that [process_frame] reads or writes: the two
    configuration flags, the tracker, the statistics, the recorder (open or
    not, and the records written, newest last) and the events published so
    far (newest last). *)
Record Gateway := mkGateway {
  crc_enabled    : bool;
  record_enabled : bool;
  tracker_       : gmap Z SourceState;
  stats_         : StatsManager;
  recorder_open  : bool;
  recorded       : list (Z * list byte);
  published      : list EventRecord
}.

Definition with_stats (gw : Gateway) (st : StatsManager) : Gateway :=
  mkGateway (crc_enabled gw) (record_enabled gw) (tracker_ gw) st
            (recorder_open gw) (recorded gw) (published gw).

Definition with_tracker (gw : Gateway) (t : gmap Z SourceState) : Gateway :=
  mkGateway (crc_enabled gw) (record_enabled gw) t (stats_ gw)
            (recorder_open gw) (recorded gw) (published gw).

Definition with_recorded (gw : Gateway) (r : list (Z * list byte)) : Gateway :=
  mkGateway (crc_enabled gw) (record_enabled gw) (tracker_ gw) (stats_ gw)
            (recorder_open gw) r (published gw).

Definition publish_event (gw : Gateway) (i : EventId) (c : EventCategory.t)
    (s : Severity.t) : Gateway :=
  mkGateway (crc_enabled gw) (record_enabled gw) (tracker_ gw) (stats_ gw)
            (recorder_open gw) (recorded gw) (published gw ++ [mkEventRecord i c s]).

(** The first [switch] of the success path: statistics and event of the
    sequence result. *)
Definition handle_seq_result (gw : Gateway) (h : TelemetryHeader) (ev : SeqEvent)
  : Gateway :=
  match result ev with
  | SeqResult.FIRST =>
      publish_event gw EVT_SOURCE_ONLINE EventCategory.NETWORK Severity.INFO
  | SeqResult.GAP =>
      publish_event (with_stats gw (record_gap (stats_ gw) (hdr_src_id h) (gap_size ev)))
                    EVT_SEQ_GAP EventCategory.NETWORK Severity.WARN
  | SeqResult.REORDER =>
      publish_event (with_stats gw (record_reorder (stats_ gw) (hdr_src_id h)))
                    EVT_SEQ_REORDER EventCategory.NETWORK Severity.WARN
  | SeqResult.DUPLICATE =>
      with_stats gw (record_duplicate (stats_ gw) (hdr_src_id h))
  | SeqResult.OK => gw
  end.

(** The second [switch]: the event of the payload.  The only payload byte
    that decides anything is [HeartbeatPayload::state], at offset 2. *)
Definition handle_payload (gw : Gateway) (frame : list byte) (parsed : ParsedFrame)
  : Gateway :=
  let h := header parsed in
  let mt := msg_type h in
  if mt =? MsgType.TRACK then
    if sizeof_TrackPayload <=? payload_len h
    then publish_event gw EVT_TRACK_UPDATE EventCategory.TRACKING Severity.DEBUG
    else gw
  else if mt =? MsgType.PLOT then
    if sizeof_PlotPayload <=? payload_len h
    then publish_event gw EVT_TRACK_NEW EventCategory.TRACKING Severity.DEBUG
    else gw
  else if mt =? MsgType.HEARTBEAT then
    if sizeof_HeartbeatPayload <=? payload_len h then
      let state :=
        le_combine (bytes_at frame (Z.to_nat (default 0 (payload_ptr parsed) + 2)) 1) in
      if state =? SubsystemState.DEGRADED then
        publish_event gw EVT_HEARTBEAT_DEGRADE EventCategory.HEALTH Severity.WARN
      else if (state =? SubsystemState.ERROR) || (state =? SubsystemState.OFFLINE) then
        publish_event gw EVT_HEARTBEAT_ERROR EventCategory.HEALTH Severity.ALARM
      else
        publish_event gw EVT_HEARTBEAT_OK EventCategory.HEALTH Severity.DEBUG
    else gw
  else if mt =? MsgType.ENGAGEMENT then
    if sizeof_EngagementPayload <=? payload_len h
    then publish_event gw EVT_WEAPON_STATUS EventCategory.ENGAGEMENT Severity.INFO
    else gw
  else gw.

(** The first step of [process_frame]: the raw bytes go to the recorder
    when recording is enabled and the file is open. *)
Definition record_if_enabled (gw : Gateway) (frame : list byte) (ts : Z) : Gateway :=
  if record_enabled gw && recorder_open gw
  then with_recorded gw (recorded gw ++ [(ts, frame)])
  else gw.

(** The branch [if (err != ParseError::OK)]: the failure is recorded
    against the literal source id 0. *)
Definition handle_parse_error (gw : Gateway) (err : ParseError.t) : Gateway :=
  let gw := with_stats gw (record_malformed (stats_ gw) 0) in
  if ParseError.eqb err ParseError.CRC_MISMATCH then
    publish_event (with_stats gw (record_crc_fail (stats_ gw) 0))
                  EVT_CRC_FAIL EventCategory.NETWORK Severity.WARN
  else
    publish_event gw EVT_FRAME_MALFORMED EventCategory.NETWORK Severity.WARN.

(** The rest of the body, for a frame that parsed. *)
Definition handle_parsed (gw : Gateway) (frame : list byte) (parsed : ParsedFrame)
    (rx_timestamp_ns : Z) : Gateway :=
  let h := header parsed in
  let '(seq_result, t') := track (tracker_ gw) (hdr_src_id h) (hdr_seq h) in
  let gw := with_tracker gw t' in
  let gw := with_stats gw (record_rx (stats_ gw) (hdr_src_id h) (hdr_seq h) rx_timestamp_ns) in
  let gw := handle_seq_result gw h seq_result in
  handle_payload gw frame parsed.

(** [Gateway::process_frame].  [parsed] is the local [ParsedFrame parsed;]:
    its header members are indeterminate before the call of [parse_frame],
    so their value [h0] is a parameter. *)
Definition process_frame (h0 : TelemetryHeader) (gw : Gateway)
    (frame : list byte) (rx_timestamp_ns : Z) : Gateway :=
  let gw := record_if_enabled gw frame rx_timestamp_ns in
  let '(err, parsed) := parse_frame frame (crc_enabled gw) (ParsedFrame_init h0) in
  if negb (ParseError.eqb err ParseError.OK)
  then handle_parse_error gw err
  else handle_parsed gw frame parsed rx_timestamp_ns.

(** ** src/control_node/tcp_framer.{h,cpp} *)

(** The frame length above which the decoder gives up: 10 MiB. *)
Definition MAX_FRAME_LEN : Z := 10 * 1024 * 1024.

(** The decoder object.  A payload is a [std::string]; its [char]s are kept
    as the bytes they were cast from. *)
Record TcpFramer := mkTcpFramer {
  buffer_       : list byte;
  ready_frames_ : list (list byte)
}.

Definition TcpFramer_new : TcpFramer :=
  {| buffer_ := []; ready_frames_ := [] |}.

(** [TcpFramer::encode(data, len)]. *)
Definition encode (payload : list byte) : list byte :=
  let be_len := wrap32 (Z.of_nat (length payload)) in
  byte_of_Z (Z.land (Z.shiftr be_len 24) 0xFF)
  :: byte_of_Z (Z.land (Z.shiftr be_len 16) 0xFF)
  :: byte_of_Z (Z.land (Z.shiftr be_len 8) 0xFF)
  :: byte_of_Z (Z.land be_len 0xFF)
  :: payload.

(** The big-endian length read from the first four bytes of the buffer. *)
Definition read_frame_len (b0 b1 b2 b3 : byte) : Z :=
  Z.lor (Z.lor (Z.lor (Z.shiftl (byte_val b0) 24) (Z.shiftl (byte_val b1) 16))
               (Z.shiftl (byte_val b2) 8))
        (byte_val b3).

(** [try_extract_frames]: the [while] loop, one iteration per unit of
    fuel.  An iteration that goes round again removes at least four bytes
    from the buffer, so the length of the buffer is fuel enough
    ([try_extract_frames_fuel_enough]). *)
Fixpoint try_extract_frames_loop (fuel : nat) (f : TcpFramer) : TcpFramer :=
  match fuel with
  | O => f
  | S fuel' =>
      match buffer_ f with
      | b0 :: b1 :: b2 :: b3 :: rest =>
          let frame_len := read_frame_len b0 b1 b2 b3 in
          if MAX_FRAME_LEN <? frame_len then
            {| buffer_ := []; ready_frames_ := ready_frames_ f |}
          else if buf_len (buffer_ f) <? wrap32 (4 + frame_len) then f
          else
            let payload := take (Z.to_nat frame_len) rest in
            try_extract_frames_loop fuel'
              {| buffer_ := drop (Z.to_nat (wrap32 (4 + frame_len))) (buffer_ f);
                 ready_frames_ := ready_frames_ f ++ [payload] |}
      | _ => f
      end
  end.

Definition try_extract_frames (f : TcpFramer) : TcpFramer :=
  try_extract_frames_loop (length (buffer_ f)) f.

(** [TcpFramer::feed]. *)
Definition feed (f : TcpFramer) (data : list byte) : TcpFramer :=
  try_extract_frames
    {| buffer_ := buffer_ f ++ data; ready_frames_ := ready_frames_ f |}.

Definition has_frame (f : TcpFramer) : bool :=
  match ready_frames_ f with [] => false | _ => true end.

(** [TcpFramer::pop_frame]: the frame returned and the decoder left. *)
Definition pop_frame (f : TcpFramer) : list byte * TcpFramer :=
  match ready_frames_ f with
  | [] => ([], f)
  | frame :: rest => (frame, {| buffer_ := buffer_ f; ready_frames_ := rest |})
  end.

Definition framer_reset (f : TcpFramer) : TcpFramer := TcpFramer_new.

Definition buffered_bytes (f : TcpFramer) : nat := length (buffer_ f).

(** Feeding the chunks of a stream in order. *)
Definition feed_all (f : TcpFramer) (chunks : list (list byte)) : TcpFramer :=
  fold_left feed chunks f.

(** Calling [pop_frame] [n] times, collecting what it returns. *)
Fixpoint pop_frames (n : nat) (f : TcpFramer) : list (list byte) * TcpFramer :=
  match n with
  | O => ([], f)
  | S n' =>
      let '(frame, f1) := pop_frame f in
      let '(frames, f2) := pop_frames n' f1 in
      (frame :: frames, f2)
  end.

(** ** src/sensor_sim/fault_injector.{h,cpp} *)

Record FaultStats := mkFaultStats {
  dropped    : Z;
  reordered  : Z;
  duplicated : Z;
  corrupted  : Z
}.

Definition FaultStats_default : FaultStats := mkFaultStats 0 0 0 0.

(** [frames.insert(frames.begin() + pos, dup)]. *)
Definition insert_at {A} (pos : Z) (x : A) (l : list A) : list A :=
  take (Z.to_nat pos) l ++ x :: drop (Z.to_nat pos) l.

(** [frame[i] ^= 0xFF]. *)
Definition flip_byte (frame : list byte) (i : Z) : list byte :=
  match frame !! Z.to_nat i with
  | Some b => <[Z.to_nat i := byte_of_Z (Z.lxor (byte_val b) 0xFF)]> frame
  | None => frame
  end.

(** The parts of the C++ standard library the injector is written
    against: [double] with its [operator<] and the literal [0.0], the
    engine [std::mt19937] with its seeding constructor, one draw of
    [std::uniform_real_distribution<double>(0.0, 100.0)] and one draw of
    [std::uniform_int_distribution<size_t>(a, b)].  A draw returns the
    number drawn and the engine after the draw. *)
Class StdRandom := {
  double : Type;
  double_lt : double -> double -> bool;
  double_zero : double;
  mt19937 : Type;
  mt19937_seed : Z -> mt19937;
  uniform_real_0_100 : mt19937 -> double * mt19937;
  uniform_int : Z -> Z -> mt19937 -> Z * mt19937
}.

Section FaultInjector.

Context `{StdRandom}.

Record FaultConfig := mkFaultConfig {
  loss_pct      : double;
  reorder_pct   : double;
  duplicate_pct : double;
  corrupt_pct   : double
}.

Record FaultInjector := mkFaultInjector {
  config_     : FaultConfig;
  rng_        : mt19937;
  last_stats_ : FaultStats
}.

(** The constructor. *)
Definition FaultInjector_new (config : FaultConfig) (seed : Z) : FaultInjector :=
  {| config_ := config; rng_ := mt19937_seed seed; last_stats_ := FaultStats_default |}.

(** What the four stages thread through: the engine and the counters. *)
Definition Env : Type := mt19937 * FaultStats.

Definition incr_corrupted (s : FaultStats) : FaultStats :=
  mkFaultStats (dropped s) (reordered s) (duplicated s) (wrap32 (corrupted s + 1)).
Definition incr_duplicated (s : FaultStats) : FaultStats :=
  mkFaultStats (dropped s) (reordered s) (wrap32 (duplicated s + 1)) (corrupted s).
Definition incr_dropped (s : FaultStats) : FaultStats :=
  mkFaultStats (wrap32 (dropped s + 1)) (reordered s) (duplicated s) (corrupted s).
Definition incr_reordered (s : FaultStats) : FaultStats :=
  mkFaultStats (dropped s) (wrap32 (reordered s + 1)) (duplicated s) (corrupted s).

(** Stage 1, the loop over the frames.  The draw of [pct] comes first in
      the condition, so it is made for an empty frame too. *)
Fixpoint corrupt_frames (pct : double) (frames : list (list byte)) (e : Env)
  : list (list byte) * Env :=
  match frames with
  | [] => ([], e)
  | frame :: rest =>
      let '(r, g1) := uniform_real_0_100 (fst e) in
      let '(frame', e1) :=
        if double_lt r pct && negb (length frame =? 0)%nat then
          let '(i, g2) := uniform_int 0 (buf_len frame - 1) g1 in
          (flip_byte frame i, (g2, incr_corrupted (snd e)))
        else (frame, (g1, snd e)) in
      let '(rest', e2) := corrupt_frames pct rest e1 in
      (frame' :: rest', e2)
  end.

(** Stage 2, first loop: the copies to insert. *)
Fixpoint pick_extras (pct : double) (frames : list (list byte)) (e : Env)
  : list (list byte) * Env :=
  match frames with
  | [] => ([], e)
  | frame :: rest =>
      let '(r, g1) := uniform_real_0_100 (fst e) in
      if double_lt r pct then
        let '(extras, e2) := pick_extras pct rest (g1, incr_duplicated (snd e)) in
        (frame :: extras, e2)
      else pick_extras pct rest (g1, snd e)
  end.

(** Stage 2, second loop: each copy goes to a position drawn in
      [0, frames.size()] of the batch as grown so far. *)
Fixpoint insert_extras (extras frames : list (list byte)) (g : mt19937)
  : list (list byte) * mt19937 :=
  match extras with
  | [] => (frames, g)
  | dup :: rest =>
      let '(pos, g1) := uniform_int 0 (Z.of_nat (length frames)) g in
      insert_extras rest (insert_at pos dup frames) g1
  end.

(** Stage 3: [std::remove_if] with one draw per frame, in order. *)
Fixpoint drop_frames (pct : double) (frames : list (list byte)) (e : Env)
  : list (list byte) * Env :=
  match frames with
  | [] => ([], e)
  | frame :: rest =>
      let '(r, g1) := uniform_real_0_100 (fst e) in
      if double_lt r pct then drop_frames pct rest (g1, incr_dropped (snd e))
      else
        let '(rest', e2) := drop_frames pct rest (g1, snd e) in
        (frame :: rest', e2)
  end.

(** Stage 4: the walk over adjacent pairs; a swap skips the pair. *)
Fixpoint reorder_frames (pct : double) (frames : list (list byte)) (e : Env)
  : list (list byte) * Env :=
  match frames with
  | a :: ((b :: rest) as tl) =>
      let '(r, g1) := uniform_real_0_100 (fst e) in
      if double_lt r pct then
        let '(rest', e2) := reorder_frames pct rest (g1, incr_reordered (snd e)) in
        (b :: a :: rest', e2)
      else
        let '(tl', e2) := reorder_frames pct tl (g1, snd e) in
        (a :: tl', e2)
  | _ => (frames, e)
  end.

(** [FaultInjector::apply]: the batch after the call and the injector
      after the call. *)
Definition apply (fi : FaultInjector) (frames : list (list byte))
  : list (list byte) * FaultInjector :=
  let cfg := config_ fi in
  let e0 : Env := (rng_ fi, FaultStats_default) in
  match frames with
  | [] => (frames, mkFaultInjector cfg (rng_ fi) FaultStats_default)
  | _ =>
      let '(frames1, e1) :=
        if double_lt double_zero (corrupt_pct cfg)
        then corrupt_frames (corrupt_pct cfg) frames e0
        else (frames, e0) in
      let '(frames2, e2) :=
        if double_lt double_zero (duplicate_pct cfg) then
          let '(extras, e) := pick_extras (duplicate_pct cfg) frames1 e1 in
          let '(fs, g) := insert_extras extras frames1 (fst e) in
          (fs, (g, snd e))
        else (frames1, e1) in
      let '(frames3, e3) :=
        if double_lt double_zero (loss_pct cfg)
        then drop_frames (loss_pct cfg) frames2 e2
        else (frames2, e2) in
      let '(frames4, e4) :=
        if double_lt double_zero (reorder_pct cfg) && (2 <=? length frames3)%nat
        then reorder_frames (reorder_pct cfg) frames3 e3
        else (frames3, e3) in
      (frames4, mkFaultInjector cfg (fst e4) (snd e4))
  end.

(** A history of [apply] calls on one injector: the batch and the
      [last_stats()] after each call, and the injector at the end. *)
Fixpoint apply_all (fi : FaultInjector) (batches : list (list (list byte)))
  : list (list (list byte) * FaultStats) * FaultInjector :=
  match batches with
  | [] => ([], fi)
  | frames :: rest =>
      let '(out, fi1) := apply fi frames in
      let '(outs, fi2) := apply_all fi1 rest in
      ((out, last_stats_ fi1) :: outs, fi2)
  end.

End FaultInjector.

(** ** Vocabulary of the statements and test vectors *)


(** A TRACK frame of the concrete scenarios: version, msg_type 2,
    src_id 0x0012, seq 1, ts_ns 1000000, payload_len 25, then the payload
    (track_id 42, classification 5, threat 3, the rest 0), no CRC. *)
Definition track_frame (ver : byte) : list byte :=
  [ver; x02; x12; x00; x01; x00; x00; x00;
   x40; x42; x0f; x00; x00; x00; x00; x00; x19; x00]
  ++ [x2a; x00; x00; x00; x05; x03] ++ repeat x00 19.

(** The five counters of a per-source entry. *)
Definition counters (s : SourceStats) : list Z :=
  [rx_count s; malformed s; gaps s; reorders s; duplicates s].

(** A gateway as constructed, with the CRC policy on and no recording. *)
Definition gateway0 : Gateway :=
  mkGateway true false SequenceTracker_new StatsManager_new false [] [].

(** A HEARTBEAT frame from source 7 with an empty payload, followed by four
    CRC bytes that are not its CRC. *)
Definition crc_bad_frame : list byte :=
  [x01; x03; x07; x00] ++ repeat x00 12 ++ [x00; x00] ++ [x00; x00; x00; x00].

Definition header0 : TelemetryHeader := mkTelemetryHeader 0 0 0 0 0 0.

(** A payload the decoder accepts: at most 10 MiB. *)
Definition ok_payload (p : list byte) : Prop :=
  Z.of_nat (length p) <= MAX_FRAME_LEN.

(** The byte stream of a sequence of payloads. *)
Definition stream (ps : list (list byte)) : list byte :=
  concat (List.map encode ps).

(** What is in the buffer between two frames of the stream [ps]: nothing
    when the stream is over, else a proper prefix of the next frame. *)
Definition partial_frame (b : list byte) (ps : list (list byte)) : Prop :=
  match ps with
  | [] => b = []
  | p :: _ => (length b < length (encode p))%nat
  end.

(** The payloads HELLO, the empty payload and OK, and their stream cut
    into chunks of three bytes (the last has one). *)
Definition hello : list byte := [x48; x45; x4c; x4c; x4f].
Definition three_payloads : list (list byte) := [hello; []; [x4f; x4b]].
Definition three_payloads_chunks : list (list byte) :=
  [ [x00; x00; x00]; [x05; x48; x45]; [x4c; x4c; x4f]; [x00; x00; x00];
    [x00; x00; x00]; [x00; x02; x4f]; [x4b] ].

(** A small linear congruential engine with integer percentages, to run
    the injector on. *)
Definition lcg_next (g : Z) : Z := (g * 1103515245 + 12345) mod 2 ^ 31.

Definition lcg_random : StdRandom :=
  {| double := Z;
     double_lt := Z.ltb;
     double_zero := 0;
     mt19937 := Z;
     mt19937_seed := fun seed => wrap32 seed;
     uniform_real_0_100 := fun g => (lcg_next g / 65536 mod 100, lcg_next g);
     uniform_int := fun a b g => (a + lcg_next g / 65536 mod (b - a + 1), lcg_next g) |}.

Definition batch4 : list (list byte) :=
  [[x01; x01]; [x02; x02]; [x03; x03]; [x04; x04]].

Definition all_faults : @FaultConfig lcg_random := @mkFaultConfig lcg_random 30 50 50 50.

(** ** Further vocabulary: sequence tracker *)

(** The pairs of [n] consecutive sequence numbers of one source, from [s]
    on, wrapping modulo 2^32 as the sender's [uint32_t] counter does. *)
Fixpoint in_order (src s : Z) (n : nat) : list (Z * Z) :=
  match n with
  | O => []
  | S n' => (src, s) :: in_order src (wrap32 (s + 1)) n'
  end.

(** A per-source state as [track] leaves it. *)
Definition SourceState_wf (s : SourceState) : Prop :=
  initialized s = true /\ is_u32 (next_expected s) /\ is_u64 (seen_window s).

(** A tracker all of whose entries are as [track] leaves them. *)
Definition tracker_wf (t : gmap Z SourceState) : Prop :=
  forall (i : Z) (s : SourceState), t !! i = Some s -> SourceState_wf s.

(** ** src/common/protocol.h: serialization *)

(** The [n] bytes that [memcpy] writes for the integer [z] on the
    little-endian host: the low byte first.  A negative [z] comes out in
    two's complement. *)
Fixpoint le_split (n : nat) (z : Z) : list byte :=
  match n with
  | O => []
  | S n' => byte_of_Z z :: le_split n' (z / 2 ^ 8)
  end.

(** The value of an [intN_t] read from its [w] bits. *)
Definition signed (w x : Z) : Z :=
  if x <? 2 ^ (w - 1) then x else x - 2 ^ w.

(** [serialize_header]: the 18 bytes of the packed struct. *)
Definition serialize_header (h : TelemetryHeader) : list byte :=
  le_split 1 (version h) ++ le_split 1 (msg_type h) ++ le_split 2 (hdr_src_id h)
  ++ le_split 4 (hdr_seq h) ++ le_split 8 (ts_ns h) ++ le_split 2 (payload_len h).

Record PlotPayload := mkPlotPayload {
  plot_id           : Z;
  pp_azimuth_mdeg   : Z;
  pp_elevation_mdeg : Z;
  pp_range_m        : Z;
  amplitude_db      : Z;
  doppler_mps       : Z;
  quality           : Z
}.

Record TrackPayload := mkTrackPayload {
  track_id          : Z;
  classification    : Z;
  threat_level      : Z;
  iff_status        : Z;
  tp_azimuth_mdeg   : Z;
  tp_elevation_mdeg : Z;
  tp_range_m        : Z;
  velocity_mps      : Z;
  rcs_dbsm          : Z;
  update_count      : Z
}.

Record HeartbeatPayload := mkHeartbeatPayload {
  subsystem_id : Z;
  state        : Z;
  cpu_pct      : Z;
  mem_pct      : Z;
  uptime_s     : Z;
  error_code   : Z
}.

Record EngagementPayload := mkEngagementPayload {
  weapon_id        : Z;
  mode             : Z;
  assigned_track   : Z;
  rounds_remaining : Z;
  barrel_temp_c    : Z;
  burst_count      : Z
}.

Definition serialize_plot (p : PlotPayload) : list byte :=
  le_split 4 (plot_id p) ++ le_split 4 (pp_azimuth_mdeg p)
  ++ le_split 4 (pp_elevation_mdeg p) ++ le_split 4 (pp_range_m p)
  ++ le_split 2 (amplitude_db p) ++ le_split 2 (doppler_mps p)
  ++ le_split 1 (quality p).

Definition deserialize_plot (buf : list byte) : PlotPayload :=
  {| plot_id           := le_combine (bytes_at buf 0 4);
     pp_azimuth_mdeg   := signed 32 (le_combine (bytes_at buf 4 4));
     pp_elevation_mdeg := signed 32 (le_combine (bytes_at buf 8 4));
     pp_range_m        := le_combine (bytes_at buf 12 4);
     amplitude_db      := signed 16 (le_combine (bytes_at buf 16 2));
     doppler_mps       := signed 16 (le_combine (bytes_at buf 18 2));
     quality           := le_combine (bytes_at buf 20 1) |}.

Definition serialize_track (t : TrackPayload) : list byte :=
  le_split 4 (track_id t) ++ le_split 1 (classification t)
  ++ le_split 1 (threat_level t) ++ le_split 1 (iff_status t)
  ++ le_split 4 (tp_azimuth_mdeg t) ++ le_split 4 (tp_elevation_mdeg t)
  ++ le_split 4 (tp_range_m t) ++ le_split 2 (velocity_mps t)
  ++ le_split 2 (rcs_dbsm t) ++ le_split 2 (update_count t).

Definition deserialize_track (buf : list byte) : TrackPayload :=
  {| track_id          := le_combine (bytes_at buf 0 4);
     classification    := le_combine (bytes_at buf 4 1);
     threat_level      := le_combine (bytes_at buf 5 1);
     iff_status        := le_combine (bytes_at buf 6 1);
     tp_azimuth_mdeg   := signed 32 (le_combine (bytes_at buf 7 4));
     tp_elevation_mdeg := signed 32 (le_combine (bytes_at buf 11 4));
     tp_range_m        := le_combine (bytes_at buf 15 4);
     velocity_mps      := signed 16 (le_combine (bytes_at buf 19 2));
     rcs_dbsm          := signed 16 (le_combine (bytes_at buf 21 2));
     update_count      := le_combine (bytes_at buf 23 2) |}.

Definition serialize_heartbeat (hb : HeartbeatPayload) : list byte :=
  le_split 2 (subsystem_id hb) ++ le_split 1 (state hb) ++ le_split 1 (cpu_pct hb)
  ++ le_split 1 (mem_pct hb) ++ le_split 4 (uptime_s hb) ++ le_split 2 (error_code hb).

Definition deserialize_heartbeat (buf : list byte) : HeartbeatPayload :=
  {| subsystem_id := le_combine (bytes_at buf 0 2);
     state        := le_combine (bytes_at buf 2 1);
     cpu_pct      := le_combine (bytes_at buf 3 1);
     mem_pct      := le_combine (bytes_at buf 4 1);
     uptime_s     := le_combine (bytes_at buf 5 4);
     error_code   := le_combine (bytes_at buf 9 2) |}.

Definition serialize_engagement (e : EngagementPayload) : list byte :=
  le_split 2 (weapon_id e) ++ le_split 1 (mode e) ++ le_split 4 (assigned_track e)
  ++ le_split 2 (rounds_remaining e) ++ le_split 2 (barrel_temp_c e)
  ++ le_split 2 (burst_count e).

Definition deserialize_engagement (buf : list byte) : EngagementPayload :=
  {| weapon_id        := le_combine (bytes_at buf 0 2);
     mode             := le_combine (bytes_at buf 2 1);
     assigned_track   := le_combine (bytes_at buf 3 4);
     rounds_remaining := le_combine (bytes_at buf 7 2);
     barrel_temp_c    := signed 16 (le_combine (bytes_at buf 9 2));
     burst_count      := le_combine (bytes_at buf 11 2) |}.

(** The values the members of the structs can hold. *)
Definition is_u8 (x : Z) : Prop := 0 <= x < 2 ^ 8.
Definition is_i16 (x : Z) : Prop := - 2 ^ 15 <= x < 2 ^ 15.
Definition is_i32 (x : Z) : Prop := - 2 ^ 31 <= x < 2 ^ 31.

Definition TelemetryHeader_wf (h : TelemetryHeader) : Prop :=
  is_u8 (version h) /\ is_u8 (msg_type h) /\ is_u16 (hdr_src_id h) /\
  is_u32 (hdr_seq h) /\ is_u64 (ts_ns h) /\ is_u16 (payload_len h).

Definition PlotPayload_wf (p : PlotPayload) : Prop :=
  is_u32 (plot_id p) /\ is_i32 (pp_azimuth_mdeg p) /\ is_i32 (pp_elevation_mdeg p) /\
  is_u32 (pp_range_m p) /\ is_i16 (amplitude_db p) /\ is_i16 (doppler_mps p) /\
  is_u8 (quality p).

Definition TrackPayload_wf (t : TrackPayload) : Prop :=
  is_u32 (track_id t) /\ is_u8 (classification t) /\ is_u8 (threat_level t) /\
  is_u8 (iff_status t) /\ is_i32 (tp_azimuth_mdeg t) /\ is_i32 (tp_elevation_mdeg t) /\
  is_u32 (tp_range_m t) /\ is_i16 (velocity_mps t) /\ is_i16 (rcs_dbsm t) /\
  is_u16 (update_count t).

Definition HeartbeatPayload_wf (hb : HeartbeatPayload) : Prop :=
  is_u16 (subsystem_id hb) /\ is_u8 (state hb) /\ is_u8 (cpu_pct hb) /\
  is_u8 (mem_pct hb) /\ is_u32 (uptime_s hb) /\ is_u16 (error_code hb).

Definition EngagementPayload_wf (e : EngagementPayload) : Prop :=
  is_u16 (weapon_id e) /\ is_u8 (mode e) /\ is_u32 (assigned_track e) /\
  is_u16 (rounds_remaining e) /\ is_i16 (barrel_temp_c e) /\ is_u16 (burst_count e).

(** ** src/sensor_sim/measurement_generator.{h,cpp} *)

(** The members of [MeasurementGenerator] that [build_frame] and
    [generate_engagement] read or write. *)
Record MeasurementGenerator := mkMeasurementGenerator {
  src_id_ : Z;
  seq_    : Z
}.

(** [MeasurementGenerator::build_frame].  The callers pass the bytes of a
    payload struct and its size, so [payload_len] is the length of
    [payload]. *)
Definition build_frame (g : MeasurementGenerator) (type : Z) (payload : list byte)
    (timestamp_ns : Z) : list byte * MeasurementGenerator :=
  let hdr := {| version := PROTOCOL_VERSION;
                msg_type := wrap8 type;
                hdr_src_id := src_id_ g;
                hdr_seq := seq_ g;
                ts_ns := timestamp_ns;
                payload_len := Z.of_nat (length payload) |} in
  (serialize_header hdr ++ payload,
   {| src_id_ := src_id_ g; seq_ := wrap32 (seq_ g + 1) |}).

(** [MeasurementGenerator::generate_engagement]. *)
Definition generate_engagement (g : MeasurementGenerator)
    (weapon mode_ track rounds barrel_temp bursts timestamp_ns : Z)
  : list byte * MeasurementGenerator :=
  let ep := {| weapon_id := weapon; mode := wrap8 mode_; assigned_track := track;
               rounds_remaining := rounds; barrel_temp_c := barrel_temp;
               burst_count := bursts |} in
  build_frame g MsgType.ENGAGEMENT (serialize_engagement ep) timestamp_ns.

(** One payload of each kind, with negative values in the signed members. *)
Definition plot1 : PlotPayload := mkPlotPayload 1 (-1500) 2000 30000 (-12) 7 80.
Definition track1 : TrackPayload := mkTrackPayload 42 5 3 2 (-1) 45000 1000 (-300) 50 9.
Definition heartbeat1 : HeartbeatPayload := mkHeartbeatPayload 3 0 50 60 100 0.
Definition engagement1 : EngagementPayload := mkEngagementPayload 1 2 42 100 (-5) 3.

(** A generator of source 7 whose sequence counter is about to wrap. *)
Definition generator7 : MeasurementGenerator := mkMeasurementGenerator 7 (2 ^ 32 - 1).

(** ** Further vocabulary: statistics aggregator *)

(** One call of a mutator of [StatsManager]. *)
Inductive StatsOp :=
  | OpRx (i seq ts : Z)
  | OpMalformed (i : Z)
  | OpGap (i gap : Z)
  | OpReorder (i : Z)
  | OpDuplicate (i : Z)
  | OpCrcFail (i : Z).

Definition stats_apply (st : StatsManager) (op : StatsOp) : StatsManager :=
  match op with
  | OpRx i seq ts => record_rx st i seq ts
  | OpMalformed i => record_malformed st i
  | OpGap i gap => record_gap st i gap
  | OpReorder i => record_reorder st i
  | OpDuplicate i => record_duplicate st i
  | OpCrcFail i => record_crc_fail st i
  end.

Definition op_source (op : StatsOp) : Z :=
  match op with
  | OpRx i _ _ | OpMalformed i | OpGap i _ | OpReorder i | OpDuplicate i | OpCrcFail i => i
  end.

(** Any history of mutator calls on an aggregator. *)
Definition stats_run (st : StatsManager) (ops : list StatsOp) : StatsManager :=
  fold_left stats_apply ops st.

(** The sum of one counter over the per-source entries. *)
Definition sum_sources (f : SourceStats -> Z) (m : gmap Z SourceStats) : Z :=
  map_fold (fun _ s acc => f s + acc) 0 m.

Definition health_rank (h : HealthState.t) : Z :=
  match h with
  | HealthState.OK => 0
  | HealthState.DEGRADED => 1
  | HealthState.ERROR => 2
  end.

(** The global counters are [uint64_t] values with room for one more
    increment (a gap is a [uint32_t]). *)
Definition stats_headroom (st : StatsManager) : Prop :=
  let g := global_ st in
  0 <= rx_total g < 2 ^ 64 - 2 ^ 32 /\ 0 <= malformed_total g < 2 ^ 64 - 2 ^ 32 /\
  0 <= gap_total g < 2 ^ 64 - 2 ^ 32 /\ 0 <= reorder_total g < 2 ^ 64 - 2 ^ 32 /\
  0 <= duplicate_total g < 2 ^ 64 - 2 ^ 32 /\ 0 <= crc_fail_total g < 2 ^ 64 - 2 ^ 32.

Definition op_gap_u32 (op : StatsOp) : Prop :=
  match op with
  | OpGap _ gap => is_u32 gap
  | _ => True
  end.

(** An entry as the mutators leave it under the key [i]. *)
Definition SourceStats_wf (i : Z) (s : SourceStats) : Prop :=
  src_id s = i /\ is_u64 (rx_count s) /\ is_u64 (malformed s) /\ is_u64 (gaps s) /\
  is_u64 (reorders s) /\ is_u64 (duplicates s).

(** ** Generator and gateway together *)

(** The generator builds one frame per payload, with the timestamp [ts],
    and the gateway processes each as it arrives, at the receive time that
    comes with the payload. *)
Fixpoint generate_and_process (h0 : TelemetryHeader) (g : MeasurementGenerator)
    (gw : Gateway) (type ts : Z) (items : list (list byte * Z))
  : MeasurementGenerator * Gateway :=
  match items with
  | [] => (g, gw)
  | (payload, rx) :: rest =>
      let '(frame, g1) := build_frame g type payload ts in
      generate_and_process h0 g1 (process_frame h0 gw frame rx) type ts rest
  end.

(** A gateway with the CRC policy off, and three payloads with their
    receive times. *)
Definition gateway_nocrc : Gateway :=
  mkGateway false false SequenceTracker_new StatsManager_new false [] [].

Definition three_items : list (list byte * Z) :=
  [(serialize_engagement engagement1, 100); (serialize_heartbeat heartbeat1, 200); ([], 300)].

(** ** Further vocabulary: fault injector *)

(** [k] increments of a [uint32_t] counter. *)
Definition bump (k : nat) (x : Z) : Z := Nat.iter k (fun y => wrap32 (y + 1)) x.

(** [b] is [a] but for at most one byte. *)
Definition one_byte_flipped (a b : list byte) : Prop :=
  length b = length a /\ exists i : nat, forall j : nat, j <> i -> b !! j = a !! j.

Section FaultInjectorStages.

Context `{StdRandom}.

(** The four stages of [apply], each with the test that guards it. *)
Definition stage_corrupt (cfg : FaultConfig) (frames : list (list byte)) (e : Env)
  : list (list byte) * Env :=
  if double_lt double_zero (corrupt_pct cfg)
  then corrupt_frames (corrupt_pct cfg) frames e
  else (frames, e).

Definition stage_duplicate (cfg : FaultConfig) (frames : list (list byte)) (e : Env)
  : list (list byte) * Env :=
  if double_lt double_zero (duplicate_pct cfg) then
    let '(extras, e') := pick_extras (duplicate_pct cfg) frames e in
    let '(fs, g) := insert_extras extras frames (fst e') in
    (fs, (g, snd e'))
  else (frames, e).

Definition stage_loss (cfg : FaultConfig) (frames : list (list byte)) (e : Env)
  : list (list byte) * Env :=
  if double_lt double_zero (loss_pct cfg)
  then drop_frames (loss_pct cfg) frames e
  else (frames, e).

Definition stage_reorder (cfg : FaultConfig) (frames : list (list byte)) (e : Env)
  : list (list byte) * Env :=
  if double_lt double_zero (reorder_pct cfg) && (2 <=? length frames)%nat
  then reorder_frames (reorder_pct cfg) frames e
  else (frames, e).

End FaultInjectorStages.

(** Two more configurations for the engine above: no fault at all, and loss
    and reordering only. *)
Definition no_faults : @FaultConfig lcg_random := @mkFaultConfig lcg_random 0 0 0 0.
Definition loss_reorder : @FaultConfig lcg_random := @mkFaultConfig lcg_random 30 50 0 0.

(** The global counters agree with the per-source sums modulo 2^64, and
    are 64-bit values. *)
Definition stats_balanced (st : StatsManager) : Prop :=
  let g := global_ st in
  let m := sources_ st in
  (is_u64 (rx_total g) /\ is_u64 (malformed_total g) /\ is_u64 (gap_total g) /\
   is_u64 (reorder_total g) /\ is_u64 (duplicate_total g) /\ is_u64 (crc_fail_total g)) /\
  (rx_total g - sum_sources rx_count m) mod 2 ^ 64 = 0 /\
  (gap_total g - sum_sources gaps m) mod 2 ^ 64 = 0 /\
  (reorder_total g - sum_sources reorders m) mod 2 ^ 64 = 0 /\
  (duplicate_total g - sum_sources duplicates m) mod 2 ^ 64 = 0 /\
  (malformed_total g + crc_fail_total g - sum_sources malformed m) mod 2 ^ 64 = 0.

(** The members a step of [process_frame] never writes. *)
Definition same_config (a b : Gateway) : Prop :=
  crc_enabled a = crc_enabled b /\ record_enabled a = record_enabled b /\
  recorder_open a = recorder_open b.

(** [b] has the events of [a] and at most [n] more. *)
Definition published_more (n : nat) (a b : Gateway) : Prop :=
  exists evs, published b = published a ++ evs /\ (length evs <= n)%nat.

(** What the loop leaves in the buffer: no complete frame. *)
Definition buffer_settled (b : list byte) : Prop :=
  match b with
  | b0 :: b1 :: b2 :: b3 :: _ =>
      read_frame_len b0 b1 b2 b3 <= MAX_FRAME_LEN /\
      buf_len b < 4 + read_frame_len b0 b1 b2 b3
  | _ => True
  end.

(** ** Frame recorder and replay source
    (gateway/frame_recorder.cpp, replay/replay_engine.cpp) *)

(** A file is the list of its bytes, and a closed stream is [None].  The
    integers are written and read with the host's layout, little-endian as
    for the header.  Writing to an open file is taken to succeed. *)
Record FrameRecorder := mkFrameRecorder {
  rec_file_    : option (list byte);
  frame_count_ : Z
}.

(** [FrameRecorder::open], when the file can be opened: it is truncated. *)
Definition FrameRecorder_open (r : FrameRecorder) : FrameRecorder :=
  mkFrameRecorder (Some []) 0.

(** The three writes of [FrameRecorder::record]: the timestamp, the length
    cast to [uint32_t], the frame. *)
Definition record_bytes (rx_timestamp_ns : Z) (frame : list byte) : list byte :=
  let len := wrap32 (buf_len frame) in
  le_split 8 rx_timestamp_ns ++ le_split 4 len ++ frame.

Definition FrameRecorder_record (r : FrameRecorder) (rx_timestamp_ns : Z)
    (frame : list byte) : bool * FrameRecorder :=
  match rec_file_ r with
  | None => (false, r)
  | Some f =>
      (true, mkFrameRecorder (Some (f ++ record_bytes rx_timestamp_ns frame))
                             (wrap64 (frame_count_ r + 1)))
  end.

(** Recording a run of frames, as the gateway does one by one. *)
Definition record_all (r : FrameRecorder) (recs : list (Z * list byte)) : FrameRecorder :=
  fold_left (fun r rec => snd (FrameRecorder_record r (fst rec) (snd rec))) recs r.

(** What a call of [receive] asks of the clock before it returns (lines
    60-78): nothing when [speed_multiplier_ > 0.0] is false; on the first
    frame of a paced source, to note the time as [replay_start_time_]; on a
    later frame, to sleep until [frame_offset_ns / speed_multiplier_] after
    [replay_start_time_], where [frame_offset_ns] is the [uint64_t]
    difference [ts_ns - first_frame_ts_ns_].  The clock and the division in
    [double] are not modelled: a paced call is modelled by what it returns
    once the wait is over, and the wait it made is part of the result. *)
Inductive Pacing :=
  | NoPacing
  | StartClock
  | WaitUntil (frame_offset_ns : Z).

(** [rep_file_] is the part of the open file not read yet.  [paced] is the
    test [speed_multiplier_ > 0.0]. *)
Record ReplayFrameSource := mkReplayFrameSource {
  rep_file_          : option (list byte);
  paced              : bool;
  frames_replayed_   : Z;
  done_              : bool;
  first_frame_       : bool;
  first_frame_ts_ns_ : Z
}.

(** [ReplayFrameSource::open] on a file with the given contents. *)
Definition ReplayFrameSource_open (s : ReplayFrameSource) (contents : list byte)
    : ReplayFrameSource :=
  mkReplayFrameSource (Some contents) (paced s) 0 false true (first_frame_ts_ns_ s).

(** [set_speed(multiplier)], by the outcome of [multiplier > 0.0]. *)
Definition set_speed (s : ReplayFrameSource) (positive : bool) : ReplayFrameSource :=
  mkReplayFrameSource (rep_file_ s) positive (frames_replayed_ s) (done_ s)
                      (first_frame_ s) (first_frame_ts_ns_ s).

(** A read that runs past the end of the file: the stream is no longer
    good, [receive] sets [done_] and returns false with an empty buffer,
    before it comes to the clock. *)
Definition read_failed (s : ReplayFrameSource)
    : bool * list byte * Pacing * ReplayFrameSource :=
  (false, [], NoPacing,
   mkReplayFrameSource (Some []) (paced s) (frames_replayed_ s) true
                       (first_frame_ s) (first_frame_ts_ns_ s)).

(** [ReplayFrameSource::receive]: the result, the buffer, what was asked
    of the clock, the new state. *)
Definition receive (s : ReplayFrameSource)
    : bool * list byte * Pacing * ReplayFrameSource :=
  match rep_file_ s with
  | None => (false, [], NoPacing, s)
  | Some f =>
      if done_ s then (false, [], NoPacing, s)
      else if buf_len f <? 8 then read_failed s
      else
        let ts_ns := le_combine (take 8 f) in
        let f := drop 8 f in
        if buf_len f <? 4 then read_failed s
        else
          let len := le_combine (take 4 f) in
          let f := drop 4 f in
          if (0 <? len) && (buf_len f <? len) then read_failed s
          else
            let buf := take (Z.to_nat len) f in
            let f := drop (Z.to_nat len) f in
            let pacing :=
              if paced s then
                if first_frame_ s then StartClock
                else WaitUntil (wrap64 (ts_ns - first_frame_ts_ns_ s))
              else NoPacing in
            let first := if paced s then false else first_frame_ s in
            let first_ts := if paced s && first_frame_ s
                            then ts_ns else first_frame_ts_ns_ s in
            let at_eof := match f with [] => true | _ => false end in
            (true, buf, pacing,
             mkReplayFrameSource (Some f) (paced s) (wrap64 (frames_replayed_ s + 1))
                                 at_eof first first_ts)
  end.

(** The loop of replay_main.cpp: [while (!replay.is_done())], leaving at
    the first [receive] that returns false; the frames it hands on, each
    with what its call asked of the clock. *)
Fixpoint replay_loop (fuel : nat) (s : ReplayFrameSource)
    : list (list byte * Pacing) * ReplayFrameSource :=
  match fuel with
  | O => ([], s)
  | S n =>
      if done_ s then ([], s)
      else
        let '(ok, buf, pacing, s') := receive s in
        if ok
        then let '(out, s'') := replay_loop n s' in ((buf, pacing) :: out, s'')
        else ([], s')
  end.

(** Every turn of the loop but the last reads at least twelve bytes, so
    the length of the file bounds the number of turns. *)
Definition replay_all (s : ReplayFrameSource)
    : list (list byte * Pacing) * ReplayFrameSource :=
  replay_loop (match rep_file_ s with Some f => S (length f) | None => 1%nat end) s.

(** The contents of a recording of [recs]. *)
Definition file_of (recs : list (Z * list byte)) : list byte :=
  concat (map (fun rec => record_bytes (fst rec) (snd rec)) recs).

Definition recorder0 : FrameRecorder := mkFrameRecorder None 0.
(** A replay source as constructed (speed 1.0), and after
    [set_speed(0.0)]. *)
Definition replay0 : ReplayFrameSource := mkReplayFrameSource None true 0 false true 0.
Definition replay_fast : ReplayFrameSource := set_speed replay0 false.
Definition two_records : list (Z * list byte) := [(1000, hello); (2000, [])].

(** ** Further vocabulary: determinism of the fault injector *)

(** Two batches of the same shape: as many frames, of the same lengths. *)
Definition same_shape (a b : list (list byte)) : Prop :=
  Forall2 (fun x y => length x = length y) a b.

(** The claim that, of the calls made before, only their number matters:
    two injectors with the same configuration and seed, after as many
    calls each, give equal output and equal counters on equal input. *)
Definition call_count_determinism (R : StdRandom) : Prop :=
  forall (cfg : @FaultConfig R) (seed : Z)
         (history1 history2 : list (list (list byte))) (frames : list (list byte)),
    length history1 = length history2 ->
    let fi1 := snd (@apply_all R (@FaultInjector_new R cfg seed) history1) in
    let fi2 := snd (@apply_all R (@FaultInjector_new R cfg seed) history2) in
    fst (@apply R fi1 frames) = fst (@apply R fi2 frames) /\
    @last_stats_ R (snd (@apply R fi1 frames)) = @last_stats_ R (snd (@apply R fi2 frames)).

(** A batch of one frame, and a batch of the shape of [batch4] with other
    bytes. *)
Definition batch1 : list (list byte) := [[x01]].
Definition batch4_other : list (list byte) :=
  [[x09; x09]; [x08; x08]; [x07; x07]; [x06; x06]].

(** The claim that a source without entry cannot be told from a source
    that has an entry with every counter zero: [get_source_stats] returns
    the same for both. *)
Definition unknown_source_indistinguishable : Prop :=
  forall (ops1 ops2 : list StatsOp) (i : Z) (s : SourceStats),
    is_u16 i ->
    sources_ (stats_run StatsManager_new ops1) !! i = None ->
    sources_ (stats_run StatsManager_new ops2) !! i = Some s ->
    counters s = [0; 0; 0; 0; 0] ->
    get_source_stats (stats_run StatsManager_new ops2) i =
    get_source_stats (stats_run StatsManager_new ops1) i.

(** * Theorems *)

(** ** Sequence tracker: theorems *)

(** C1.  Feeding (1,0), (1,1), (1,2), (1,5), (1,3) to a freshly constructed
    tracker returns FIRST, OK, OK, GAP with gap_size 2, expected 3 and
    actual 5, then REORDER with expected 6 and actual 3. *)
Theorem track_gap_then_reorder :
  fst (track_all SequenceTracker_new [(1,0); (1,1); (1,2); (1,5); (1,3)]) =
  [ mkSeqEvent SeqResult.FIRST   1 0 0 0;
    mkSeqEvent SeqResult.OK      1 1 1 0;
    mkSeqEvent SeqResult.OK      1 2 2 0;
    mkSeqEvent SeqResult.GAP     1 3 5 2;
    mkSeqEvent SeqResult.REORDER 1 6 3 0 ].
Proof. vm_compute. reflexivity. Qed.


(** Nor is the first re-send always safe: a late packet marks a bit that the
    shift of the next OK moves onto the position of the first sequence
    number. *)
Example first_seq_first_resend_DUPLICATE :
  List.map result (fst (track_all SequenceTracker_new [(1,10); (1,8); (1,11); (1,10)])) =
    [SeqResult.FIRST; SeqResult.REORDER; SeqResult.OK; SeqResult.DUPLICATE].
Proof. vm_compute. reflexivity. Qed.

(** The state of a source after [track] is the state [track_state] left. *)
Lemma sources_at_track (t : gmap Z SourceState) (src seq : Z) :
  sources_at (snd (track t src seq)) src =
  snd (track_state (sources_at t src) src seq).
Proof.
  unfold track. destruct (track_state _ _ _) as [ev s'] eqn:E. simpl.
  unfold sources_at. by rewrite lookup_insert_eq.
Qed.

Lemma track_result (t : gmap Z SourceState) (src seq : Z) :
  fst (track t src seq) = fst (track_state (sources_at t src) src seq).
Proof. unfold track. by destruct (track_state _ _ _). Qed.

Lemma wrap32_small (x : Z) : is_u32 x -> wrap32 x = x.
Proof. intros H. apply Z.mod_small. exact H. Qed.

Lemma wrap64_small (x : Z) : is_u64 x -> wrap64 x = x.
Proof. intros H. apply Z.mod_small. exact H. Qed.

(** What [track_state] does to a source that is not initialised. *)
Lemma track_state_first (s : SourceState) (src seq : Z) :
  initialized s = false ->
  track_state s src seq =
  (mkSeqEvent SeqResult.FIRST src 0 seq 0,
   mkSourceState (wrap32 (seq + 1)) true bitset_reset).
Proof. intros H. unfold track_state. by rewrite H. Qed.

(** ** CRC engine: theorems *)

(** The table is the table [make_crc_entry] fills. *)
Lemma table_at_make_crc_entry (i : nat) :
  (i < 256)%nat -> table_at (Z.of_nat i) = make_crc_entry (Z.of_nat i).
Proof.
  intros H. unfold table_at. rewrite Nat2Z.id.
  do 256 (destruct i as [| i]; [vm_compute; reflexivity |]). lia.
Qed.

Lemma lnot32_involutive (x : Z) : lnot32 (lnot32 x) = x.
Proof.
  unfold lnot32. by rewrite Z.lxor_assoc, Z.lxor_nilpotent, Z.lxor_0_r.
Qed.

Lemma testbit_u32_high (x n : Z) : is_u32 x -> 32 <= n -> Z.testbit x n = false.
Proof.
  intros Hx Hn. rewrite <- (Z.mod_small x (2 ^ 32)) by exact Hx.
  apply Z.mod_pow2_bits_high. lia.
Qed.

(** A non-negative integer with no bit at or above 32 is a [uint32_t]. *)
Lemma is_u32_bits (x : Z) :
  0 <= x -> (forall n, 32 <= n -> Z.testbit x n = false) -> is_u32 x.
Proof.
  intros H0 Hb. split; [exact H0 |].
  destruct (Z.eq_dec x 0) as [-> | Hne]; [reflexivity |].
  apply Z.log2_lt_pow2; [lia |].
  destruct (Z.lt_ge_cases (Z.log2 x) 32) as [Hlt | Hge]; [exact Hlt |].
  specialize (Hb (Z.log2 x) Hge).
  rewrite Z.bit_log2 in Hb by lia. discriminate.
Qed.

Lemma lxor_u32 (a b : Z) : is_u32 a -> is_u32 b -> is_u32 (Z.lxor a b).
Proof.
  intros Ha Hb. apply is_u32_bits.
  - apply Z.lxor_nonneg. unfold is_u32 in *. lia.
  - intros n Hn. rewrite Z.lxor_spec.
    by rewrite (testbit_u32_high a n Ha Hn), (testbit_u32_high b n Hb Hn).
Qed.

(** On a [uint32_t], [lnot32] is the complement. *)
Lemma lnot32_complement (x : Z) : is_u32 x -> lnot32 x = 2 ^ 32 - 1 - x.
Proof.
  intros H. unfold lnot32. change 0xFFFFFFFF with (Z.ones 32).
  assert (Hl : Z.land x (Z.lxor x (Z.ones 32)) = 0).
  { apply Z.bits_inj'. intros n Hn.
    rewrite Z.land_spec, Z.lxor_spec, Z.bits_0.
    destruct (Z.lt_ge_cases n 32) as [Hlt | Hge].
    - rewrite Z.ones_spec_low by lia. by destruct (Z.testbit x n).
    - by rewrite (testbit_u32_high x n H Hge). }
  apply Z.add_nocarry_lxor in Hl.
  rewrite <- Z.lxor_assoc, Z.lxor_nilpotent, Z.lxor_0_l in Hl.
  change (Z.ones 32) with (2 ^ 32 - 1) in *. lia.
Qed.

Lemma table_at_u32 (idx : Z) : is_u32 (table_at idx).
Proof.
  unfold table_at.
  assert (H : Forall is_u32 table_entries).
  { unfold table_entries. repeat (constructor; [unfold is_u32; lia |]). constructor. }
  destruct (nth_in_or_default (Z.to_nat idx) table_entries 0) as [Hin | ->].
  - rewrite Forall_forall in H. apply H. by apply list_elem_of_In.
  - unfold is_u32. lia.
Qed.

Lemma crc_step_u32 (c : Z) (b : byte) : is_u32 c -> is_u32 (crc_step c b).
Proof.
  intros Hc. unfold crc_step. apply lxor_u32; [| apply table_at_u32].
  unfold is_u32 in *. rewrite Z.shiftr_div_pow2 by lia. split.
  - apply Z.div_pos; lia.
  - apply Z.div_lt_upper_bound; lia.
Qed.

(** The model stays inside [uint32_t]. *)
Lemma crc32_update_u32 (c : Z) (data : list byte) :
  is_u32 c -> is_u32 (crc32_update c data).
Proof.
  intros Hc. unfold crc32_update.
  assert (Hn : forall x, is_u32 x -> is_u32 (lnot32 x)).
  { intros x Hx. rewrite lnot32_complement by exact Hx. unfold is_u32 in *. lia. }
  apply Hn. generalize (lnot32 c) (Hn c Hc). clear c Hc Hn.
  induction data as [| b data IH]; intros c Hc; simpl; [exact Hc |].
  apply IH, crc_step_u32, Hc.
Qed.

Lemma crc32_u32 (data : list byte) : is_u32 (crc32 data).
Proof. apply crc32_update_u32. unfold is_u32. lia. Qed.

(** Feeding the bytes in two chunks is feeding them in one. *)
Lemma crc32_update_app (c : Z) (a b : list byte) :
  crc32_update (crc32_update c a) b = crc32_update c (a ++ b).
Proof.
  unfold crc32_update. by rewrite lnot32_involutive, fold_left_app.
Qed.

(** C4.  For all byte sequences [a] and [b],
    [crc32_update (crc32_update 0 a) b] is [crc32 (a ++ b)]; the CRC of the
    empty input is 0x00000000 and the CRC of the ASCII bytes of 123456789
    is 0xCBF43926. *)
Theorem crc32_update_composes :
  (forall a b : list byte, crc32_update (crc32_update 0 a) b = crc32 (a ++ b)) /\
  crc32 [] = 0x00000000 /\
  crc32 [x31; x32; x33; x34; x35; x36; x37; x38; x39] = 0xCBF43926.
Proof.
  split; [| split].
  - intros a b. apply crc32_update_app.
  - vm_compute. reflexivity.
  - vm_compute. reflexivity.
Qed.

(** ** Frame parser: theorems *)

Lemma byte_val_x00 : byte_val x00 = 0.
Proof. reflexivity. Qed.

(** The bytes from [off] on: none, or the byte at [off] and the rest. *)
Lemma drop_nth_cases (buf : list byte) (off : nat) :
  (drop off buf = [] /\ nth off buf x00 = x00 /\ drop (S off) buf = []) \/
  drop off buf = nth off buf x00 :: drop (S off) buf.
Proof.
  revert off. induction buf as [| b buf IH]; intros off.
  - left. by destruct off.
  - destruct off as [| off]; simpl.
    + right. by rewrite drop_0.
    + apply IH.
Qed.

(** Reading [S n] bytes at [off]: the byte at [off], then [n] bytes at
    [S off].  A byte past the end reads as 0 on both sides. *)
Lemma le_combine_bytes_at_S (buf : list byte) (off n : nat) :
  le_combine (bytes_at buf off (S n)) =
  wire_byte buf off + 256 * le_combine (bytes_at buf (S off) n).
Proof.
  unfold bytes_at, wire_byte.
  destruct (drop_nth_cases buf off) as [(E1 & E2 & E3) | E].
  - rewrite E1, E2, E3. rewrite take_nil. simpl. by destruct n.
  - rewrite E. reflexivity.
Qed.

Lemma le_combine_bytes_at_0 (buf : list byte) (off : nat) :
  le_combine (bytes_at buf off 0) = 0.
Proof. reflexivity. Qed.

Lemma deserialize_header_version (buf : list byte) :
  version (deserialize_header buf) = wire_byte buf 0.
Proof.
  simpl. rewrite le_combine_bytes_at_S, le_combine_bytes_at_0. lia.
Qed.

Lemma deserialize_header_msg_type (buf : list byte) :
  msg_type (deserialize_header buf) = wire_byte buf 1.
Proof.
  simpl. rewrite le_combine_bytes_at_S, le_combine_bytes_at_0. lia.
Qed.

Lemma deserialize_header_payload_len (buf : list byte) :
  payload_len (deserialize_header buf) = wire_payload_len buf.
Proof.
  simpl. rewrite !le_combine_bytes_at_S, le_combine_bytes_at_0.
  unfold wire_payload_len. lia.
Qed.

Lemma le_combine_crc (buf : list byte) (off : nat) :
  le_combine (bytes_at buf off 4) =
  wire_byte buf off + 256 * wire_byte buf (off + 1)
  + 65536 * wire_byte buf (off + 2) + 16777216 * wire_byte buf (off + 3).
Proof.
  rewrite !le_combine_bytes_at_S, le_combine_bytes_at_0.
  replace (S off) with (off + 1)%nat by lia.
  replace (S (off + 1)) with (off + 2)%nat by lia.
  replace (S (off + 2)) with (off + 3)%nat by lia.
  lia.
Qed.

(** C2.  For every buffer and every value of [crc_enabled], [parse_frame]
    returns the earliest failing check in the order TOO_SHORT, BAD_VERSION,
    BAD_MSG_TYPE, PAYLOAD_TOO_LONG, TRUNCATED, CRC_MISMATCH of the
    specification, and OK when no check fails. *)
Theorem parse_frame_error_order (buf : list byte) (crc_on : bool) (out : ParsedFrame) :
  fst (parse_frame buf crc_on out) = earliest_failure (spec_checks buf crc_on).
Proof.
  unfold parse_frame, spec_checks, earliest_failure.
  change FRAME_HEADER_SIZE with 18. change FRAME_CRC_SIZE with 4.
  change MAX_PAYLOAD_SIZE with 1024. change PROTOCOL_VERSION with 1.
  change MsgType.PLOT with 1. change MsgType.ENGAGEMENT with 4.
  cbn [header set_header set_payload_ptr set_has_crc set_crc crc].
  rewrite deserialize_header_version, deserialize_header_msg_type,
    deserialize_header_payload_len.
  destruct (buf_len buf <? 18) eqn:Hlen; [reflexivity |].
  destruct (wire_byte buf 0 =? 1) eqn:Hver; simpl; [| reflexivity].
  replace (negb ((1 <=? wire_byte buf 1) && (wire_byte buf 1 <=? 4)))
    with ((wire_byte buf 1 <? 1) || (4 <? wire_byte buf 1))
    by (rewrite negb_andb, <- !Z.ltb_antisym; reflexivity).
  destruct ((wire_byte buf 1 <? 1) || (4 <? wire_byte buf 1)) eqn:Hmt; [reflexivity |].
  destruct (1024 <? wire_payload_len buf) eqn:Hpl; [reflexivity |].
  destruct crc_on; simpl.
  - destruct (buf_len buf <? 18 + wire_payload_len buf + 4) eqn:Htr; [reflexivity |].
    change (Z.to_nat 4) with 4%nat. rewrite le_combine_crc.
    fold (wire_crc buf).
    destruct (crc32 (take (Z.to_nat (18 + wire_payload_len buf)) buf) =? wire_crc buf);
      reflexivity.
  - rewrite Z.add_0_r.
    destruct (buf_len buf <? 18 + wire_payload_len buf); reflexivity.
Qed.

Example parse_track_ok :
  parse_frame (track_frame x01) false (ParsedFrame_init (mkTelemetryHeader 0 0 0 0 0 0)) =
  (ParseError.OK,
   mkParsedFrame (mkTelemetryHeader 1 2 0x12 1 1000000 25) (Some 18) 0 false).
Proof. vm_compute. reflexivity. Qed.

Example parse_bad_version :
  fst (parse_frame (track_frame x63) false (ParsedFrame_init (mkTelemetryHeader 0 0 0 0 0 0)))
  = ParseError.BAD_VERSION.
Proof. vm_compute. reflexivity. Qed.

(** A buffer shorter than a header leaves the out-parameter as it was. *)
Lemma parse_frame_too_short (buf : list byte) (crc_on : bool) (out : ParsedFrame) :
  buf_len buf < FRAME_HEADER_SIZE ->
  parse_frame buf crc_on out = (ParseError.TOO_SHORT, out).
Proof.
  intros H. unfold parse_frame.
  destruct (buf_len buf <? FRAME_HEADER_SIZE) eqn:E; [reflexivity |].
  apply Z.ltb_ge in E. lia.
Qed.

(** C9.  When the buffer has at least 18 bytes, [parse_frame] stores the
    deserialized header in [out.header] before it validates anything: the
    result is never TOO_SHORT, the header of the out-parameter is the
    deserialized header at every return, on BAD_VERSION, BAD_MSG_TYPE,
    PAYLOAD_TOO_LONG and TRUNCATED the out-parameter is the caller's with
    that header, on CRC_MISMATCH the payload pointer, the CRC flag and the
    stored CRC are written too; so on an error return the out-parameter is
    changed whenever its header was not already the deserialized one. *)
Theorem parse_frame_overwrites_header
    (buf : list byte) (crc_on : bool) (out : ParsedFrame) :
  FRAME_HEADER_SIZE <= buf_len buf ->
  let err := fst (parse_frame buf crc_on out) in
  let out' := snd (parse_frame buf crc_on out) in
  err <> ParseError.TOO_SHORT /\
  header out' = deserialize_header buf /\
  (err = ParseError.BAD_VERSION \/ err = ParseError.BAD_MSG_TYPE \/
   err = ParseError.PAYLOAD_TOO_LONG \/ err = ParseError.TRUNCATED ->
   out' = set_header out (deserialize_header buf)) /\
  (err = ParseError.CRC_MISMATCH ->
   payload_ptr out' = Some FRAME_HEADER_SIZE /\ has_crc out' = true /\
   crc out' = le_combine (bytes_at buf
                (Z.to_nat (FRAME_HEADER_SIZE + payload_len (deserialize_header buf))) 4)) /\
  (err <> ParseError.OK -> header out <> deserialize_header buf -> out' <> out).
Proof.
  intros Hlen err out'.
  assert (Hhdr : header out' = deserialize_header buf).
  { unfold out', parse_frame.
    destruct (buf_len buf <? FRAME_HEADER_SIZE) eqn:E; [apply Z.ltb_lt in E; lia |].
    repeat match goal with
           | |- context [if ?c then _ else _] => destruct c
           end; reflexivity. }
  split; [| split; [exact Hhdr | split; [| split]]].
  - unfold err, parse_frame.
    destruct (buf_len buf <? FRAME_HEADER_SIZE) eqn:E; [apply Z.ltb_lt in E; lia |].
    repeat match goal with
           | |- context [if ?c then _ else _] => destruct c
           end; discriminate.
  - unfold err, out', parse_frame.
    destruct (buf_len buf <? FRAME_HEADER_SIZE) eqn:E; [apply Z.ltb_lt in E; lia |].
    repeat match goal with
           | |- context [if ?c then _ else _] => destruct c
           end; simpl; intros [H | [H | [H | H]]]; try discriminate H; reflexivity.
  - unfold err, out', parse_frame.
    destruct (buf_len buf <? FRAME_HEADER_SIZE) eqn:E; [apply Z.ltb_lt in E; lia |].
    repeat match goal with
           | |- context [if ?c then _ else _] => destruct c
           end; simpl; intros H; try discriminate H; repeat split; reflexivity.
  - intros _ Hne Heq. apply Hne. rewrite <- Heq. exact Hhdr.
Qed.

Lemma parse_frame_overwrites_header_witness :
  FRAME_HEADER_SIZE <= buf_len (track_frame x63) /\
  let buf := track_frame x63 in
  let out := ParsedFrame_init (mkTelemetryHeader 0 0 0 0 0 0) in
  let err := fst (parse_frame buf true out) in
  let out' := snd (parse_frame buf true out) in
  err <> ParseError.TOO_SHORT /\
  header out' = deserialize_header buf /\
  (err = ParseError.BAD_VERSION \/ err = ParseError.BAD_MSG_TYPE \/
   err = ParseError.PAYLOAD_TOO_LONG \/ err = ParseError.TRUNCATED ->
   out' = set_header out (deserialize_header buf)) /\
  (err = ParseError.CRC_MISMATCH ->
   payload_ptr out' = Some FRAME_HEADER_SIZE /\ has_crc out' = true /\
   crc out' = le_combine (bytes_at buf
                (Z.to_nat (FRAME_HEADER_SIZE + payload_len (deserialize_header buf))) 4)) /\
  (err <> ParseError.OK -> header out <> deserialize_header buf -> out' <> out).
Proof.
  assert (Hlen : FRAME_HEADER_SIZE <= buf_len (track_frame x63))
    by (vm_compute; discriminate).
  split; [exact Hlen |].
  exact (parse_frame_overwrites_header (track_frame x63) true
           (ParsedFrame_init (mkTelemetryHeader 0 0 0 0 0 0)) Hlen).
Defined.

(** At that buffer the call fails and the out-parameter is not what the
    caller passed. *)
Example parse_bad_version_mutates :
  let out := ParsedFrame_init (mkTelemetryHeader 0 0 0 0 0 0) in
  parse_frame (track_frame x63) true out =
  (ParseError.BAD_VERSION,
   mkParsedFrame (mkTelemetryHeader 99 2 0x12 1 1000000 25) None 0 false).
Proof. vm_compute. reflexivity. Qed.

(** ** Statistics aggregator: theorems *)

Lemma wrap64_incr (x : Z) : 0 <= x < 2 ^ 64 - 1 -> wrap64 (x + 1) = x + 1.
Proof. intros H. apply wrap64_small. unfold is_u64. lia. Qed.

Lemma wrap64_incr_twice (x : Z) : wrap64 (wrap64 (x + 1) + 1) = wrap64 (x + 2).
Proof.
  unfold wrap64. rewrite Zplus_mod_idemp_l. f_equal. lia.
Qed.

(** What [get_source_stats] reads is what [get_or_create_source] finds,
    but for the [src_id] of an entry that is not there. *)
Lemma get_or_create_source_fields (m : gmap Z SourceStats) (i : Z) :
  let s := get_or_create_source m i in
  let r := match m !! i with None => SourceStats_default | Some x => x end in
  rx_count s = rx_count r /\ malformed s = malformed r /\ gaps s = gaps r /\
  reorders s = reorders r /\ duplicates s = duplicates r /\
  last_seq s = last_seq r /\ last_ts_ns s = last_ts_ns r.
Proof. unfold get_or_create_source. destruct (m !! i); simpl; repeat split. Qed.

Lemma update_source_lookup (st : StatsManager) (g : GlobalStats) (i : Z)
    (f : SourceStats -> SourceStats) :
  sources_ (update_source st g i f) !! i = Some (f (get_or_create_source (sources_ st) i)).
Proof. unfold update_source. simpl. apply lookup_insert_eq. Qed.

Lemma update_source_lookup_ne (st : StatsManager) (g : GlobalStats) (i j : Z)
    (f : SourceStats -> SourceStats) :
  i <> j -> sources_ (update_source st g i f) !! j = sources_ st !! j.
Proof. intros H. unfold update_source. simpl. by apply lookup_insert_ne. Qed.

(** C7.  [record_crc_fail(src_id)] increments the global [crc_fail_total]
    by 1 and the [malformed] counter of the entry of [src_id] by 1, creating
    the entry (with its [src_id] set and the other counters 0) when it is
    absent; the increments are those of [uint64_t], so modulo 2^64.  The
    other global counters, the other members of the entry and the other
    entries stay as they were. *)
Theorem record_crc_fail_increments (st : StatsManager) (i : Z) :
  let st' := record_crc_fail st i in
  let old := get_source_stats st i in
  crc_fail_total (global_ st') = wrap64 (crc_fail_total (global_ st) + 1) /\
  rx_total (global_ st') = rx_total (global_ st) /\
  malformed_total (global_ st') = malformed_total (global_ st) /\
  gap_total (global_ st') = gap_total (global_ st) /\
  reorder_total (global_ st') = reorder_total (global_ st) /\
  duplicate_total (global_ st') = duplicate_total (global_ st) /\
  (exists s',
     sources_ st' !! i = Some s' /\
     malformed s' = wrap64 (malformed old + 1) /\
     src_id s' = (if decide (sources_ st !! i = None) then i else src_id old) /\
     rx_count s' = rx_count old /\ gaps s' = gaps old /\
     reorders s' = reorders old /\ duplicates s' = duplicates old /\
     last_seq s' = last_seq old /\ last_ts_ns s' = last_ts_ns old) /\
  (forall j, j <> i -> sources_ st' !! j = sources_ st !! j).
Proof.
  intros st' old. unfold st', record_crc_fail. simpl.
  do 6 (split; [reflexivity |]). split.
  - eexists. split; [apply lookup_insert_eq |].
    unfold old, get_source_stats, get_or_create_source.
    destruct (sources_ st !! i) eqn:E; case_decide; try congruence;
      simpl; repeat split.
  - intros j Hj. by apply lookup_insert_ne.
Qed.

(** Below the maximum of [uint64_t] the increments are exact. *)
Lemma record_crc_fail_exact (st : StatsManager) (i : Z) :
  0 <= crc_fail_total (global_ st) < 2 ^ 64 - 1 ->
  0 <= malformed (get_source_stats st i) < 2 ^ 64 - 1 ->
  crc_fail_total (global_ (record_crc_fail st i)) = crc_fail_total (global_ st) + 1 /\
  malformed (get_source_stats (record_crc_fail st i) i) =
    malformed (get_source_stats st i) + 1.
Proof.
  intros Hg Hs. split.
  - simpl. by apply wrap64_incr.
  - unfold get_source_stats at 1. unfold record_crc_fail.
    rewrite update_source_lookup. simpl.
    rewrite <- (wrap64_incr _ Hs). f_equal. f_equal.
    unfold get_source_stats, get_or_create_source.
    by destruct (sources_ st !! i).
Qed.

Example record_crc_fail_creates :
  sources_ (record_crc_fail StatsManager_new 9) !! 9 = Some (mkSourceStats 9 0 1 0 0 0 0 0)
  /\ global_ (record_crc_fail StatsManager_new 9) = mkGlobalStats 0 0 0 0 0 1.
Proof. split; vm_compute; reflexivity. Qed.

(** ** Gateway orchestrator: theorems *)

Lemma ParseError_eqb_eq (a b : ParseError.t) : ParseError.eqb a b = true <-> a = b.
Proof. destruct a, b; simpl; split; intros H; try reflexivity; discriminate H. Qed.

Lemma stats_publish_event (gw : Gateway) (i : EventId) (c : EventCategory.t)
    (s : Severity.t) :
  stats_ (publish_event gw i c s) = stats_ gw /\
  tracker_ (publish_event gw i c s) = tracker_ gw.
Proof. split; reflexivity. Qed.

Lemma record_if_enabled_keeps (gw : Gateway) (frame : list byte) (ts : Z) :
  crc_enabled (record_if_enabled gw frame ts) = crc_enabled gw /\
  stats_ (record_if_enabled gw frame ts) = stats_ gw /\
  tracker_ (record_if_enabled gw frame ts) = tracker_ gw.
Proof.
  unfold record_if_enabled.
  destruct (record_enabled gw && recorder_open gw); repeat split.
Qed.

(** The statistics and the tracker after a frame that does not parse. *)
Lemma process_frame_failure_stats (h0 : TelemetryHeader) (gw : Gateway)
    (frame : list byte) (ts : Z) :
  let err := fst (parse_frame frame (crc_enabled gw) (ParsedFrame_init h0)) in
  err <> ParseError.OK ->
  stats_ (process_frame h0 gw frame ts) =
    (if ParseError.eqb err ParseError.CRC_MISMATCH
     then record_crc_fail (record_malformed (stats_ gw) 0) 0
     else record_malformed (stats_ gw) 0) /\
  tracker_ (process_frame h0 gw frame ts) = tracker_ gw.
Proof.
  intros err Herr. unfold process_frame.
  destruct (record_if_enabled_keeps gw frame ts) as (Hc & Hs & Ht).
  rewrite Hc. fold err.
  destruct (parse_frame frame (crc_enabled gw) (ParsedFrame_init h0)) as [e p] eqn:Ep.
  simpl in err. subst err.
  destruct (ParseError.eqb e ParseError.OK) eqn:Eok.
  { apply ParseError_eqb_eq in Eok. contradiction. }
  simpl. unfold handle_parse_error.
  destruct (ParseError.eqb e ParseError.CRC_MISMATCH); simpl;
    rewrite ?Hs, ?Ht; split; reflexivity.
Qed.

Lemma malformed_after_record_malformed (st : StatsManager) :
  malformed (get_source_stats (record_malformed st 0) 0) =
  wrap64 (malformed (get_source_stats st 0) + 1).
Proof.
  unfold get_source_stats at 1. unfold record_malformed.
  rewrite update_source_lookup. simpl.
  unfold get_source_stats, get_or_create_source.
  by destruct (sources_ st !! 0).
Qed.

Lemma malformed_after_record_crc_fail (st : StatsManager) :
  malformed (get_source_stats (record_crc_fail st 0) 0) =
  wrap64 (malformed (get_source_stats st 0) + 1).
Proof.
  unfold get_source_stats at 1. unfold record_crc_fail.
  rewrite update_source_lookup. simpl.
  unfold get_source_stats, get_or_create_source.
  by destruct (sources_ st !! 0).
Qed.

(** C8.  For a buffer that fails to parse, [process_frame] records the
    failure against source id 0 whatever the src_id bytes of the buffer:
    the tracker and the entries of the other sources stay as they were and
    the global [malformed_total] goes up by 1.  On CRC_MISMATCH it calls
    [record_malformed(0)] and then [record_crc_fail(0)], so the [malformed]
    counter of source 0 goes up by 2 and the global [crc_fail_total] by 1;
    on the other errors the [malformed] counter of source 0 goes up by 1
    and [crc_fail_total] stays.  The counters are [uint64_t]. *)
Theorem process_frame_failure_source0 (h0 : TelemetryHeader) (gw : Gateway)
    (frame : list byte) (ts : Z) :
  let err := fst (parse_frame frame (crc_enabled gw) (ParsedFrame_init h0)) in
  err <> ParseError.OK ->
  let st := stats_ gw in
  let st' := stats_ (process_frame h0 gw frame ts) in
  tracker_ (process_frame h0 gw frame ts) = tracker_ gw /\
  (forall j, j <> 0 -> sources_ st' !! j = sources_ st !! j) /\
  is_Some (sources_ st' !! 0) /\
  malformed_total (global_ st') = wrap64 (malformed_total (global_ st) + 1) /\
  (err = ParseError.CRC_MISMATCH ->
     st' = record_crc_fail (record_malformed st 0) 0 /\
     crc_fail_total (global_ st') = wrap64 (crc_fail_total (global_ st) + 1) /\
     malformed (get_source_stats st' 0) = wrap64 (malformed (get_source_stats st 0) + 2)) /\
  (err <> ParseError.CRC_MISMATCH ->
     st' = record_malformed st 0 /\
     crc_fail_total (global_ st') = crc_fail_total (global_ st) /\
     malformed (get_source_stats st' 0) = wrap64 (malformed (get_source_stats st 0) + 1)).
Proof.
  intros err Herr st st'.
  destruct (process_frame_failure_stats h0 gw frame ts Herr) as [Hst Htr].
  fold err in Hst. fold st in Hst. fold st' in Hst.
  split; [exact Htr |].
  destruct (ParseError.eqb err ParseError.CRC_MISMATCH) eqn:Ecrc.
  - apply ParseError_eqb_eq in Ecrc. rewrite Hst.
    split; [| split; [| split; [| split]]].
    + intros j Hj. unfold record_crc_fail, record_malformed.
      by rewrite !update_source_lookup_ne.
    + unfold record_crc_fail. rewrite update_source_lookup. by eexists.
    + reflexivity.
    + intros _. split; [reflexivity | split; [reflexivity |]].
      rewrite malformed_after_record_crc_fail, malformed_after_record_malformed.
      apply wrap64_incr_twice.
    + intros Hne. contradiction.
  - assert (Hne : err <> ParseError.CRC_MISMATCH).
    { intros H. apply ParseError_eqb_eq in H. congruence. }
    rewrite Hst. split; [| split; [| split; [| split]]].
    + intros j Hj. unfold record_malformed. by rewrite update_source_lookup_ne.
    + unfold record_malformed. rewrite update_source_lookup. by eexists.
    + reflexivity.
    + intros H. contradiction.
    + intros _. split; [reflexivity | split; [reflexivity |]].
      apply malformed_after_record_malformed.
Qed.

Lemma process_frame_failure_source0_witness :
  fst (parse_frame crc_bad_frame (crc_enabled gateway0) (ParsedFrame_init header0))
    <> ParseError.OK /\
  let err := fst (parse_frame crc_bad_frame (crc_enabled gateway0)
                              (ParsedFrame_init header0)) in
  let st := stats_ gateway0 in
  let st' := stats_ (process_frame header0 gateway0 crc_bad_frame 5) in
  tracker_ (process_frame header0 gateway0 crc_bad_frame 5) = tracker_ gateway0 /\
  (forall j, j <> 0 -> sources_ st' !! j = sources_ st !! j) /\
  is_Some (sources_ st' !! 0) /\
  malformed_total (global_ st') = wrap64 (malformed_total (global_ st) + 1) /\
  (err = ParseError.CRC_MISMATCH ->
     st' = record_crc_fail (record_malformed st 0) 0 /\
     crc_fail_total (global_ st') = wrap64 (crc_fail_total (global_ st) + 1) /\
     malformed (get_source_stats st' 0) = wrap64 (malformed (get_source_stats st 0) + 2)) /\
  (err <> ParseError.CRC_MISMATCH ->
     st' = record_malformed st 0 /\
     crc_fail_total (global_ st') = crc_fail_total (global_ st) /\
     malformed (get_source_stats st' 0) = wrap64 (malformed (get_source_stats st 0) + 1)).
Proof.
  assert (H : fst (parse_frame crc_bad_frame (crc_enabled gateway0)
                               (ParsedFrame_init header0)) <> ParseError.OK)
    by (vm_compute; discriminate).
  split; [exact H |].
  exact (process_frame_failure_source0 header0 gateway0 crc_bad_frame 5 H).
Defined.

(** The frame of source 7 with a wrong CRC: counted twice against source 0,
    source 7 has no entry. *)
Example process_crc_bad_frame :
  fst (parse_frame crc_bad_frame true (ParsedFrame_init header0)) = ParseError.CRC_MISMATCH /\
  hdr_src_id (deserialize_header crc_bad_frame) = 7 /\
  let st' := stats_ (process_frame header0 gateway0 crc_bad_frame 5) in
  global_ st' = mkGlobalStats 0 1 0 0 0 1 /\
  sources_ st' !! 0 = Some (mkSourceStats 0 0 2 0 0 0 0 0) /\
  sources_ st' !! 7 = None /\
  published (process_frame header0 gateway0 crc_bad_frame 5) =
    [mkEventRecord EVT_CRC_FAIL EventCategory.NETWORK Severity.WARN].
Proof. repeat split; vm_compute; reflexivity. Qed.

(** ** Control-channel codec: theorems *)

Lemma byte_val_range (b : byte) : 0 <= byte_val b < 256.
Proof.
  unfold byte_val. pose proof (Byte.to_N_bounded b). lia.
Qed.

Lemma byte_val_of_Z (z : Z) : byte_val (byte_of_Z z) = wrap8 z.
Proof.
  unfold byte_of_Z, byte_val.
  assert (Hr : 0 <= wrap8 z < 256) by (unfold wrap8; apply Z.mod_pos_bound; lia).
  destruct (Byte.of_N (Z.to_N (wrap8 z))) as [b |] eqn:E.
  - apply Byte.to_of_N in E. rewrite E. lia.
  - apply Byte.of_N_None_iff in E. lia.
Qed.

Lemma byte_val_of_Z_land (y : Z) :
  byte_val (byte_of_Z (Z.land y 0xFF)) = Z.land y (Z.ones 8).
Proof.
  rewrite byte_val_of_Z. change 0xFF with (Z.ones 8).
  unfold wrap8. rewrite Z.land_ones by lia. apply Z.mod_mod. lia.
Qed.

(** One bit of one byte of the big-endian prefix, put back in place. *)
Lemma testbit_be_piece (n k i : Z) :
  0 <= k -> 0 <= i ->
  Z.testbit (Z.shiftl (Z.land (Z.shiftr n k) (Z.ones 8)) k) i =
  Z.testbit n i && (k <=? i) && (i <? k + 8).
Proof.
  intros Hk Hi. rewrite Z.shiftl_spec by lia.
  destruct (Z.leb_spec k i) as [Hle | Hlt].
  - rewrite Z.land_spec, Z.shiftr_spec by lia.
    replace (i - k + k) with i by lia.
    rewrite Z.testbit_ones_nonneg by lia.
    destruct (Z.ltb_spec (i - k) 8), (Z.ltb_spec i (k + 8)); try lia;
      by rewrite ?andb_true_r, ?andb_false_r.
  - rewrite Z.testbit_neg_r by lia. by rewrite andb_false_r.
Qed.

(** The length that [try_extract_frames] reads from the prefix that
    [encode] writes is the length that was written. *)
Lemma read_frame_len_encode (n : Z) :
  is_u32 n ->
  read_frame_len (byte_of_Z (Z.land (Z.shiftr n 24) 0xFF))
                 (byte_of_Z (Z.land (Z.shiftr n 16) 0xFF))
                 (byte_of_Z (Z.land (Z.shiftr n 8) 0xFF))
                 (byte_of_Z (Z.land n 0xFF)) = n.
Proof.
  intros Hn. unfold read_frame_len. rewrite !byte_val_of_Z_land.
  apply Z.bits_inj'. intros i Hi.
  rewrite !Z.lor_spec.
  rewrite !testbit_be_piece by lia.
  rewrite <- (Z.shiftl_0_r (Z.land n (Z.ones 8))).
  rewrite <- (Z.shiftr_0_r n) at 4.
  rewrite testbit_be_piece by lia.
  destruct (Z.lt_ge_cases i 32) as [Hlt | Hge].
  - destruct (Z.testbit n i); simpl; [| reflexivity].
    destruct (Z.leb_spec 24 i), (Z.ltb_spec i (24 + 8)), (Z.leb_spec 16 i),
      (Z.ltb_spec i (16 + 8)), (Z.leb_spec 8 i), (Z.ltb_spec i (8 + 8)),
      (Z.leb_spec 0 i), (Z.ltb_spec i (0 + 8)); simpl; try reflexivity; lia.
  - rewrite (testbit_u32_high n i Hn Hge). reflexivity.
Qed.

Lemma read_frame_len_nonneg (b0 b1 b2 b3 : byte) : 0 <= read_frame_len b0 b1 b2 b3.
Proof.
  unfold read_frame_len.
  pose proof (byte_val_range b0). pose proof (byte_val_range b1).
  pose proof (byte_val_range b2). pose proof (byte_val_range b3).
  repeat (apply Z.lor_nonneg; split); try apply Z.shiftl_nonneg; lia.
Qed.

Lemma length_encode (p : list byte) : length (encode p) = (4 + length p)%nat.
Proof. reflexivity. Qed.

Lemma ok_payload_u32 (p : list byte) :
  ok_payload p -> is_u32 (Z.of_nat (length p)).
Proof. unfold ok_payload, MAX_FRAME_LEN, is_u32. lia. Qed.

(** The fuel is enough: any two amounts of fuel that are at least the
    length of the buffer give the same decoder. *)
Lemma try_extract_frames_loop_fuel (n m : nat) (f : TcpFramer) :
  (length (buffer_ f) <= n)%nat -> (length (buffer_ f) <= m)%nat ->
  try_extract_frames_loop n f = try_extract_frames_loop m f.
Proof.
  revert m f. induction n as [| n IH]; intros m f Hn Hm.
  - destruct (buffer_ f) as [| b0 l] eqn:E; [| simpl in Hn; lia].
    destruct m; simpl; [reflexivity |]. by rewrite E.
  - destruct m as [| m].
    + destruct (buffer_ f) as [| b0 l] eqn:E; [| simpl in Hm; lia].
      simpl. by rewrite E.
    + simpl.
      destruct (buffer_ f) as [| b0 [| b1 [| b2 [| b3 rest]]]] eqn:E; try reflexivity.
      destruct (MAX_FRAME_LEN <? read_frame_len b0 b1 b2 b3) eqn:Emax; [reflexivity |].
      destruct (buf_len (b0 :: b1 :: b2 :: b3 :: rest)
                <? wrap32 (4 + read_frame_len b0 b1 b2 b3)) eqn:Elen; [reflexivity |].
      apply Z.ltb_ge in Emax. apply Z.ltb_ge in Elen.
      pose proof (read_frame_len_nonneg b0 b1 b2 b3) as H0.
      assert (Hw : wrap32 (4 + read_frame_len b0 b1 b2 b3) =
                   4 + read_frame_len b0 b1 b2 b3).
      { apply wrap32_small. unfold is_u32, MAX_FRAME_LEN in *. lia. }
      rewrite Hw in *.
      apply IH; simpl; rewrite length_drop; simpl in Hn, Hm; simpl; lia.
Qed.

Lemma try_extract_frames_fuel_enough (n : nat) (f : TcpFramer) :
  (length (buffer_ f) <= n)%nat ->
  try_extract_frames_loop n f = try_extract_frames f.
Proof.
  intros H. unfold try_extract_frames. by apply try_extract_frames_loop_fuel.
Qed.

(** A whole frame at the head of the buffer is moved to the ready queue. *)
Lemma try_extract_frames_frame (p rest : list byte) (r : list (list byte)) :
  ok_payload p ->
  try_extract_frames {| buffer_ := encode p ++ rest; ready_frames_ := r |} =
  try_extract_frames {| buffer_ := rest; ready_frames_ := r ++ [p] |}.
Proof.
  intros Hp. pose proof (ok_payload_u32 p Hp) as Hu.
  unfold try_extract_frames at 1.
  cbn [buffer_]. rewrite length_app, length_encode.
  change (4 + length p + length rest)%nat with (S (3 + length p + length rest)).
  cbn [try_extract_frames_loop buffer_ ready_frames_].
  unfold encode at 1. cbn [app].
  rewrite (wrap32_small _ Hu), (read_frame_len_encode _ Hu).
  unfold ok_payload in Hp.
  destruct (MAX_FRAME_LEN <? Z.of_nat (length p)) eqn:Emax;
    [apply Z.ltb_lt in Emax; lia |].
  assert (Hw : wrap32 (4 + Z.of_nat (length p)) = 4 + Z.of_nat (length p)).
  { apply wrap32_small. unfold is_u32, MAX_FRAME_LEN in *. lia. }
  rewrite Hw.
  match goal with
  | |- context [buf_len ?l <? _] =>
      destruct (buf_len l <? 4 + Z.of_nat (length p)) eqn:Elen
  end.
  { apply Z.ltb_lt in Elen. unfold buf_len in Elen. simpl in Elen.
    rewrite length_app in Elen. lia. }
  rewrite Nat2Z.id.
  replace (Z.to_nat (4 + Z.of_nat (length p))) with (4 + length p)%nat by lia.
  rewrite take_app_length. cbn [drop plus].
  rewrite (drop_app_length' (encode p) rest) by reflexivity.
  apply try_extract_frames_fuel_enough. simpl. lia.
Qed.

Lemma stream_cons (p : list byte) (ps : list (list byte)) :
  stream (p :: ps) = encode p ++ stream ps.
Proof. reflexivity. Qed.

(** So are the frames of a whole stream, in order. *)
Lemma try_extract_frames_stream (ps : list (list byte)) (rest : list byte)
    (r : list (list byte)) :
  Forall ok_payload ps ->
  try_extract_frames {| buffer_ := stream ps ++ rest; ready_frames_ := r |} =
  try_extract_frames {| buffer_ := rest; ready_frames_ := r ++ ps |}.
Proof.
  intros Hps. revert r. induction Hps as [| p ps Hp Hps IH]; intros r.
  - simpl. by rewrite app_nil_r.
  - rewrite stream_cons, <- app_assoc.
    rewrite try_extract_frames_frame by exact Hp.
    rewrite IH. by rewrite <- app_assoc.
Qed.

(** A proper prefix of a frame stays in the buffer. *)
Lemma try_extract_frames_partial (p b tail : list byte) (r : list (list byte)) :
  ok_payload p -> b ++ tail = encode p -> tail <> [] ->
  try_extract_frames {| buffer_ := b; ready_frames_ := r |} =
  {| buffer_ := b; ready_frames_ := r |}.
Proof.
  intros Hp Happ Htail. pose proof (ok_payload_u32 p Hp) as Hu.
  unfold try_extract_frames. cbn [buffer_].
  destruct b as [| b0 [| b1 [| b2 [| b3 rest]]]]; try reflexivity.
  unfold encode in Happ. rewrite (wrap32_small _ Hu) in Happ.
  simpl in Happ. injection Happ as -> -> -> -> Hrest.
  cbn [length try_extract_frames_loop buffer_ ready_frames_].
  rewrite (read_frame_len_encode _ Hu).
  unfold ok_payload in Hp.
  destruct (MAX_FRAME_LEN <? Z.of_nat (length p)) eqn:Emax;
    [apply Z.ltb_lt in Emax; lia |].
  assert (Hw : wrap32 (4 + Z.of_nat (length p)) = 4 + Z.of_nat (length p)).
  { apply wrap32_small. unfold is_u32, MAX_FRAME_LEN in *. lia. }
  rewrite Hw.
  match goal with
  | |- context [buf_len ?l <? _] =>
      destruct (buf_len l <? 4 + Z.of_nat (length p)) eqn:Elen
  end; [reflexivity |].
  apply Z.ltb_ge in Elen. unfold buf_len in Elen. simpl in Elen.
  assert (length p = length rest + length tail)%nat
    by (rewrite <- Hrest; apply length_app).
  destruct tail; [contradiction | simpl in *; lia].
Qed.

Lemma try_extract_frames_empty (r : list (list byte)) :
  try_extract_frames {| buffer_ := []; ready_frames_ := r |} =
  {| buffer_ := []; ready_frames_ := r |}.
Proof. reflexivity. Qed.

(** A prefix [x] of a stream is some whole frames and a partial one. *)
Lemma stream_prefix_split (ps : list (list byte)) (x y : list byte) :
  x ++ y = stream ps ->
  exists (ps1 ps2 : list (list byte)) (b : list byte),
    ps = ps1 ++ ps2 /\ x = stream ps1 ++ b /\ b ++ y = stream ps2 /\
    partial_frame b ps2.
Proof.
  revert x. induction ps as [| p ps IH]; intros x Hxy.
  - apply app_eq_nil in Hxy as [-> ->]. by exists [], [], [].
  - rewrite stream_cons in Hxy.
    destruct (Nat.lt_ge_cases (length x) (length (encode p))) as [Hlt | Hge].
    + exists [], (p :: ps), x. by rewrite stream_cons.
    + assert (Hx : x = encode p ++ drop (length (encode p)) x).
      { rewrite <- (take_drop (length (encode p)) x) at 1. f_equal.
        rewrite <- (take_app_le x y) by exact Hge.
        rewrite Hxy. apply take_app_length. }
      assert (Hy : drop (length (encode p)) x ++ y = stream ps).
      { rewrite <- (drop_app_le x y) by exact Hge.
        rewrite Hxy. apply drop_app_length. }
      destruct (IH _ Hy) as (ps1 & ps2 & b & -> & Hd & Hb & Hpart).
      exists (p :: ps1), ps2, b. repeat split; try assumption.
      rewrite stream_cons, <- app_assoc, <- Hd. exact Hx.
Qed.

(** A partial frame stays in the buffer. *)
Lemma try_extract_frames_partial_frame (ps : list (list byte)) (b y : list byte)
    (r : list (list byte)) :
  Forall ok_payload ps -> b ++ y = stream ps -> partial_frame b ps ->
  try_extract_frames {| buffer_ := b; ready_frames_ := r |} =
  {| buffer_ := b; ready_frames_ := r |}.
Proof.
  intros Hps Hby Hpart. destruct ps as [| p ps]; unfold partial_frame in Hpart.
  - subst b. apply try_extract_frames_empty.
  - apply Forall_cons in Hps as [Hp _]. rewrite stream_cons in Hby.
    apply (try_extract_frames_partial p b (drop (length b) (encode p))); [exact Hp | |].
    + rewrite <- (take_drop (length b) (encode p)) at 2. f_equal.
      rewrite <- (take_app_le (encode p) (stream ps)) by lia.
      rewrite <- Hby. symmetry. apply take_app_length.
    + intros Hnil. apply (f_equal length) in Hnil.
      rewrite length_drop in Hnil. change (length []) with 0%nat in Hnil. lia.
Qed.

Lemma feed_all_cons (f : TcpFramer) (c : list byte) (chunks : list (list byte)) :
  feed_all f (c :: chunks) = feed_all (feed f c) chunks.
Proof. reflexivity. Qed.

(** The decoder after the rest of the chunks, from a decoder that holds the
    frames decoded so far and a partial frame. *)
Lemma feed_all_stream (chunks : list (list byte)) (ps : list (list byte))
    (b : list byte) (r : list (list byte)) :
  Forall ok_payload ps ->
  b ++ concat chunks = stream ps ->
  partial_frame b ps ->
  feed_all {| buffer_ := b; ready_frames_ := r |} chunks =
  {| buffer_ := []; ready_frames_ := r ++ ps |}.
Proof.
  revert ps b r. induction chunks as [| c chunks IH]; intros ps b r Hps Hb Hpart.
  - simpl in Hb. rewrite app_nil_r in Hb.
    destruct ps as [| p ps]; unfold partial_frame in Hpart; simpl.
    + subst b. by rewrite app_nil_r.
    + rewrite Hb, stream_cons, length_app, length_encode in Hpart. lia.
  - simpl in Hb. rewrite app_assoc in Hb.
    destruct (stream_prefix_split ps (b ++ c) (concat chunks) Hb)
      as (ps1 & ps2 & b' & -> & Hbc & Hb' & Hpart').
    apply Forall_app in Hps as [Hps1 Hps2].
    rewrite feed_all_cons. unfold feed. cbn [buffer_ ready_frames_]. rewrite Hbc.
    rewrite (try_extract_frames_stream ps1 b' r Hps1).
    rewrite (try_extract_frames_partial_frame ps2 b' (concat chunks) _ Hps2 Hb' Hpart').
    rewrite (IH ps2 b' (r ++ ps1) Hps2 Hb' Hpart').
    by rewrite app_assoc.
Qed.

Lemma pop_frames_all (ps : list (list byte)) :
  pop_frames (length ps) {| buffer_ := []; ready_frames_ := ps |} = (ps, TcpFramer_new).
Proof.
  induction ps as [| p ps IH]; [reflexivity |].
  cbn [length pop_frames]. unfold pop_frame. cbn [ready_frames_ buffer_].
  by rewrite IH.
Qed.

(** C5.  For every sequence of payloads of at most 10 MiB each and every
    way to cut the concatenation of their encodings into chunks, a new
    decoder fed the chunks in order holds exactly the payloads, in order,
    and nothing in its buffer: as many calls of [pop_frame] as there are
    payloads return them in order and leave no frame. *)
Theorem framer_chunking_roundtrip (ps chunks : list (list byte)) :
  Forall (fun p => Z.of_nat (length p) <= 10 * 1024 * 1024) ps ->
  concat chunks = concat (List.map encode ps) ->
  let f := feed_all TcpFramer_new chunks in
  ready_frames_ f = ps /\ buffer_ f = [] /\
  fst (pop_frames (length ps) f) = ps /\
  has_frame (snd (pop_frames (length ps) f)) = false.
Proof.
  intros Hps Hcat f.
  assert (Hf : f = {| buffer_ := []; ready_frames_ := ps |}).
  { unfold f, TcpFramer_new.
    rewrite (feed_all_stream chunks ps [] []); [reflexivity | exact Hps | exact Hcat |].
    destruct ps as [| p ps']; simpl; [reflexivity | lia]. }
  rewrite Hf, pop_frames_all. repeat split.
Qed.

Lemma framer_chunking_roundtrip_witness :
  Forall (fun p => Z.of_nat (length p) <= 10 * 1024 * 1024) three_payloads /\
  concat three_payloads_chunks = concat (List.map encode three_payloads) /\
  let f := feed_all TcpFramer_new three_payloads_chunks in
  ready_frames_ f = three_payloads /\ buffer_ f = [] /\
  fst (pop_frames (length three_payloads) f) = three_payloads /\
  has_frame (snd (pop_frames (length three_payloads) f)) = false.
Proof.
  assert (H1 : Forall (fun p => Z.of_nat (length p) <= 10 * 1024 * 1024) three_payloads).
  { repeat constructor; vm_compute; discriminate. }
  assert (H2 : concat three_payloads_chunks = concat (List.map encode three_payloads)).
  { vm_compute. reflexivity. }
  split; [exact H1 | split; [exact H2 |]].
  exact (framer_chunking_roundtrip three_payloads three_payloads_chunks H1 H2).
Defined.

(** The scenario of the specification: the encoding of HELLO is nine bytes,
    and fed three bytes at a time it gives one frame, after the third
    chunk. *)
Example framer_hello_fragmented :
  length (encode hello) = 9%nat /\
  let f1 := feed TcpFramer_new [x00; x00; x00] in
  let f2 := feed f1 [x05; x48; x45] in
  let f3 := feed f2 [x4c; x4c; x4f] in
  has_frame f1 = false /\ has_frame f2 = false /\ has_frame f3 = true /\
  pop_frame f3 = (hello, TcpFramer_new).
Proof. vm_compute. repeat split. Qed.

(** A length prefix above 10 MiB clears the buffer. *)
Example framer_desync :
  feed TcpFramer_new [x00; xa0; x00; x01; x48] = TcpFramer_new.
Proof. vm_compute. reflexivity. Qed.

(** ** Fault injector: theorems *)

Section FaultInjectorFacts.

Context `{StdRandom}.

(** [apply] reads the configuration and the engine of the injector and
    nothing else: the counters of the call before are overwritten. *)
Lemma apply_reads_config_rng (fi1 fi2 : FaultInjector)
    (frames : list (list byte)) :
  config_ fi1 = config_ fi2 -> rng_ fi1 = rng_ fi2 ->
  apply fi1 frames = apply fi2 frames.
Proof.
  destruct fi1 as [c1 g1 s1], fi2 as [c2 g2 s2]. simpl.
  intros -> ->. reflexivity.
Qed.

(** The configuration is never written. *)
Lemma apply_keeps_config (fi : FaultInjector) (frames : list (list byte)) :
  config_ (snd (apply fi frames)) = config_ fi.
Proof.
  unfold apply. destruct frames; [reflexivity |].
  repeat match goal with
         | |- context [let '(_, _) := ?x in _] => destruct x
         end.
  reflexivity.
Qed.

(** An empty batch draws nothing. *)
Lemma apply_empty (fi : FaultInjector) :
  apply fi [] = ([], mkFaultInjector (config_ fi) (rng_ fi) FaultStats_default).
Proof. reflexivity. Qed.

End FaultInjectorFacts.

(** The injector runs: two calls on the same batch, on that engine.  The
    second call starts from the engine the first one left, so it gives
    another batch. *)
Example apply_twice_lcg :
  fst (@apply_all lcg_random (@FaultInjector_new lcg_random all_faults 42) [batch4; batch4]) =
  [ ([[x03; x03]; [x03; x03]; [x04; x04]], mkFaultStats 2 1 1 1);
    ([[x04; x04]; [x01; x01]; [x02; x02]; [x02; x02]; [x04; x04]; [x03; x03]],
     mkFaultStats 1 2 3 0) ].
Proof. vm_compute. reflexivity. Qed.

(** With a loss percentage every draw is below, every frame is dropped
    (the scenario with 100% loss: four frames in, none out). *)
Example apply_loss_100_lcg :
  let r := @apply lcg_random
             (@FaultInjector_new lcg_random (@mkFaultConfig lcg_random 100 0 0 0) 42) batch4 in
  fst r = [] /\ dropped (@last_stats_ lcg_random (snd r)) = 4.
Proof. vm_compute. split; reflexivity. Qed.

(** * Further properties of the code *)

(** ** Sequence tracker *)

Lemma wrap32_u32 (x : Z) : is_u32 (wrap32 x).
Proof. unfold wrap32, is_u32. apply Z.mod_pos_bound. lia. Qed.

Lemma wrap64_u64 (x : Z) : is_u64 (wrap64 x).
Proof. unfold wrap64, is_u64. apply Z.mod_pos_bound. lia. Qed.

Lemma testbit_u64_high (x n : Z) : is_u64 x -> 64 <= n -> Z.testbit x n = false.
Proof.
  intros Hx Hn. rewrite <- (Z.mod_small x (2 ^ 64)) by exact Hx.
  apply Z.mod_pow2_bits_high. lia.
Qed.

Lemma is_u64_bits (x : Z) :
  0 <= x -> (forall n, 64 <= n -> Z.testbit x n = false) -> is_u64 x.
Proof.
  intros H0 Hb. split; [exact H0 |].
  destruct (Z.eq_dec x 0) as [-> | Hne]; [reflexivity |].
  apply Z.log2_lt_pow2; [lia |].
  destruct (Z.lt_ge_cases (Z.log2 x) 64) as [Hlt | Hge]; [exact Hlt |].
  specialize (Hb (Z.log2 x) Hge).
  rewrite Z.bit_log2 in Hb by lia. discriminate.
Qed.

Lemma bitset_set_test (w i : Z) : 0 <= i -> bitset_test (bitset_set w i) i = true.
Proof.
  intros Hi. unfold bitset_test, bitset_set.
  rewrite Z.lor_spec, Z.shiftl_spec, Z.sub_diag by lia.
  apply orb_true_r.
Qed.

Lemma bitset_set_u64 (w i : Z) : is_u64 w -> 0 <= i < 64 -> is_u64 (bitset_set w i).
Proof.
  intros Hw Hi. unfold bitset_set. apply is_u64_bits.
  - apply Z.lor_nonneg. split; [unfold is_u64 in Hw; lia |].
    apply Z.shiftl_nonneg. lia.
  - intros n Hn. rewrite Z.lor_spec, (testbit_u64_high w n Hw Hn).
    rewrite Z.shiftl_spec by lia. simpl.
    destruct (Z.eq_dec (n - i) 0) as [E | E]; [lia |].
    apply Z.bits_above_log2; simpl; lia.
Qed.

Lemma bitset_shl_u64 (w k : Z) : is_u64 (bitset_shl w k).
Proof. apply wrap64_u64. Qed.

(** The three branches of [track_state] on an initialised source. *)
Lemma track_state_eq (s : SourceState) (src seq : Z) :
  initialized s = true -> seq = next_expected s ->
  track_state s src seq =
  (mkSeqEvent SeqResult.OK src seq seq 0,
   mkSourceState (wrap32 (seq + 1)) true
     (bitset_set (bitset_shl (seen_window s) 1) (WINDOW_SIZE - 1))).
Proof.
  intros Hi He. unfold track_state. rewrite Hi. simpl.
  rewrite (proj2 (Z.eqb_eq _ _) He). reflexivity.
Qed.

Lemma track_state_gt (s : SourceState) (src seq : Z) :
  initialized s = true -> next_expected s < seq ->
  track_state s src seq =
  (let gap := wrap32 (seq - next_expected s) in
   let w := if WINDOW_SIZE <=? wrap32 (gap + 1)
            then bitset_reset
            else bitset_shl (seen_window s) (wrap32 (gap + 1)) in
   (mkSeqEvent SeqResult.GAP src (wrap32 (seq - gap)) seq gap,
    mkSourceState (wrap32 (seq + 1)) true (bitset_set w (WINDOW_SIZE - 1)))).
Proof.
  intros Hi Hlt. unfold track_state. rewrite Hi. simpl.
  destruct (seq =? next_expected s) eqn:E; [apply Z.eqb_eq in E; lia |].
  destruct (next_expected s <? seq) eqn:E2; [reflexivity |].
  apply Z.ltb_ge in E2. lia.
Qed.

Lemma track_state_lt (s : SourceState) (src seq : Z) :
  initialized s = true -> seq < next_expected s ->
  track_state s src seq =
  (let age := wrap32 (next_expected s - seq) in
   if age <=? WINDOW_SIZE then
     if bitset_test (seen_window s) (WINDOW_SIZE - age) then
       (mkSeqEvent SeqResult.DUPLICATE src (next_expected s) seq 0, s)
     else
       (mkSeqEvent SeqResult.REORDER src (next_expected s) seq 0,
        mkSourceState (next_expected s) true
          (bitset_set (seen_window s) (WINDOW_SIZE - age)))
   else (mkSeqEvent SeqResult.REORDER src (next_expected s) seq 0, s)).
Proof.
  intros Hi Hlt. unfold track_state. rewrite Hi. simpl.
  destruct (seq =? next_expected s) eqn:E; [apply Z.eqb_eq in E; lia |].
  destruct (next_expected s <? seq) eqn:E2; [apply Z.ltb_lt in E2; lia |].
  reflexivity.
Qed.

(** Every state [track] leaves is initialised, with a 32-bit
    [next_expected] and a 64-bit window. *)
Lemma track_state_wf (s : SourceState) (src seq : Z) :
  is_u32 seq ->
  (initialized s = true -> SourceState_wf s) ->
  SourceState_wf (snd (track_state s src seq)).
Proof.
  intros Hseq Hwf. unfold SourceState_wf.
  destruct (initialized s) eqn:Hi.
  - destruct (Hwf eq_refl) as (_ & Hne & Hw).
    destruct (Z.lt_trichotomy seq (next_expected s)) as [Hlt | [Heq | Hgt]].
    + rewrite track_state_lt by assumption. cbv zeta.
      assert (Hage : 1 <= wrap32 (next_expected s - seq)).
      { rewrite wrap32_small; unfold is_u32 in *; lia. }
      destruct (wrap32 (next_expected s - seq) <=? WINDOW_SIZE) eqn:Ea.
      * apply Z.leb_le in Ea. unfold WINDOW_SIZE in *.
        destruct (bitset_test _ _); simpl; (split; [| split]); try assumption;
          try reflexivity.
        apply bitset_set_u64; [exact Hw | lia].
      * simpl. split; [| split]; assumption.
    + rewrite track_state_eq by assumption. simpl.
      split; [reflexivity | split; [apply wrap32_u32 |]].
      apply bitset_set_u64; [apply bitset_shl_u64 | unfold WINDOW_SIZE; lia].
    + rewrite track_state_gt by assumption. simpl.
      split; [reflexivity | split; [apply wrap32_u32 |]].
      apply bitset_set_u64; [| unfold WINDOW_SIZE; lia].
      destruct (WINDOW_SIZE <=? _); [unfold bitset_reset, is_u64; lia |].
      apply bitset_shl_u64.
  - rewrite track_state_first by exact Hi. simpl.
    split; [reflexivity | split; [apply wrap32_u32 |]].
    unfold bitset_reset, is_u64. lia.
Qed.

Lemma track_all_cons (t : gmap Z SourceState) (src seq : Z) (rest : list (Z * Z)) :
  fst (track_all t ((src, seq) :: rest)) =
  fst (track t src seq) :: fst (track_all (snd (track t src seq)) rest).
Proof.
  simpl. destruct (track t src seq) as [ev t1]. simpl.
  destruct (track_all t1 rest) as [evs t2]. reflexivity.
Qed.








Lemma track_all_in_order_ok (src : Z) (n : nat) :
  forall (t : gmap Z SourceState) (s : Z),
    initialized (sources_at t src) = true ->
    next_expected (sources_at t src) = s ->
    List.map result (fst (track_all t (in_order src s n))) = repeat SeqResult.OK n.
Proof.
  induction n as [| n IH]; intros t s Hi Hs; [reflexivity |].
  cbn [in_order]. rewrite track_all_cons. cbn [List.map repeat].
  rewrite track_result, track_state_eq by (assumption || (symmetry; assumption)).
  cbn [fst result]. f_equal.
  apply IH; rewrite sources_at_track, track_state_eq
    by (assumption || (symmetry; assumption)); reflexivity.
Qed.

(** X1.  A source seen for the first time that sends consecutive sequence
    numbers, wrapping modulo 2^32, is classified FIRST once and OK ever
    after, whatever the number it starts from. *)
Theorem track_in_order (t : gmap Z SourceState) (src s : Z) (n : nat) :
  initialized (sources_at t src) = false ->
  List.map result (fst (track_all t (in_order src s (S n)))) =
  SeqResult.FIRST :: repeat SeqResult.OK n.
Proof.
  intros Hi. cbn [in_order]. rewrite track_all_cons. cbn [List.map].
  rewrite track_result, track_state_first by exact Hi. cbn [fst result]. f_equal.
  apply track_all_in_order_ok;
    rewrite sources_at_track, track_state_first by exact Hi; reflexivity.
Qed.

Lemma track_in_order_witness :
  initialized (sources_at SequenceTracker_new 3) = false /\
  List.map result
    (fst (track_all SequenceTracker_new (in_order 3 (2 ^ 32 - 2) (S 3)))) =
  SeqResult.FIRST :: repeat SeqResult.OK 3.
Proof.
  split; [reflexivity |].
  apply (track_in_order SequenceTracker_new 3 (2 ^ 32 - 2) 3). reflexivity.
Defined.

Lemma track_state_src_id (s : SourceState) (src seq : Z) :
  ev_src_id (fst (track_state s src seq)) = src.
Proof.
  unfold track_state.
  repeat match goal with
         | |- context [if ?c then _ else _] => destruct c
         end; reflexivity.
Qed.

Lemma sources_at_track_ne (t : gmap Z SourceState) (src seq j : Z) :
  src <> j -> sources_at (snd (track t src seq)) j = sources_at t j.
Proof.
  intros H. unfold track. destruct (track_state _ _ _) as [ev s']. simpl.
  unfold sources_at. by rewrite lookup_insert_ne.
Qed.

Lemma track_all_per_source_gen (a : Z) (inputs : list (Z * Z)) :
  forall t1 t2 : gmap Z SourceState,
    sources_at t1 a = sources_at t2 a ->
    filter (fun ev => ev_src_id ev = a) (fst (track_all t1 inputs)) =
    fst (track_all t2 (filter (fun p => fst p = a) inputs)).
Proof.
  induction inputs as [| [src seq] rest IH]; intros t1 t2 Heq; [reflexivity |].
  rewrite track_all_cons.
  destruct (decide (src = a)) as [-> | Hne].
  - rewrite (filter_cons_True (fun p => fst p = a)) by reflexivity.
    rewrite track_all_cons.
    rewrite filter_cons_True
      by (rewrite track_result; apply track_state_src_id).
    rewrite !track_result, Heq. f_equal.
    apply IH. by rewrite !sources_at_track, Heq.
  - rewrite (filter_cons_False (fun p => fst p = a)) by exact Hne.
    rewrite filter_cons_False
      by (rewrite track_result, track_state_src_id; exact Hne).
    apply IH. by rewrite sources_at_track_ne.
Qed.

(** X2.  Sources do not interfere: in any stream, the events of one source
    are the events the tracker gives for the frames of that source alone. *)
Theorem track_all_per_source (t : gmap Z SourceState) (inputs : list (Z * Z)) (a : Z) :
  filter (fun ev => ev_src_id ev = a) (fst (track_all t inputs)) =
  fst (track_all t (filter (fun p => fst p = a) inputs)).
Proof. by apply track_all_per_source_gen. Qed.

(** X3.  On an initialised source a sequence number above [next_expected]
    is a GAP whose [expected_seq] is the first missing number, whose
    [gap_size] is the count of missing numbers, [actual - expected]; the
    tracker then expects [seq + 1], and that number is OK. *)
Theorem track_gap_reports_missing (t : gmap Z SourceState) (src seq : Z) :
  initialized (sources_at t src) = true ->
  is_u32 (next_expected (sources_at t src)) ->
  is_u32 seq ->
  next_expected (sources_at t src) < seq ->
  let ne := next_expected (sources_at t src) in
  let r := track t src seq in
  fst r = mkSeqEvent SeqResult.GAP src ne seq (seq - ne) /\
  next_expected (sources_at (snd r) src) = wrap32 (seq + 1) /\
  result (fst (track (snd r) src (wrap32 (seq + 1)))) = SeqResult.OK.
Proof.
  intros Hi Hne Hseq Hlt ne r. unfold r.
  assert (Hg : wrap32 (seq - ne) = seq - ne).
  { apply wrap32_small. unfold is_u32, ne in *. lia. }
  rewrite !track_result, !sources_at_track, track_state_gt by assumption.
  cbv zeta. fold ne. rewrite Hg.
  replace (seq - (seq - ne)) with ne by lia.
  rewrite (wrap32_small ne) by exact Hne. cbn [fst snd next_expected].
  split; [reflexivity | split; [reflexivity |]].
  rewrite track_state_eq; reflexivity.
Qed.

Lemma track_gap_reports_missing_witness :
  let t := snd (track_all SequenceTracker_new [(1, 0); (1, 1)]) in
  initialized (sources_at t 1) = true /\
  is_u32 (next_expected (sources_at t 1)) /\ is_u32 1000 /\
  next_expected (sources_at t 1) < 1000 /\
  let ne := next_expected (sources_at t 1) in
  let r := track t 1 1000 in
  fst r = mkSeqEvent SeqResult.GAP 1 ne 1000 (1000 - ne) /\
  next_expected (sources_at (snd r) 1) = wrap32 (1000 + 1) /\
  result (fst (track (snd r) 1 (wrap32 (1000 + 1)))) = SeqResult.OK.
Proof.
  intros t.
  assert (H1 : initialized (sources_at t 1) = true) by reflexivity.
  assert (H2 : is_u32 (next_expected (sources_at t 1)))
    by (split; [vm_compute; discriminate | vm_compute; reflexivity]).
  assert (H3 : is_u32 1000) by (unfold is_u32; lia).
  assert (H4 : next_expected (sources_at t 1) < 1000) by reflexivity.
  split; [exact H1 | split; [exact H2 | split; [exact H3 | split; [exact H4 |]]]].
  exact (track_gap_reports_missing t 1 1000 H1 H2 H3 H4).
Defined.

(** X4.  A sequence number just accepted as OK or GAP and sent again at
    once is DUPLICATE and changes nothing, unless it is 0xFFFFFFFF: then
    [next_expected] has wrapped to 0, the comparison is a plain unsigned
    one, and the second copy is a GAP of 0xFFFFFFFF missing numbers. *)
Theorem track_resend_after_accept (t : gmap Z SourceState) (src seq : Z) :
  initialized (sources_at t src) = true ->
  is_u32 seq ->
  next_expected (sources_at t src) <= seq ->
  let r1 := track t src seq in
  let r2 := track (snd r1) src seq in
  (seq < 2 ^ 32 - 1 ->
     fst r2 = mkSeqEvent SeqResult.DUPLICATE src (seq + 1) seq 0 /\
     sources_at (snd r2) src = sources_at (snd r1) src) /\
  (seq = 2 ^ 32 - 1 ->
     fst r2 = mkSeqEvent SeqResult.GAP src 0 seq (2 ^ 32 - 1)).
Proof.
  intros Hi Hseq Hle r1 r2.
  assert (S1 : exists w, sources_at (snd r1) src =
                         mkSourceState (wrap32 (seq + 1)) true (bitset_set w 63)).
  { unfold r1. rewrite sources_at_track.
    destruct (Z.eq_dec seq (next_expected (sources_at t src))) as [E | E].
    - rewrite track_state_eq by assumption. by eexists.
    - rewrite track_state_gt by (assumption || lia). by eexists. }
  destruct S1 as [w S1].
  unfold r2. rewrite track_result, sources_at_track, S1. clear r1 r2 S1.
  unfold is_u32 in Hseq. split.
  - intros Hlt.
    assert (Hn : wrap32 (seq + 1) = seq + 1) by (apply wrap32_small; unfold is_u32; lia).
    rewrite Hn. rewrite track_state_lt by (simpl; (reflexivity || lia)).
    cbn [next_expected seen_window]. cbv zeta.
    replace (seq + 1 - seq) with 1 by lia.
    change (wrap32 1 <=? WINDOW_SIZE) with true.
    change (WINDOW_SIZE - wrap32 1) with 63.
    rewrite bitset_set_test by lia. split; reflexivity.
  - intros ->. vm_compute. reflexivity.
Qed.

Lemma track_resend_after_accept_witness :
  let t := snd (track SequenceTracker_new 1 5) in
  initialized (sources_at t 1) = true /\ is_u32 9 /\
  next_expected (sources_at t 1) <= 9 /\
  let r1 := track t 1 9 in
  let r2 := track (snd r1) 1 9 in
  (9 < 2 ^ 32 - 1 ->
     fst r2 = mkSeqEvent SeqResult.DUPLICATE 1 (9 + 1) 9 0 /\
     sources_at (snd r2) 1 = sources_at (snd r1) 1) /\
  (9 = 2 ^ 32 - 1 ->
     fst r2 = mkSeqEvent SeqResult.GAP 1 0 9 (2 ^ 32 - 1)).
Proof.
  intros t.
  assert (H1 : initialized (sources_at t 1) = true) by reflexivity.
  assert (H2 : is_u32 9) by (unfold is_u32; lia).
  assert (H3 : next_expected (sources_at t 1) <= 9) by (vm_compute; discriminate).
  split; [exact H1 | split; [exact H2 | split; [exact H3 |]]].
  exact (track_resend_after_accept t 1 9 H1 H2 H3).
Defined.

(** X5.  On an initialised source a sequence number more than 64 below
    [next_expected] is REORDER, never DUPLICATE, and leaves the state of the
    source as it was, however often it is sent. *)
Theorem track_beyond_window (t : gmap Z SourceState) (src seq : Z) :
  initialized (sources_at t src) = true ->
  is_u32 (next_expected (sources_at t src)) ->
  is_u32 seq ->
  WINDOW_SIZE < next_expected (sources_at t src) - seq ->
  fst (track t src seq) =
    mkSeqEvent SeqResult.REORDER src (next_expected (sources_at t src)) seq 0 /\
  sources_at (snd (track t src seq)) src = sources_at t src.
Proof.
  intros Hi Hne Hseq Hold. unfold WINDOW_SIZE in Hold.
  rewrite track_result, sources_at_track.
  rewrite track_state_lt by (assumption || lia). cbv zeta.
  rewrite wrap32_small by (unfold is_u32 in *; lia).
  destruct (_ <=? WINDOW_SIZE) eqn:E.
  - apply Z.leb_le in E. unfold WINDOW_SIZE in E. lia.
  - split; reflexivity.
Qed.

Lemma track_beyond_window_witness :
  let t := snd (track SequenceTracker_new 1 500) in
  initialized (sources_at t 1) = true /\
  is_u32 (next_expected (sources_at t 1)) /\ is_u32 7 /\
  WINDOW_SIZE < next_expected (sources_at t 1) - 7 /\
  fst (track t 1 7) =
    mkSeqEvent SeqResult.REORDER 1 (next_expected (sources_at t 1)) 7 0 /\
  sources_at (snd (track t 1 7)) 1 = sources_at t 1.
Proof.
  intros t.
  assert (H1 : initialized (sources_at t 1) = true) by reflexivity.
  assert (H2 : is_u32 (next_expected (sources_at t 1)))
    by (split; [vm_compute; discriminate | vm_compute; reflexivity]).
  assert (H3 : is_u32 7) by (unfold is_u32; lia).
  assert (H4 : WINDOW_SIZE < next_expected (sources_at t 1) - 7) by reflexivity.
  split; [exact H1 | split; [exact H2 | split; [exact H3 | split; [exact H4 |]]]].
  exact (track_beyond_window t 1 7 H1 H2 H3 H4).
Defined.

(** X6.  A late sequence number inside the window, sent twice in a row:
    whatever the first call says (REORDER, or DUPLICATE when its bit was
    set), the second call, with no other frame of the source in between, is
    DUPLICATE.  No more than that: a frame accepted in between shifts the
    window, and the same late number can be REORDER again. *)
Theorem track_late_resend (t : gmap Z SourceState) (src seq : Z) :
  initialized (sources_at t src) = true ->
  is_u32 (next_expected (sources_at t src)) ->
  is_u32 seq ->
  seq < next_expected (sources_at t src) ->
  next_expected (sources_at t src) - seq <= WINDOW_SIZE ->
  let r1 := track t src seq in
  let r2 := track (snd r1) src seq in
  (result (fst r1) = SeqResult.REORDER \/ result (fst r1) = SeqResult.DUPLICATE) /\
  result (fst r2) = SeqResult.DUPLICATE.
Proof.
  intros Hi Hne Hseq Hlt Hwin r1 r2. unfold r2, r1. unfold WINDOW_SIZE in Hwin.
  rewrite !track_result, !sources_at_track.
  assert (Hage : wrap32 (next_expected (sources_at t src) - seq) =
                 next_expected (sources_at t src) - seq).
  { apply wrap32_small. unfold is_u32 in *. lia. }
  rewrite (track_state_lt (sources_at t src)) by assumption. cbv zeta.
  rewrite Hage.
  destruct (_ <=? WINDOW_SIZE) eqn:E;
    [| apply Z.leb_gt in E; unfold WINDOW_SIZE in E; lia].
  destruct (bitset_test _ _) eqn:Eb; cbn [fst snd result].
  - split; [by right |].
    rewrite track_state_lt by assumption. cbv zeta.
    rewrite Hage, E, Eb. reflexivity.
  - split; [by left |].
    rewrite track_state_lt by (simpl; (reflexivity || assumption)).
    cbn [next_expected seen_window]. cbv zeta.
    rewrite Hage, E, bitset_set_test by (unfold WINDOW_SIZE; lia). reflexivity.
Qed.

Lemma track_late_resend_witness :
  let t := snd (track_all SequenceTracker_new [(1, 0); (1, 9)]) in
  initialized (sources_at t 1) = true /\
  is_u32 (next_expected (sources_at t 1)) /\ is_u32 4 /\
  4 < next_expected (sources_at t 1) /\
  next_expected (sources_at t 1) - 4 <= WINDOW_SIZE /\
  let r1 := track t 1 4 in
  let r2 := track (snd r1) 1 4 in
  (result (fst r1) = SeqResult.REORDER \/ result (fst r1) = SeqResult.DUPLICATE) /\
  result (fst r2) = SeqResult.DUPLICATE.
Proof.
  intros t.
  assert (H1 : initialized (sources_at t 1) = true) by reflexivity.
  assert (H2 : is_u32 (next_expected (sources_at t 1)))
    by (split; [vm_compute; discriminate | vm_compute; reflexivity]).
  assert (H3 : is_u32 4) by (unfold is_u32; lia).
  assert (H4 : 4 < next_expected (sources_at t 1)) by reflexivity.
  assert (H5 : next_expected (sources_at t 1) - 4 <= WINDOW_SIZE)
    by (vm_compute; discriminate).
  split; [exact H1 | split; [exact H2 | split; [exact H3 | split; [exact H4 |
    split; [exact H5 |]]]]].
  exact (track_late_resend t 1 4 H1 H2 H3 H4 H5).
Defined.

(** An accepted frame between the two copies: the late number 98 is
    REORDER twice. *)
Example late_number_twice_REORDER :
  List.map result
    (fst (track_all SequenceTracker_new [(1,100); (1,98); (1,101); (1,98)])) =
  [SeqResult.FIRST; SeqResult.REORDER; SeqResult.OK; SeqResult.REORDER].
Proof. vm_compute. reflexivity. Qed.

(** X7.  [reset(src_id)] forgets the source whatever its history: the next
    frame of that source is FIRST and arms the tracker at [seq + 1], the
    other sources keep their state, and [source_count] drops by one when
    the source was known and stays when it was not. *)
Theorem reset_then_track (t : gmap Z SourceState) (src seq : Z) :
  let t' := tracker_reset t src in
  fst (track t' src seq) = mkSeqEvent SeqResult.FIRST src 0 seq 0 /\
  next_expected (sources_at (snd (track t' src seq)) src) = wrap32 (seq + 1) /\
  (forall j, j <> src -> t' !! j = t !! j) /\
  source_count t' =
    (if decide (is_Some (t !! src)) then pred (source_count t) else source_count t).
Proof.
  intros t'. unfold t', tracker_reset.
  assert (Hi : initialized (sources_at (delete src t) src) = false).
  { unfold sources_at. by rewrite lookup_delete_eq. }
  rewrite track_result, sources_at_track, track_state_first by exact Hi.
  split; [reflexivity | split; [reflexivity | split]].
  - intros j Hj. by apply lookup_delete_ne.
  - unfold source_count. case_decide as Hs.
    + by apply map_size_delete_Some.
    + apply map_size_delete_None. by apply eq_None_not_Some.
Qed.

(** A call of [track] creates the entry of a source not seen before
    and creates no other: [source_count] goes up by one for a new source
    and stays for a known one, whatever the classification. *)
Theorem track_source_count (t : gmap Z SourceState) (src seq : Z) :
  source_count (snd (track t src seq)) =
    (if decide (is_Some (t !! src)) then source_count t else S (source_count t)) /\
  is_Some (snd (track t src seq) !! src).
Proof.
  unfold track. destruct (track_state _ _ _) as [ev s']. cbn [snd].
  unfold source_count. split.
  - case_decide as Hs.
    + by apply map_size_insert_Some.
    + apply map_size_insert_None. by apply eq_None_not_Some.
  - rewrite lookup_insert_eq. by eexists.
Qed.

(** X8.  [track] keeps the entries of the tracker well formed: every entry
    is initialised, its [next_expected] is a 32-bit number and its window a
    64-bit one, after any stream of 32-bit sequence numbers. *)
Theorem track_all_wf (inputs : list (Z * Z)) (t : gmap Z SourceState) :
  tracker_wf t ->
  Forall (fun p => is_u32 (snd p)) inputs ->
  tracker_wf (snd (track_all t inputs)).
Proof.
  revert t. induction inputs as [| [src seq] rest IH]; intros t Hwf Hin; [exact Hwf |].
  apply Forall_cons in Hin as [Hseq Hrest]. simpl in Hseq.
  cbn [track_all].
  destruct (track t src seq) as [ev t1] eqn:Et.
  specialize (IH t1).
  destruct (track_all t1 rest) as [evs t2]. cbn [snd] in *.
  apply IH; [| exact Hrest].
  assert (Ht1 : t1 = snd (track t src seq)) by (by rewrite Et).
  rewrite Ht1. unfold track.
  destruct (track_state (sources_at t src) src seq) as [ev' s'] eqn:Es. cbn [snd].
  intros i s Hl.
  destruct (decide (src = i)) as [-> | Hne].
  - rewrite lookup_insert_eq in Hl. injection Hl as <-.
    replace s' with (snd (track_state (sources_at t i) i seq)) by (by rewrite Es).
    apply track_state_wf; [exact Hseq |].
    unfold sources_at. destruct (t !! i) as [x |] eqn:Ex; simpl.
    + intros _. by apply (Hwf i).
    + discriminate.
  - rewrite lookup_insert_ne in Hl by exact Hne. by apply (Hwf i).
Qed.

Lemma track_all_wf_witness :
  tracker_wf SequenceTracker_new /\
  Forall (fun p => is_u32 (snd p)) [(1, 0); (2, 7); (1, 5); (1, 3)] /\
  tracker_wf (snd (track_all SequenceTracker_new [(1, 0); (2, 7); (1, 5); (1, 3)])).
Proof.
  assert (H1 : tracker_wf SequenceTracker_new).
  { intros i s Hl. unfold SequenceTracker_new in Hl.
    rewrite lookup_empty in Hl. discriminate. }
  assert (H2 : Forall (fun p => is_u32 (snd p)) [(1, 0); (2, 7); (1, 5); (1, 3)]).
  { repeat constructor; simpl; lia. }
  split; [exact H1 | split; [exact H2 |]].
  exact (track_all_wf _ _ H1 H2).
Defined.

(** ** CRC engine *)

Ltac lxor_bits :=
  apply Z.bits_inj; intros ?n; rewrite ?Z.lxor_spec;
  repeat match goal with
         | |- context [Z.testbit ?a ?n] => destruct (Z.testbit a n)
         end; reflexivity.

(** One round is linear over exclusive or. *)
Lemma crc_round_lxor (x y : Z) :
  crc_round (Z.lxor x y) = Z.lxor (crc_round x) (crc_round y).
Proof.
  unfold crc_round. rewrite Z.lxor_spec, Z.shiftr_lxor.
  destruct (Z.testbit x 0), (Z.testbit y 0); simpl; lxor_bits.
Qed.

Lemma crc_rounds_lxor (k : nat) (x y : Z) :
  Nat.iter k crc_round (Z.lxor x y) =
  Z.lxor (Nat.iter k crc_round x) (Nat.iter k crc_round y).
Proof.
  induction k as [| k IH]; [reflexivity |].
  simpl. by rewrite IH, crc_round_lxor.
Qed.

(** [k] rounds on a value whose low [k] bits are clear shift it out. *)
Lemma crc_rounds_shiftl (k : nat) (h : Z) :
  Nat.iter k crc_round (Z.shiftl h (Z.of_nat k)) = h.
Proof.
  revert h. induction k as [| k IH]; intros h.
  - simpl. apply Z.shiftl_0_r.
  - replace (Z.of_nat (S k)) with (1 + Z.of_nat k) by lia.
    rewrite <- Z.shiftl_shiftl by lia. rewrite Nat.iter_succ, IH.
    unfold crc_round. rewrite Z.shiftl_spec_low by lia.
    rewrite Z.shiftr_shiftl_l by lia. apply Z.shiftl_0_r.
Qed.

(** An integer is its low byte and the rest. *)
Lemma split_low_byte (x : Z) :
  x = Z.lxor (Z.shiftl (Z.shiftr x 8) 8) (wrap8 x).
Proof.
  apply Z.bits_inj'. intros n Hn. rewrite Z.lxor_spec. unfold wrap8.
  destruct (Z.lt_ge_cases n 8) as [Hlt | Hge].
  - rewrite Z.shiftl_spec_low by lia. rewrite Z.mod_pow2_bits_low by lia.
    by destruct (Z.testbit x n).
  - rewrite Z.shiftl_spec, Z.shiftr_spec by lia.
    rewrite Z.mod_pow2_bits_high by lia.
    replace (n - 8 + 8) with n by lia. by destruct (Z.testbit x n).
Qed.

Lemma table_at_wrap8 (x : Z) : table_at (wrap8 x) = make_crc_entry (wrap8 x).
Proof.
  assert (Hr : 0 <= wrap8 x < 256) by (unfold wrap8; apply Z.mod_pos_bound; lia).
  rewrite <- (Z2Nat.id (wrap8 x)) by lia.
  apply table_at_make_crc_entry. lia.
Qed.

(** The table-driven step is eight rounds of the bit-by-bit division. *)
Lemma crc_step_rounds (c : Z) (b : byte) :
  crc_step c b = Nat.iter 8 crc_round (Z.lxor c (byte_val b)).
Proof.
  unfold crc_step. cbv zeta. rewrite table_at_wrap8. unfold make_crc_entry.
  set (x := Z.lxor c (byte_val b)).
  assert (Hhi : Z.shiftr c 8 = Z.shiftr x 8).
  { unfold x. rewrite Z.shiftr_lxor.
    pose proof (byte_val_range b) as Hb.
    rewrite (Z.shiftr_div_pow2 (byte_val b)) by lia.
    rewrite (Z.div_small (byte_val b)) by lia. by rewrite Z.lxor_0_r. }
  rewrite Hhi. rewrite (split_low_byte x) at 3.
  rewrite crc_rounds_lxor. f_equal.
  symmetry. apply (crc_rounds_shiftl 8).
Qed.

(** X9.  The table-driven [crc32_update] computes the bit-by-bit reflected
    CRC-32: each byte is xor-ed into the state, which then goes through
    eight rounds of shift right and, when the bit shifted out is 1, xor
    with the polynomial 0xEDB88320; the state is complemented on entry and
    on exit. *)
Theorem crc32_update_bitwise (c : Z) (data : list byte) :
  crc32_update c data =
  lnot32 (fold_left (fun st b => Nat.iter 8 crc_round (Z.lxor st (byte_val b)))
                    data (lnot32 c)).
Proof.
  unfold crc32_update. f_equal. generalize (lnot32 c). clear c.
  induction data as [| b data IH]; intros st; [reflexivity |].
  simpl. rewrite crc_step_rounds. apply IH.
Qed.

(** Feeding a buffer to [crc32_update] chunk by chunk, in any number
    of chunks and from any starting value, gives the CRC of the whole
    buffer from that value. *)
Theorem crc32_update_chunks (c : Z) (chunks : list (list byte)) :
  fold_left crc32_update chunks c = crc32_update c (concat chunks).
Proof.
  revert c. induction chunks as [| a chunks IH]; intros c.
  - simpl. unfold crc32_update. simpl. by rewrite lnot32_involutive.
  - simpl. rewrite IH. apply crc32_update_app.
Qed.

(** ** Wire structs *)

Lemma le_combine_le_split (n : nat) (z : Z) :
  le_combine (le_split n z) = z mod 2 ^ (8 * Z.of_nat n).
Proof.
  revert z. induction n as [| n IH]; intros z.
  - simpl. by rewrite Z.mod_1_r.
  - cbn [le_split le_combine]. rewrite IH, byte_val_of_Z. unfold wrap8.
    replace (8 * Z.of_nat (S n)) with (8 + 8 * Z.of_nat n) by lia.
    rewrite Z.pow_add_r by lia.
    rewrite Z.rem_mul_r by lia. reflexivity.
Qed.

Lemma length_le_split (n : nat) (z : Z) : length (le_split n z) = n.
Proof. revert z. induction n as [| n IH]; intros z; simpl; [| rewrite IH]; done. Qed.

Lemma signed_mod (w x : Z) :
  0 < w -> - 2 ^ (w - 1) <= x < 2 ^ (w - 1) -> signed w (x mod 2 ^ w) = x.
Proof.
  intros Hw Hx. unfold signed.
  assert (Hp : 2 ^ w = 2 * 2 ^ (w - 1)).
  { replace w with (1 + (w - 1)) at 1 by lia. rewrite Z.pow_add_r by lia. reflexivity. }
  destruct (Z.lt_ge_cases x 0) as [Hneg | Hpos].
  - assert (Hm : x mod 2 ^ w = x + 2 ^ w).
    { symmetry. apply (Z.mod_unique _ _ (-1)); lia. }
    rewrite Hm. destruct (_ <? _) eqn:E; [apply Z.ltb_lt in E; lia | lia].
  - rewrite Z.mod_small by lia.
    destruct (_ <? _) eqn:E; [reflexivity | apply Z.ltb_ge in E; lia].
Qed.

Ltac wire_field :=
  match goal with
  | H : is_u8 ?z |- _ = ?z =>
      change (le_combine (le_split 1 z) = z);
      rewrite le_combine_le_split; apply Z.mod_small; exact H
  | H : is_u16 ?z |- _ = ?z =>
      change (le_combine (le_split 2 z) = z);
      rewrite le_combine_le_split; apply Z.mod_small; exact H
  | H : is_u32 ?z |- _ = ?z =>
      change (le_combine (le_split 4 z) = z);
      rewrite le_combine_le_split; apply Z.mod_small; exact H
  | H : is_u64 ?z |- _ = ?z =>
      change (le_combine (le_split 8 z) = z);
      rewrite le_combine_le_split; apply Z.mod_small; exact H
  | H : is_i16 ?z |- _ = ?z =>
      change (signed 16 (le_combine (le_split 2 z)) = z);
      rewrite le_combine_le_split; apply (signed_mod 16 z); [lia | exact H]
  | H : is_i32 ?z |- _ = ?z =>
      change (signed 32 (le_combine (le_split 4 z)) = z);
      rewrite le_combine_le_split; apply (signed_mod 32 z); [lia | exact H]
  end.

Lemma deserialize_serialize_header (h : TelemetryHeader) (rest : list byte) :
  TelemetryHeader_wf h -> deserialize_header (serialize_header h ++ rest) = h.
Proof.
  intros (Hv & Hm & Hs & Hq & Ht & Hp).
  destruct h as [v m s q t p]. cbn [version msg_type hdr_src_id hdr_seq ts_ns payload_len] in *.
  unfold deserialize_header. f_equal; wire_field.
Qed.

(** X10.  The header survives the wire: [deserialize_header] on the 18
    bytes [serialize_header] writes, whatever follows them, gives back
    every member of a header whose members fit their types. *)
Theorem header_roundtrip (h : TelemetryHeader) (rest : list byte) :
  TelemetryHeader_wf h ->
  deserialize_header (serialize_header h ++ rest) = h /\
  buf_len (serialize_header h) = FRAME_HEADER_SIZE.
Proof.
  intros Hwf. split; [| reflexivity].
  apply deserialize_serialize_header, Hwf.
Qed.

Lemma header_roundtrip_witness :
  TelemetryHeader_wf (mkTelemetryHeader 1 2 0x12 1 1000000 25) /\
  deserialize_header (serialize_header (mkTelemetryHeader 1 2 0x12 1 1000000 25) ++ [x2a])
    = mkTelemetryHeader 1 2 0x12 1 1000000 25 /\
  buf_len (serialize_header (mkTelemetryHeader 1 2 0x12 1 1000000 25)) = FRAME_HEADER_SIZE.
Proof.
  assert (H : TelemetryHeader_wf (mkTelemetryHeader 1 2 0x12 1 1000000 25)).
  { unfold TelemetryHeader_wf, is_u8, is_u16, is_u32, is_u64. simpl. lia. }
  split; [exact H |].
  exact (header_roundtrip (mkTelemetryHeader 1 2 0x12 1 1000000 25) [x2a] H).
Defined.

(** X11.  So do the four payloads, the signed members included: each
    [deserialize_*] on the bytes of its [serialize_*] gives back the
    struct, and the encodings have the sizes the static assertions state
    (21, 25, 11 and 13 bytes). *)
Theorem payload_roundtrip (p : PlotPayload) (t : TrackPayload)
    (hb : HeartbeatPayload) (e : EngagementPayload) (rest : list byte) :
  PlotPayload_wf p -> TrackPayload_wf t ->
  HeartbeatPayload_wf hb -> EngagementPayload_wf e ->
  (deserialize_plot (serialize_plot p ++ rest) = p /\
   buf_len (serialize_plot p) = sizeof_PlotPayload) /\
  (deserialize_track (serialize_track t ++ rest) = t /\
   buf_len (serialize_track t) = sizeof_TrackPayload) /\
  (deserialize_heartbeat (serialize_heartbeat hb ++ rest) = hb /\
   buf_len (serialize_heartbeat hb) = sizeof_HeartbeatPayload) /\
  (deserialize_engagement (serialize_engagement e ++ rest) = e /\
   buf_len (serialize_engagement e) = sizeof_EngagementPayload).
Proof.
  intros Hp Ht Hh He.
  split; [| split; [| split]]; (split; [| reflexivity]).
  - destruct Hp as (H1 & H2 & H3 & H4 & H5 & H6 & H7).
    destruct p as [a b c d f g i]. simpl in *.
    unfold deserialize_plot. f_equal; wire_field.
  - destruct Ht as (H1 & H2 & H3 & H4 & H5 & H6 & H7 & H8 & H9 & H10).
    destruct t as [a b c d f g i j k l]. simpl in *.
    unfold deserialize_track. f_equal; wire_field.
  - destruct Hh as (H1 & H2 & H3 & H4 & H5 & H6).
    destruct hb as [a b c d f g]. simpl in *.
    unfold deserialize_heartbeat. f_equal; wire_field.
  - destruct He as (H1 & H2 & H3 & H4 & H5 & H6).
    destruct e as [a b c d f g]. simpl in *.
    unfold deserialize_engagement. f_equal; wire_field.
Qed.

Lemma payload_roundtrip_witness :
  PlotPayload_wf plot1 /\ TrackPayload_wf track1 /\
  HeartbeatPayload_wf heartbeat1 /\ EngagementPayload_wf engagement1 /\
  (deserialize_plot (serialize_plot plot1 ++ [x00]) = plot1 /\
   buf_len (serialize_plot plot1) = sizeof_PlotPayload) /\
  (deserialize_track (serialize_track track1 ++ [x00]) = track1 /\
   buf_len (serialize_track track1) = sizeof_TrackPayload) /\
  (deserialize_heartbeat (serialize_heartbeat heartbeat1 ++ [x00]) = heartbeat1 /\
   buf_len (serialize_heartbeat heartbeat1) = sizeof_HeartbeatPayload) /\
  (deserialize_engagement (serialize_engagement engagement1 ++ [x00]) = engagement1 /\
   buf_len (serialize_engagement engagement1) = sizeof_EngagementPayload).
Proof.
  assert (H1 : PlotPayload_wf plot1).
  { unfold PlotPayload_wf, is_u8, is_u32, is_i16, is_i32. simpl. lia. }
  assert (H2 : TrackPayload_wf track1).
  { unfold TrackPayload_wf, is_u8, is_u16, is_u32, is_i16, is_i32. simpl. lia. }
  assert (H3 : HeartbeatPayload_wf heartbeat1).
  { unfold HeartbeatPayload_wf, is_u8, is_u16, is_u32. simpl. lia. }
  assert (H4 : EngagementPayload_wf engagement1).
  { unfold EngagementPayload_wf, is_u8, is_u16, is_u32, is_i16. simpl. lia. }
  split; [exact H1 | split; [exact H2 | split; [exact H3 | split; [exact H4 |]]]].
  exact (payload_roundtrip plot1 track1 heartbeat1 engagement1 [x00] H1 H2 H3 H4).
Defined.

(** ** Frame parser *)

Lemma le_combine_nonneg (l : list byte) : 0 <= le_combine l.
Proof.
  induction l as [| b l IH]; simpl; [lia |].
  pose proof (byte_val_range b). lia.
Qed.

Lemma bytes_at_app (buf extra : list byte) (off n : nat) :
  (off + n <= length buf)%nat ->
  bytes_at (buf ++ extra) off n = bytes_at buf off n.
Proof.
  intros H. unfold bytes_at.
  rewrite drop_app_le by lia. apply take_app_le. rewrite length_drop. lia.
Qed.

Lemma deserialize_header_app (buf extra : list byte) :
  FRAME_HEADER_SIZE <= buf_len buf ->
  deserialize_header (buf ++ extra) = deserialize_header buf.
Proof.
  unfold FRAME_HEADER_SIZE, buf_len. intros H. unfold deserialize_header.
  rewrite !bytes_at_app by lia. reflexivity.
Qed.

(** The result of [parse_frame] on a buffer with a whole header, by the
    header it holds. *)
Lemma parse_frame_by_header (buf : list byte) (crc_on : bool) (out : ParsedFrame) :
  FRAME_HEADER_SIZE <= buf_len buf ->
  let h := deserialize_header buf in
  let out1 := set_header out h in
  parse_frame buf crc_on out =
  if negb (version h =? 1) then (ParseError.BAD_VERSION, out1)
  else if (msg_type h <? 1) || (4 <? msg_type h) then (ParseError.BAD_MSG_TYPE, out1)
  else if 1024 <? payload_len h then (ParseError.PAYLOAD_TOO_LONG, out1)
  else if buf_len buf <? 18 + payload_len h + (if crc_on then 4 else 0)
       then (ParseError.TRUNCATED, out1)
  else if crc_on then
    let stored := le_combine (bytes_at buf (Z.to_nat (18 + payload_len h)) 4) in
    (if crc32 (take (Z.to_nat (18 + payload_len h)) buf) =? stored
     then ParseError.OK else ParseError.CRC_MISMATCH,
     mkParsedFrame h (Some 18) stored true)
  else (ParseError.OK, mkParsedFrame h (Some 18) 0 false).
Proof.
  intros Hlen h out1. unfold parse_frame.
  change FRAME_HEADER_SIZE with 18 in *. change FRAME_CRC_SIZE with 4.
  change MAX_PAYLOAD_SIZE with 1024. change PROTOCOL_VERSION with 1.
  change MsgType.PLOT with 1. change MsgType.ENGAGEMENT with 4.
  destruct (buf_len buf <? 18) eqn:E; [apply Z.ltb_lt in E; lia |].
  cbn [header set_header set_payload_ptr set_has_crc set_crc crc payload_ptr has_crc].
  fold h. fold out1.
  destruct (negb (version h =? 1)); [reflexivity |].
  destruct ((msg_type h <? 1) || (4 <? msg_type h)); [reflexivity |].
  destruct (1024 <? payload_len h); [reflexivity |].
  destruct crc_on.
  - destruct (buf_len buf <? 18 + payload_len h + 4); [reflexivity |].
    change (Z.to_nat 4) with 4%nat.
    destruct (crc32 _ =? _); reflexivity.
  - rewrite Z.add_0_r.
    destruct (buf_len buf <? 18 + payload_len h); reflexivity.
Qed.

(** What OK implies for the out-parameter and the buffer. *)
Lemma parse_frame_ok_inv (buf : list byte) (crc_on : bool) (out : ParsedFrame) :
  fst (parse_frame buf crc_on out) = ParseError.OK ->
  let o := snd (parse_frame buf crc_on out) in
  let plen := payload_len (header o) in
  header o = deserialize_header buf /\
  version (header o) = 1 /\ 1 <= msg_type (header o) <= 4 /\
  0 <= plen <= 1024 /\
  payload_ptr o = Some 18 /\
  18 + plen + (if crc_on then 4 else 0) <= buf_len buf /\
  has_crc o = crc_on /\
  crc o = (if crc_on then crc32 (take (Z.to_nat (18 + plen)) buf) else 0).
Proof.
  intros Hok o plen. unfold plen, o. clear plen o.
  destruct (Z.lt_ge_cases (buf_len buf) FRAME_HEADER_SIZE) as [Hshort | Hlen].
  { rewrite parse_frame_too_short in Hok by exact Hshort. discriminate. }
  rewrite (parse_frame_by_header buf crc_on out Hlen) in *. cbv zeta in *.
  pose proof (le_combine_nonneg (bytes_at buf 16 2)) as Hnn.
  change (le_combine (bytes_at buf 16 2)) with (payload_len (deserialize_header buf)) in Hnn.
  destruct (negb (version _ =? 1)) eqn:Ev; [discriminate |].
  destruct ((msg_type _ <? 1) || (4 <? msg_type _)) eqn:Em; [discriminate |].
  destruct (1024 <? payload_len _) eqn:Ep; [discriminate |].
  destruct (buf_len buf <? _) eqn:Et; [discriminate |].
  apply negb_false_iff, Z.eqb_eq in Ev.
  apply orb_false_iff in Em as [Em1 Em2].
  apply Z.ltb_ge in Em1, Em2, Ep, Et.
  destruct crc_on; cbn [fst snd header payload_ptr has_crc crc] in *.
  - destruct (crc32 _ =? _) eqn:Ec; [| discriminate].
    apply Z.eqb_eq in Ec. repeat split; try assumption; lia.
  - repeat split; try assumption; lia.
Qed.

(** X12.  What OK promises the consumer: the header is the deserialized
    one, with version 1, a message type in 1..4 and a payload of at most
    1024 bytes; the payload pointer is [buf + 18] and the payload, and the
    CRC when enabled, lie inside the buffer; [has_crc] is the policy and
    [crc] is the stored CRC, equal to the CRC of header and payload (0 when
    the policy is off). *)
Theorem parse_frame_ok (buf : list byte) (crc_on : bool) (out : ParsedFrame) :
  fst (parse_frame buf crc_on out) = ParseError.OK ->
  let o := snd (parse_frame buf crc_on out) in
  let plen := payload_len (header o) in
  header o = deserialize_header buf /\
  version (header o) = 1 /\ 1 <= msg_type (header o) <= 4 /\
  0 <= plen <= 1024 /\
  payload_ptr o = Some 18 /\
  18 + plen + (if crc_on then 4 else 0) <= buf_len buf /\
  has_crc o = crc_on /\
  crc o = (if crc_on then crc32 (take (Z.to_nat (18 + plen)) buf) else 0).
Proof.
  intros Hok o plen. unfold plen, o.
  apply parse_frame_ok_inv, Hok.
Qed.

Lemma parse_frame_ok_witness :
  fst (parse_frame (track_frame x01) false (ParsedFrame_init header0)) = ParseError.OK /\
  let o := snd (parse_frame (track_frame x01) false (ParsedFrame_init header0)) in
  let plen := payload_len (header o) in
  header o = deserialize_header (track_frame x01) /\
  version (header o) = 1 /\ 1 <= msg_type (header o) <= 4 /\
  0 <= plen <= 1024 /\
  payload_ptr o = Some 18 /\
  18 + plen + (if false then 4 else 0) <= buf_len (track_frame x01) /\
  has_crc o = false /\
  crc o = (if false then crc32 (take (Z.to_nat (18 + plen)) (track_frame x01)) else 0).
Proof.
  assert (H : fst (parse_frame (track_frame x01) false (ParsedFrame_init header0))
              = ParseError.OK) by (vm_compute; reflexivity).
  split; [exact H |].
  exact (parse_frame_ok (track_frame x01) false (ParsedFrame_init header0) H).
Defined.

Lemma buf_len_app (a b : list byte) : buf_len (a ++ b) = buf_len a + buf_len b.
Proof. unfold buf_len. rewrite length_app. lia. Qed.

(** X13.  Bytes after the frame are not looked at: a buffer that parses OK
    still parses OK, with the same out-parameter, when anything is appended
    to it.  The total length of a datagram is checked from below only. *)
Theorem parse_frame_trailing_bytes (buf extra : list byte) (crc_on : bool)
    (out : ParsedFrame) :
  fst (parse_frame buf crc_on out) = ParseError.OK ->
  parse_frame (buf ++ extra) crc_on out = parse_frame buf crc_on out.
Proof.
  intros Hok.
  destruct (parse_frame_ok_inv buf crc_on out Hok) as (Hh & _ & _ & Hp & _ & Hlen & _).
  rewrite Hh in Hp, Hlen.
  assert (H18 : FRAME_HEADER_SIZE <= buf_len buf).
  { unfold FRAME_HEADER_SIZE. destruct crc_on; lia. }
  assert (H18' : FRAME_HEADER_SIZE <= buf_len (buf ++ extra)).
  { rewrite buf_len_app. unfold buf_len at 2. lia. }
  rewrite (parse_frame_by_header _ crc_on out H18').
  rewrite (parse_frame_by_header _ crc_on out H18). cbv zeta.
  rewrite (deserialize_header_app buf extra H18).
  set (h := deserialize_header buf) in *.
  destruct (negb (version h =? 1)); [reflexivity |].
  destruct ((msg_type h <? 1) || (4 <? msg_type h)); [reflexivity |].
  destruct (1024 <? payload_len h); [reflexivity |].
  destruct (buf_len buf <? _) eqn:E1; [apply Z.ltb_lt in E1; lia |].
  destruct (buf_len (buf ++ extra) <? _) eqn:E2.
  { apply Z.ltb_lt in E2. rewrite buf_len_app in E2. unfold buf_len at 2 in E2. lia. }
  destruct crc_on; [| reflexivity].
  unfold buf_len in Hlen.
  rewrite bytes_at_app by lia. rewrite take_app_le by lia. reflexivity.
Qed.

Lemma parse_frame_trailing_bytes_witness :
  fst (parse_frame (track_frame x01) false (ParsedFrame_init header0)) = ParseError.OK /\
  parse_frame (track_frame x01 ++ [xff; xff; xff]) false (ParsedFrame_init header0) =
  parse_frame (track_frame x01) false (ParsedFrame_init header0).
Proof.
  assert (H : fst (parse_frame (track_frame x01) false (ParsedFrame_init header0))
              = ParseError.OK) by (vm_compute; reflexivity).
  split; [exact H |].
  exact (parse_frame_trailing_bytes (track_frame x01) [xff; xff; xff] false
           (ParsedFrame_init header0) H).
Defined.

(** X14.  With the CRC policy on, a well-formed header and payload followed
    by four bytes parses OK exactly when the four bytes are the
    little-endian CRC-32 of header and payload, and is CRC_MISMATCH for any
    other four bytes; appending the CRC the way the tests build a frame
    gives OK. *)
Theorem parse_frame_crc_trailer (body trailer : list byte) (out : ParsedFrame) :
  fst (parse_frame body false out) = ParseError.OK ->
  buf_len body = FRAME_HEADER_SIZE + payload_len (deserialize_header body) ->
  length trailer = 4%nat ->
  fst (parse_frame (body ++ trailer) true out) =
    (if crc32 body =? le_combine trailer then ParseError.OK else ParseError.CRC_MISMATCH) /\
  fst (parse_frame (body ++ le_split 4 (crc32 body)) true out) = ParseError.OK.
Proof.
  intros Hok Hbody Htr. unfold FRAME_HEADER_SIZE in Hbody.
  destruct (parse_frame_ok_inv body false out Hok) as (Hh & Hv & Hm & Hp & _).
  rewrite Hh in Hv, Hm, Hp.
  assert (G : forall tr : list byte, length tr = 4%nat ->
            fst (parse_frame (body ++ tr) true out) =
            (if crc32 body =? le_combine tr then ParseError.OK
             else ParseError.CRC_MISMATCH)).
  { intros tr Hlen.
    assert (H18 : FRAME_HEADER_SIZE <= buf_len body) by (unfold FRAME_HEADER_SIZE; lia).
    assert (H18' : FRAME_HEADER_SIZE <= buf_len (body ++ tr)).
    { rewrite buf_len_app. unfold buf_len at 2. lia. }
    rewrite (parse_frame_by_header _ true out H18'). cbv zeta.
    rewrite (deserialize_header_app body tr H18).
    set (h := deserialize_header body) in *.
    rewrite Hv. simpl negb.
    destruct ((msg_type h <? 1) || (4 <? msg_type h)) eqn:Em.
    { apply orb_true_iff in Em as [Em | Em]; apply Z.ltb_lt in Em; lia. }
    destruct (1024 <? payload_len h) eqn:Ep; [apply Z.ltb_lt in Ep; lia |].
    destruct (buf_len (body ++ tr) <? _) eqn:Et.
    { apply Z.ltb_lt in Et. rewrite buf_len_app in Et. unfold buf_len at 2 in Et. lia. }
    cbn [fst].
    assert (Hn : Z.to_nat (18 + payload_len h) = length body).
    { unfold buf_len in Hbody. lia. }
    rewrite Hn, take_app_length.
    unfold bytes_at. rewrite drop_app_length.
    rewrite take_ge by lia. reflexivity. }
  split; [by apply G |].
  rewrite G by apply length_le_split.
  rewrite le_combine_le_split.
  change (2 ^ (8 * Z.of_nat 4)) with (2 ^ 32).
  rewrite Z.mod_small by apply crc32_u32.
  by rewrite Z.eqb_refl.
Qed.

Lemma parse_frame_crc_trailer_witness :
  fst (parse_frame (track_frame x01) false (ParsedFrame_init header0)) = ParseError.OK /\
  buf_len (track_frame x01) =
    FRAME_HEADER_SIZE + payload_len (deserialize_header (track_frame x01)) /\
  length [x00; x00; x00; x00] = 4%nat /\
  fst (parse_frame (track_frame x01 ++ [x00; x00; x00; x00]) true
                   (ParsedFrame_init header0)) =
    (if crc32 (track_frame x01) =? le_combine [x00; x00; x00; x00]
     then ParseError.OK else ParseError.CRC_MISMATCH) /\
  fst (parse_frame (track_frame x01 ++ le_split 4 (crc32 (track_frame x01))) true
                   (ParsedFrame_init header0)) = ParseError.OK.
Proof.
  assert (H1 : fst (parse_frame (track_frame x01) false (ParsedFrame_init header0))
               = ParseError.OK) by (vm_compute; reflexivity).
  assert (H2 : buf_len (track_frame x01) =
               FRAME_HEADER_SIZE + payload_len (deserialize_header (track_frame x01)))
    by (vm_compute; reflexivity).
  assert (H3 : length [x00; x00; x00; x00] = 4%nat) by reflexivity.
  split; [exact H1 | split; [exact H2 | split; [exact H3 |]]].
  exact (parse_frame_crc_trailer (track_frame x01) [x00; x00; x00; x00]
           (ParsedFrame_init header0) H1 H2 H3).
Defined.

(** ** Measurement generator *)

Lemma build_frame_parse_off (g : MeasurementGenerator) (type : Z)
    (payload : list byte) (ts : Z) (out : ParsedFrame) :
  is_u16 (src_id_ g) -> is_u32 (seq_ g) -> is_u64 ts ->
  1 <= type <= 4 -> (length payload <= 1024)%nat ->
  parse_frame (fst (build_frame g type payload ts)) false out =
    (ParseError.OK,
     mkParsedFrame
       (mkTelemetryHeader 1 type (src_id_ g) (seq_ g) ts (Z.of_nat (length payload)))
       (Some 18) 0 false).
Proof.
  intros Hsrc Hseq Hts Hty Hlen.
  assert (Hw : wrap8 type = type) by (unfold wrap8; apply Z.mod_small; lia).
  set (h := mkTelemetryHeader 1 type (src_id_ g) (seq_ g) ts (Z.of_nat (length payload))).
  set (frame := fst (build_frame g type payload ts)).
  assert (Hf : frame = serialize_header h ++ payload).
  { unfold frame, build_frame. cbn [fst]. rewrite Hw. reflexivity. }
  assert (Hwf : TelemetryHeader_wf h).
  { unfold TelemetryHeader_wf, h, is_u8, is_u16. simpl.
    repeat split; try apply Hsrc; try apply Hseq; try apply Hts; lia. }
  pose proof (deserialize_serialize_header h payload Hwf) as Hd.
  assert (Hl : buf_len (serialize_header h) = FRAME_HEADER_SIZE) by reflexivity.
  assert (H18 : FRAME_HEADER_SIZE <= buf_len frame).
  { rewrite Hf, buf_len_app, Hl. unfold buf_len. lia. }
  assert (Hbl : buf_len frame = 18 + Z.of_nat (length payload)).
  { rewrite Hf, buf_len_app, Hl. reflexivity. }
  rewrite (parse_frame_by_header frame _ out H18). cbv zeta.
  replace (deserialize_header frame) with h by (rewrite Hf; symmetry; exact Hd).
  cbn [version msg_type payload_len h]. rewrite Hbl.
  destruct ((type <? 1) || (4 <? type)) eqn:Em.
  { apply orb_true_iff in Em as [Em | Em]; apply Z.ltb_lt in Em; lia. }
  destruct (1024 <? Z.of_nat (length payload)) eqn:Ep; [apply Z.ltb_lt in Ep; lia |].
  simpl negb. cbv iota.
  by rewrite Z.add_0_r, Z.ltb_irrefl.
Qed.

(** X15.  A frame [build_frame] makes, for a message type in 1..4 and a
    payload of at most 1024 bytes, parses OK when the CRC policy is off,
    with the generator's source id and sequence number, the caller's
    timestamp and the payload length in the header; the generator appends
    no CRC, so with the policy on (the default of the gateway) the same
    frame is TRUNCATED.  The sequence counter goes up by one, modulo
    2^32. *)
Theorem build_frame_parses (g : MeasurementGenerator) (type : Z)
    (payload : list byte) (ts : Z) (out : ParsedFrame) :
  is_u16 (src_id_ g) -> is_u32 (seq_ g) -> is_u64 ts ->
  1 <= type <= 4 -> (length payload <= 1024)%nat ->
  let frame := fst (build_frame g type payload ts) in
  parse_frame frame false out =
    (ParseError.OK,
     mkParsedFrame
       (mkTelemetryHeader 1 type (src_id_ g) (seq_ g) ts (Z.of_nat (length payload)))
       (Some 18) 0 false) /\
  fst (parse_frame frame true out) = ParseError.TRUNCATED /\
  drop 18 frame = payload /\
  seq_ (snd (build_frame g type payload ts)) = wrap32 (seq_ g + 1) /\
  src_id_ (snd (build_frame g type payload ts)) = src_id_ g.
Proof.
  intros Hsrc Hseq Hts Hty Hlen frame.
  assert (Hw : wrap8 type = type) by (unfold wrap8; apply Z.mod_small; lia).
  set (h := mkTelemetryHeader 1 type (src_id_ g) (seq_ g) ts (Z.of_nat (length payload))).
  assert (Hf : frame = serialize_header h ++ payload).
  { unfold frame, build_frame. cbn [fst]. rewrite Hw. reflexivity. }
  assert (Hwf : TelemetryHeader_wf h).
  { unfold TelemetryHeader_wf, h, is_u8, is_u16. simpl.
    repeat split; try apply Hsrc; try apply Hseq; try apply Hts; lia. }
  pose proof (deserialize_serialize_header h payload Hwf) as Hd.
  assert (Hl : buf_len (serialize_header h) = FRAME_HEADER_SIZE) by reflexivity.
  assert (H18 : FRAME_HEADER_SIZE <= buf_len frame).
  { rewrite Hf, buf_len_app, Hl. unfold buf_len. lia. }
  assert (Hbl : buf_len frame = 18 + Z.of_nat (length payload)).
  { rewrite Hf, buf_len_app, Hl. reflexivity. }
  rewrite !(parse_frame_by_header frame _ out H18). cbv zeta.
  replace (deserialize_header frame) with h by (rewrite Hf; symmetry; exact Hd).
  cbn [version msg_type payload_len h]. rewrite Hbl.
  destruct ((type <? 1) || (4 <? type)) eqn:Em.
  { apply orb_true_iff in Em as [Em | Em]; apply Z.ltb_lt in Em; lia. }
  destruct (1024 <? Z.of_nat (length payload)) eqn:Ep; [apply Z.ltb_lt in Ep; lia |].
  simpl negb. cbv iota.
  rewrite Z.add_0_r, Z.ltb_irrefl.
  destruct (18 + Z.of_nat (length payload) <? 18 + Z.of_nat (length payload) + 4) eqn:Et;
    [| apply Z.ltb_ge in Et; lia].
  repeat split.
Qed.

Lemma build_frame_parses_witness :
  is_u16 (src_id_ generator7) /\ is_u32 (seq_ generator7) /\ is_u64 5 /\
  1 <= 4 <= 4 /\ (length (serialize_engagement engagement1) <= 1024)%nat /\
  let frame := fst (build_frame generator7 4 (serialize_engagement engagement1) 5) in
  parse_frame frame false (ParsedFrame_init header0) =
    (ParseError.OK,
     mkParsedFrame
       (mkTelemetryHeader 1 4 (src_id_ generator7) (seq_ generator7) 5
          (Z.of_nat (length (serialize_engagement engagement1))))
       (Some 18) 0 false) /\
  fst (parse_frame frame true (ParsedFrame_init header0)) = ParseError.TRUNCATED /\
  drop 18 frame = serialize_engagement engagement1 /\
  seq_ (snd (build_frame generator7 4 (serialize_engagement engagement1) 5)) =
    wrap32 (seq_ generator7 + 1) /\
  src_id_ (snd (build_frame generator7 4 (serialize_engagement engagement1) 5)) =
    src_id_ generator7.
Proof.
  assert (H1 : is_u16 (src_id_ generator7)) by (unfold is_u16; simpl; lia).
  assert (H2 : is_u32 (seq_ generator7)) by (unfold is_u32; simpl; lia).
  assert (H3 : is_u64 5) by (unfold is_u64; lia).
  assert (H4 : 1 <= 4 <= 4) by lia.
  assert (H5 : (length (serialize_engagement engagement1) <= 1024)%nat) by (simpl; lia).
  split; [exact H1 | split; [exact H2 | split; [exact H3 | split; [exact H4 |
    split; [exact H5 |]]]]].
  exact (build_frame_parses generator7 4 (serialize_engagement engagement1) 5
           (ParsedFrame_init header0) H1 H2 H3 H4 H5).
Defined.

(** ** Statistics aggregator, further *)

Lemma sum_sources_insert (f : SourceStats -> Z) (m : gmap Z SourceStats) (i : Z)
    (s' : SourceStats) :
  sum_sources f (<[i := s']> m) =
  sum_sources f m - (match m !! i with Some s => f s | None => 0 end) + f s'.
Proof.
  unfold sum_sources.
  assert (Hc : forall (m' : gmap Z SourceStats) (j1 j2 : Z) (z1 z2 : SourceStats) (y : Z),
             j1 <> j2 -> m' !! j1 = Some z1 -> m' !! j2 = Some z2 ->
             f z1 + (f z2 + y) = f z2 + (f z1 + y)) by (intros; lia).
  destruct (m !! i) as [s |] eqn:E.
  - rewrite (map_fold_delete_L _ 0 i s m (Hc m) E).
    rewrite <- (insert_delete_eq m i s').
    rewrite (map_fold_insert_L _ 0 i s' (delete i m) (Hc _) (lookup_delete_eq m i)).
    lia.
  - rewrite (map_fold_insert_L _ 0 i s' m (Hc _) E). lia.
Qed.

Lemma sum_sources_empty (f : SourceStats -> Z) : sum_sources f ∅ = 0.
Proof. unfold sum_sources. apply map_fold_empty. Qed.

Lemma get_or_create_source_old (f : SourceStats -> Z) (m : gmap Z SourceStats) (i : Z) :
  f (mkSourceStats i 0 0 0 0 0 0 0) = 0 ->
  f (get_or_create_source m i) = match m !! i with Some s => f s | None => 0 end.
Proof. intros H0. unfold get_or_create_source. by destruct (m !! i). Qed.

Ltac old_counter :=
  rewrite ?(get_or_create_source_old rx_count), ?(get_or_create_source_old malformed),
    ?(get_or_create_source_old gaps), ?(get_or_create_source_old reorders),
    ?(get_or_create_source_old duplicates) by reflexivity.

Lemma stats_apply_balanced (st : StatsManager) (op : StatsOp) :
  stats_balanced st -> stats_balanced (stats_apply st op).
Proof.
  unfold stats_balanced. cbv zeta.
  intros ((U1 & U2 & U3 & U4 & U5 & U6) & H1 & H2 & H3 & H4 & H5).
  destruct op; unfold stats_apply, record_rx, record_malformed, record_gap,
    record_reorder, record_duplicate, record_crc_fail, update_source;
    cbv zeta;
    cbn [global_ sources_ rx_total malformed_total gap_total reorder_total
         duplicate_total crc_fail_total];
    rewrite !sum_sources_insert;
    cbn [rx_count malformed gaps reorders duplicates];
    old_counter;
    destruct (sources_ st !! i) as [s |];
    (split; [repeat split; try apply wrap64_u64; try apply U1; try apply U2;
             try apply U3; try apply U4; try apply U5; try apply U6 |]);
    unfold wrap64 in *; repeat split;
    Z.div_mod_to_equations; lia.
Qed.

Lemma stats_new_balanced : stats_balanced StatsManager_new.
Proof.
  unfold stats_balanced, StatsManager_new. cbv zeta. simpl.
  rewrite !sum_sources_empty. unfold is_u64. repeat split; lia.
Qed.

Lemma stats_run_balanced (ops : list StatsOp) (st : StatsManager) :
  stats_balanced st -> stats_balanced (stats_run st ops).
Proof.
  revert st. induction ops as [| op ops IH]; intros st H; [exact H |].
  simpl. apply IH, stats_apply_balanced, H.
Qed.

(** X16.  After any history of mutator calls on a new aggregator the global
    counters are the sums of the per-source counters, modulo 2^64:
    [rx_total], [gap_total], [reorder_total] and [duplicate_total] each of
    its per-source counter, and [malformed_total + crc_fail_total] of the
    per-source [malformed], which counts both kinds. *)
Theorem stats_totals_are_sums (ops : list StatsOp) :
  let st := stats_run StatsManager_new ops in
  let g := global_ st in
  let m := sources_ st in
  rx_total g = wrap64 (sum_sources rx_count m) /\
  gap_total g = wrap64 (sum_sources gaps m) /\
  reorder_total g = wrap64 (sum_sources reorders m) /\
  duplicate_total g = wrap64 (sum_sources duplicates m) /\
  wrap64 (malformed_total g + crc_fail_total g) = wrap64 (sum_sources malformed m).
Proof.
  intros st g m.
  destruct (stats_run_balanced ops _ stats_new_balanced)
    as ((U1 & U2 & U3 & U4 & U5 & U6) & H1 & H2 & H3 & H4 & H5).
  fold st in U1, U2, U3, U4, U5, U6, H1, H2, H3, H4, H5.
  fold g in U1, U2, U3, U4, U5, U6, H1, H2, H3, H4, H5.
  fold m in H1, H2, H3, H4, H5.
  unfold wrap64, is_u64 in *.
  repeat split; Z.div_mod_to_equations; lia.
Qed.

Lemma get_or_create_source_wf (m : gmap Z SourceStats) (i : Z) :
  (forall s, m !! i = Some s -> SourceStats_wf i s) ->
  SourceStats_wf i (get_or_create_source m i).
Proof.
  intros H. unfold get_or_create_source. destruct (m !! i) as [s |].
  - by apply H.
  - unfold SourceStats_wf, is_u64. simpl. repeat split; lia.
Qed.

Lemma stats_apply_entries_wf (st : StatsManager) (op : StatsOp) :
  (forall j s, sources_ st !! j = Some s -> SourceStats_wf j s) ->
  forall j s, sources_ (stats_apply st op) !! j = Some s -> SourceStats_wf j s.
Proof.
  intros Hwf j s Hl.
  destruct (decide (op_source op = j)) as [Heq | Hne].
  - pose proof (get_or_create_source_wf (sources_ st) j (Hwf j))
      as (W0 & W1 & W2 & W3 & W4 & W5).
    destruct op; simpl in Heq; subst j; simpl in Hl;
      rewrite lookup_insert_eq in Hl; injection Hl as <-;
      unfold SourceStats_wf; simpl; repeat split;
      try apply wrap64_u64; try assumption; try apply W1; try apply W2;
      try apply W3; try apply W4; try apply W5.
  - apply Hwf. rewrite <- Hl.
    destruct op; simpl in Hne |- *; by rewrite lookup_insert_ne.
Qed.

Lemma stats_run_entries_wf (ops : list StatsOp) :
  forall st : StatsManager,
    (forall j x, sources_ st !! j = Some x -> SourceStats_wf j x) ->
    forall j x, sources_ (stats_run st ops) !! j = Some x -> SourceStats_wf j x.
Proof.
  induction ops as [| op ops IH]; intros st Hwf; [exact Hwf |].
  simpl. apply IH. by apply stats_apply_entries_wf.
Qed.

(** A source that has an entry with every counter zero is told from a
    source without entry by the [src_id] of what [get_source_stats]
    returns: after [record_gap(5, 0)] source 5 has an entry, every counter
    of it is 0, and the lookup returns [src_id] 5, where it returned 0 on
    the new aggregator. *)
Lemma unknown_source_distinguishable :
  sources_ StatsManager_new !! 5 = None /\
  sources_ (record_gap StatsManager_new 5 0) !! 5 = Some (mkSourceStats 5 0 0 0 0 0 0 0) /\
  get_source_stats StatsManager_new 5 = mkSourceStats 0 0 0 0 0 0 0 0 /\
  get_source_stats (record_gap StatsManager_new 5 0) 5 <> get_source_stats StatsManager_new 5 /\
  ~ unknown_source_indistinguishable.
Proof.
  assert (D : get_source_stats (record_gap StatsManager_new 5 0) 5 <>
              get_source_stats StatsManager_new 5) by (vm_compute; discriminate).
  split; [reflexivity |]. split; [vm_compute; reflexivity |].
  split; [reflexivity |]. split; [exact D |].
  intros U. apply D.
  apply (U [] [OpGap 5 0] 5 (mkSourceStats 5 0 0 0 0 0 0 0)).
  - unfold is_u16. lia.
  - reflexivity.
  - vm_compute. reflexivity.
  - reflexivity.
Qed.

(** C10, as amended.  For an id with no entry, [get_source_stats] returns
    the default-constructed [SourceStats]: every counter 0 and [src_id] 0.
    It is a [const] lookup that signals nothing, so the counters returned
    are those returned for any source that has an entry with every counter
    0.  The whole value is another matter: in every state the mutators
    reach, the entry of a known source carries its own id in [src_id], so
    what is returned for it equals what is returned for the unknown id
    exactly when the id is 0 and the entry holds zeros throughout; there
    is such a state (after [record_gap(0, 0)]). *)
Theorem get_source_stats_unknown (st : StatsManager) (i : Z) :
  sources_ st !! i = None ->
  get_source_stats st i = mkSourceStats 0 0 0 0 0 0 0 0 /\
  (forall (st2 : StatsManager) (j : Z) (s : SourceStats),
     sources_ st2 !! j = Some s -> counters s = [0; 0; 0; 0; 0] ->
     counters (get_source_stats st2 j) = counters (get_source_stats st i)) /\
  (forall (ops : list StatsOp) (s : SourceStats),
     sources_ (stats_run StatsManager_new ops) !! i = Some s ->
     src_id (get_source_stats (stats_run StatsManager_new ops) i) = i /\
     (get_source_stats (stats_run StatsManager_new ops) i = get_source_stats st i <->
      i = 0 /\ counters s = [0; 0; 0; 0; 0] /\ last_seq s = 0 /\ last_ts_ns s = 0)) /\
  (exists st2 : StatsManager,
     is_Some (sources_ st2 !! 0) /\ get_source_stats st2 0 = get_source_stats st i).
Proof.
  intros Hnone.
  assert (E : get_source_stats st i = mkSourceStats 0 0 0 0 0 0 0 0).
  { unfold get_source_stats. by rewrite Hnone. }
  split; [exact E |]. split; [| split].
  - intros st2 j s Hs Hc. unfold get_source_stats at 1. rewrite Hs, Hc, E. reflexivity.
  - intros ops s Hs.
    assert (Hid : src_id s = i).
    { eapply (stats_run_entries_wf ops StatsManager_new); [| exact Hs].
      intros j x Hx. simpl in Hx. rewrite lookup_empty in Hx. discriminate. }
    assert (G : get_source_stats (stats_run StatsManager_new ops) i = s).
    { unfold get_source_stats. by rewrite Hs. }
    rewrite G, E. split; [exact Hid |]. split.
    + intros ->. simpl in Hid. by subst i.
    + intros (-> & Hc & Hq & Ht). destruct s as [a b c d e f g h].
      unfold counters in Hc. simpl in *. congruence.
  - exists (record_gap StatsManager_new 0 0). rewrite E. split.
    + eexists. vm_compute. reflexivity.
    + vm_compute. reflexivity.
Qed.

Lemma get_source_stats_unknown_witness :
  sources_ StatsManager_new !! 999 = None /\
  get_source_stats StatsManager_new 999 = mkSourceStats 0 0 0 0 0 0 0 0 /\
  (forall (st2 : StatsManager) (j : Z) (s : SourceStats),
     sources_ st2 !! j = Some s -> counters s = [0; 0; 0; 0; 0] ->
     counters (get_source_stats st2 j) = counters (get_source_stats StatsManager_new 999)) /\
  (forall (ops : list StatsOp) (s : SourceStats),
     sources_ (stats_run StatsManager_new ops) !! 999 = Some s ->
     src_id (get_source_stats (stats_run StatsManager_new ops) 999) = 999 /\
     (get_source_stats (stats_run StatsManager_new ops) 999 =
      get_source_stats StatsManager_new 999 <->
      999 = 0 /\ counters s = [0; 0; 0; 0; 0] /\ last_seq s = 0 /\ last_ts_ns s = 0)) /\
  (exists st2 : StatsManager,
     is_Some (sources_ st2 !! 0) /\
     get_source_stats st2 0 = get_source_stats StatsManager_new 999).
Proof.
  assert (H : sources_ StatsManager_new !! 999 = None) by reflexivity.
  split; [exact H |].
  exact (get_source_stats_unknown StatsManager_new 999 H).
Defined.

(** X17.  In every state the mutators reach from a new aggregator, the
    entry stored for a source carries that source's id in [src_id], and its
    five counters are 64-bit values: [get_source_stats] of a known source
    never returns another source's id. *)
Theorem stats_entries_keyed (ops : list StatsOp) (i : Z) (s : SourceStats) :
  sources_ (stats_run StatsManager_new ops) !! i = Some s ->
  src_id s = i /\ is_u64 (rx_count s) /\ is_u64 (malformed s) /\ is_u64 (gaps s) /\
  is_u64 (reorders s) /\ is_u64 (duplicates s) /\
  get_source_stats (stats_run StatsManager_new ops) i = s.
Proof.
  intros Hl.
  assert (G : forall (l : list StatsOp) (st : StatsManager),
            (forall j x, sources_ st !! j = Some x -> SourceStats_wf j x) ->
            forall j x, sources_ (stats_run st l) !! j = Some x -> SourceStats_wf j x).
  { induction l as [| op l IH]; intros st H; [exact H |].
    simpl. apply IH. by apply stats_apply_entries_wf. }
  destruct (G ops StatsManager_new) with (j := i) (x := s)
    as (H0 & H1 & H2 & H3 & H4 & H5); [| exact Hl |].
  { intros j x Hx. simpl in Hx. rewrite lookup_empty in Hx. discriminate. }
  repeat split; try assumption; try apply H1; try apply H2; try apply H3;
    try apply H4; try apply H5.
  unfold get_source_stats. by rewrite Hl.
Qed.

Lemma stats_entries_keyed_witness :
  sources_ (stats_run StatsManager_new [OpRx 4 10 99; OpGap 4 3; OpCrcFail 0]) !! 4
    = Some (mkSourceStats 4 1 0 3 0 0 10 99) /\
  src_id (mkSourceStats 4 1 0 3 0 0 10 99) = 4 /\
  is_u64 (rx_count (mkSourceStats 4 1 0 3 0 0 10 99)) /\
  is_u64 (malformed (mkSourceStats 4 1 0 3 0 0 10 99)) /\
  is_u64 (gaps (mkSourceStats 4 1 0 3 0 0 10 99)) /\
  is_u64 (reorders (mkSourceStats 4 1 0 3 0 0 10 99)) /\
  is_u64 (duplicates (mkSourceStats 4 1 0 3 0 0 10 99)) /\
  get_source_stats (stats_run StatsManager_new [OpRx 4 10 99; OpGap 4 3; OpCrcFail 0]) 4
    = mkSourceStats 4 1 0 3 0 0 10 99.
Proof.
  assert (H : sources_ (stats_run StatsManager_new [OpRx 4 10 99; OpGap 4 3; OpCrcFail 0])
              !! 4 = Some (mkSourceStats 4 1 0 3 0 0 10 99)) by (vm_compute; reflexivity).
  split; [exact H |].
  exact (stats_entries_keyed [OpRx 4 10 99; OpGap 4 3; OpCrcFail 0] 4 _ H).
Defined.

(** A mutator touches the entry of the source it is called for and no
    other: what [get_source_stats] returns for any other source is what it
    returned before, and the source of the call has an entry afterwards. *)
Theorem stats_apply_other_source (st : StatsManager) (op : StatsOp) (j : Z) :
  op_source op <> j ->
  get_source_stats (stats_apply st op) j = get_source_stats st j /\
  sources_ (stats_apply st op) !! j = sources_ st !! j /\
  is_Some (sources_ (stats_apply st op) !! op_source op).
Proof.
  intros Hne.
  assert (Hl : sources_ (stats_apply st op) !! j = sources_ st !! j).
  { destruct op; simpl in Hne |- *; by rewrite lookup_insert_ne. }
  split; [| split; [exact Hl |]].
  - unfold get_source_stats. by rewrite Hl.
  - destruct op; simpl; rewrite lookup_insert_eq; by eexists.
Qed.

Lemma stats_apply_other_source_witness :
  op_source (OpMalformed 3) <> 8 /\
  get_source_stats (stats_apply (record_rx StatsManager_new 8 1 2) (OpMalformed 3)) 8 =
    get_source_stats (record_rx StatsManager_new 8 1 2) 8 /\
  sources_ (stats_apply (record_rx StatsManager_new 8 1 2) (OpMalformed 3)) !! 8 =
    sources_ (record_rx StatsManager_new 8 1 2) !! 8 /\
  is_Some (sources_ (stats_apply (record_rx StatsManager_new 8 1 2) (OpMalformed 3))
             !! op_source (OpMalformed 3)).
Proof.
  assert (H : op_source (OpMalformed 3) <> 8) by (simpl; lia).
  split; [exact H |].
  exact (stats_apply_other_source (record_rx StatsManager_new 8 1 2) (OpMalformed 3) 8 H).
Defined.

(** X18.  Health never improves under the mutators while the counters have
    room: no call lowers the health, [record_malformed] and
    [record_crc_fail] make it ERROR, [record_rx] and [record_duplicate]
    leave it as it is, and only [reset] brings it back to OK. *)
Theorem health_never_improves (st : StatsManager) (op : StatsOp) :
  stats_headroom st -> op_gap_u32 op ->
  health_rank (get_health st) <= health_rank (get_health (stats_apply st op)) /\
  (match op with
   | OpMalformed _ | OpCrcFail _ => get_health (stats_apply st op) = HealthState.ERROR
   | OpRx _ _ _ | OpDuplicate _ => get_health (stats_apply st op) = get_health st
   | _ => True
   end) /\
  get_health (stats_reset (stats_apply st op)) = HealthState.OK.
Proof.
  unfold stats_headroom. cbv zeta.
  intros (H1 & H2 & H3 & H4 & H5 & H6) Hgap.
  assert (Hw : forall x k, 0 <= x < 2 ^ 64 - 2 ^ 32 -> 0 <= k < 2 ^ 32 ->
                           wrap64 (x + k) = x + k).
  { intros x k Hx Hk. apply wrap64_small. unfold is_u64. lia. }
  split; [| split; [| reflexivity]].
  - destruct op; unfold get_health, stats_apply, record_rx, record_malformed,
      record_gap, record_reorder, record_duplicate, record_crc_fail, update_source;
      cbv zeta;
      cbn [global_ rx_total malformed_total gap_total reorder_total
           duplicate_total crc_fail_total];
      rewrite ?Hw by (assumption || lia);
      repeat match goal with
             | |- context [0 <? ?x] =>
                 let E := fresh "E" in
                 destruct (Z.ltb_spec 0 x) as [E | E]
             end; simpl; try lia; simpl in Hgap; unfold is_u32 in Hgap; lia.
  - destruct op; try exact I; unfold get_health, stats_apply, record_rx,
      record_malformed, record_duplicate, record_crc_fail, update_source;
      cbv zeta;
      cbn [global_ rx_total malformed_total gap_total reorder_total
           duplicate_total crc_fail_total];
      rewrite ?Hw by (assumption || lia); try reflexivity.
    + destruct (Z.ltb_spec 0 (malformed_total (global_ st) + 1)); [reflexivity | lia].
    + destruct (Z.ltb_spec 0 (crc_fail_total (global_ st) + 1)); [| lia].
      by rewrite orb_true_r.
Qed.

Lemma health_never_improves_witness :
  stats_headroom (record_gap StatsManager_new 2 5) /\ op_gap_u32 (OpCrcFail 2) /\
  health_rank (get_health (record_gap StatsManager_new 2 5)) <=
    health_rank (get_health (stats_apply (record_gap StatsManager_new 2 5) (OpCrcFail 2))) /\
  get_health (stats_apply (record_gap StatsManager_new 2 5) (OpCrcFail 2))
    = HealthState.ERROR /\
  get_health (stats_reset (stats_apply (record_gap StatsManager_new 2 5) (OpCrcFail 2)))
    = HealthState.OK.
Proof.
  assert (H1 : stats_headroom (record_gap StatsManager_new 2 5)).
  { unfold stats_headroom. cbv zeta.
    repeat split; vm_compute; (reflexivity || discriminate). }
  assert (H2 : op_gap_u32 (OpCrcFail 2)) by exact I.
  split; [exact H1 | split; [exact H2 |]].
  exact (health_never_improves (record_gap StatsManager_new 2 5) (OpCrcFail 2) H1 H2).
Defined.

(** ** Gateway orchestrator, further *)

Ltac more_events :=
  first [ exists []; split; [symmetry; apply app_nil_r | simpl; lia]
        | eexists; split; [reflexivity | simpl; lia] ].

Lemma handle_payload_keeps (gw : Gateway) (frame : list byte) (parsed : ParsedFrame) :
  stats_ (handle_payload gw frame parsed) = stats_ gw /\
  tracker_ (handle_payload gw frame parsed) = tracker_ gw /\
  recorded (handle_payload gw frame parsed) = recorded gw /\
  same_config (handle_payload gw frame parsed) gw /\
  published_more 1 gw (handle_payload gw frame parsed).
Proof.
  unfold handle_payload, same_config, published_more. cbv zeta.
  repeat match goal with
         | |- context [if ?c then _ else _] => destruct c
         end; simpl; repeat split; more_events.
Qed.

Lemma handle_seq_result_keeps (gw : Gateway) (h : TelemetryHeader) (ev : SeqEvent) :
  tracker_ (handle_seq_result gw h ev) = tracker_ gw /\
  recorded (handle_seq_result gw h ev) = recorded gw /\
  same_config (handle_seq_result gw h ev) gw /\
  published_more 1 gw (handle_seq_result gw h ev) /\
  stats_ (handle_seq_result gw h ev) =
    match result ev with
    | SeqResult.GAP => record_gap (stats_ gw) (hdr_src_id h) (gap_size ev)
    | SeqResult.REORDER => record_reorder (stats_ gw) (hdr_src_id h)
    | SeqResult.DUPLICATE => record_duplicate (stats_ gw) (hdr_src_id h)
    | _ => stats_ gw
    end.
Proof.
  unfold handle_seq_result, same_config, published_more.
  destruct (result ev); simpl; repeat split; more_events.
Qed.

(** The gateway after a frame that parsed, member by member. *)
Lemma handle_parsed_keeps (gw : Gateway) (frame : list byte) (parsed : ParsedFrame)
    (ts : Z) :
  let h := header parsed in
  let r := track (tracker_ gw) (hdr_src_id h) (hdr_seq h) in
  let gw' := handle_parsed gw frame parsed ts in
  tracker_ gw' = snd r /\
  stats_ gw' =
    (let st := record_rx (stats_ gw) (hdr_src_id h) (hdr_seq h) ts in
     match result (fst r) with
     | SeqResult.GAP => record_gap st (hdr_src_id h) (gap_size (fst r))
     | SeqResult.REORDER => record_reorder st (hdr_src_id h)
     | SeqResult.DUPLICATE => record_duplicate st (hdr_src_id h)
     | _ => st
     end) /\
  recorded gw' = recorded gw /\ same_config gw' gw /\ published_more 2 gw gw'.
Proof.
  intros h r gw'. unfold gw', handle_parsed. fold h. fold r.
  destruct r as [ev t'] eqn:Er. cbv zeta.
  set (g1 := with_stats (with_tracker gw t') _).
  destruct (handle_seq_result_keeps g1 h ev) as (T1 & R1 & (C1 & C2 & C3) & (e1 & P1 & L1) & S1).
  destruct (handle_payload_keeps (handle_seq_result g1 h ev) frame parsed)
    as (S2 & T2 & R2 & (D1 & D2 & D3) & (e2 & P2 & L2)).
  rewrite S2, T2, R2, S1, T1, R1. unfold same_config.
  rewrite D1, D2, D3, C1, C2, C3. cbn [fst snd].
  repeat split.
  exists (e1 ++ e2). rewrite P2, P1, length_app. split; [| lia].
  by rewrite <- app_assoc.
Qed.

Lemma handle_parse_error_keeps (gw : Gateway) (err : ParseError.t) :
  let gw' := handle_parse_error gw err in
  tracker_ gw' = tracker_ gw /\ recorded gw' = recorded gw /\ same_config gw' gw /\
  published gw' = published gw ++
    [mkEventRecord (if ParseError.eqb err ParseError.CRC_MISMATCH
                    then EVT_CRC_FAIL else EVT_FRAME_MALFORMED)
                   EventCategory.NETWORK Severity.WARN].
Proof.
  unfold handle_parse_error, same_config. cbv zeta.
  destruct (ParseError.eqb err ParseError.CRC_MISMATCH); simpl; repeat split.
Qed.

Lemma record_if_enabled_fields (gw : Gateway) (frame : list byte) (ts : Z) :
  let gw' := record_if_enabled gw frame ts in
  same_config gw' gw /\ published gw' = published gw /\
  recorded gw' = (if record_enabled gw && recorder_open gw
                  then recorded gw ++ [(ts, frame)] else recorded gw).
Proof.
  unfold record_if_enabled, same_config. cbv zeta.
  destruct (record_enabled gw && recorder_open gw); repeat split.
Qed.

Lemma process_frame_unfold (h0 : TelemetryHeader) (gw : Gateway) (frame : list byte)
    (ts : Z) :
  let gw1 := record_if_enabled gw frame ts in
  let r := parse_frame frame (crc_enabled gw) (ParsedFrame_init h0) in
  process_frame h0 gw frame ts =
  if ParseError.eqb (fst r) ParseError.OK
  then handle_parsed gw1 frame (snd r) ts
  else handle_parse_error gw1 (fst r).
Proof.
  cbv zeta. unfold process_frame.
  destruct (record_if_enabled_keeps gw frame ts) as (Hc & _ & _). rewrite Hc.
  destruct (parse_frame frame (crc_enabled gw) (ParsedFrame_init h0)) as [e p].
  cbn [fst snd]. by destruct (ParseError.eqb e ParseError.OK).
Qed.

Lemma record_ops_keep_counts (st : StatsManager) (i gap : Z) :
  let keeps (st' : StatsManager) :=
    rx_total (global_ st') = rx_total (global_ st) /\
    malformed_total (global_ st') = malformed_total (global_ st) /\
    crc_fail_total (global_ st') = crc_fail_total (global_ st) in
  keeps (record_gap st i gap) /\ keeps (record_reorder st i) /\
  keeps (record_duplicate st i).
Proof. cbv zeta. repeat split. Qed.

(** X19.  Every frame is counted exactly once: a frame that parses adds 1
    to [rx_total] and leaves [malformed_total] and [crc_fail_total] as they
    were, whatever the tracker says about it; a frame that does not parse
    adds 1 to [malformed_total] and leaves [rx_total] and the gap, reorder
    and duplicate totals as they were.  The additions are modulo 2^64. *)
Theorem process_frame_counts_once (h0 : TelemetryHeader) (gw : Gateway)
    (frame : list byte) (ts : Z) :
  let err := fst (parse_frame frame (crc_enabled gw) (ParsedFrame_init h0)) in
  let g := global_ (stats_ gw) in
  let g' := global_ (stats_ (process_frame h0 gw frame ts)) in
  if ParseError.eqb err ParseError.OK then
    rx_total g' = wrap64 (rx_total g + 1) /\
    malformed_total g' = malformed_total g /\ crc_fail_total g' = crc_fail_total g
  else
    rx_total g' = rx_total g /\ malformed_total g' = wrap64 (malformed_total g + 1) /\
    gap_total g' = gap_total g /\ reorder_total g' = reorder_total g /\
    duplicate_total g' = duplicate_total g.
Proof.
  intros err g g'. unfold g', g.
  rewrite process_frame_unfold. cbv zeta. fold err.
  destruct (record_if_enabled_keeps gw frame ts) as (_ & Hs & _).
  destruct (ParseError.eqb err ParseError.OK) eqn:E.
  - destruct (handle_parsed_keeps (record_if_enabled gw frame ts) frame
                (snd (parse_frame frame (crc_enabled gw) (ParsedFrame_init h0))) ts)
      as (_ & Hst & _).
    rewrite Hst, Hs. cbv zeta.
    destruct (result _); repeat split.
  - unfold handle_parse_error. cbv zeta.
    destruct (ParseError.eqb err ParseError.CRC_MISMATCH); simpl; rewrite Hs;
      repeat split.
Qed.

Lemma get_or_create_source_insert (m : gmap Z SourceStats) (i : Z) (s : SourceStats) :
  get_or_create_source (<[i := s]> m) i = s.
Proof. unfold get_or_create_source. by rewrite lookup_insert_eq. Qed.

Lemma get_source_stats_insert (g : GlobalStats) (m : gmap Z SourceStats) (i : Z)
    (s : SourceStats) :
  get_source_stats (mkStatsManager g (<[i := s]> m)) i = s.
Proof. unfold get_source_stats. simpl. by rewrite lookup_insert_eq. Qed.

Lemma seq_stats_source (st : StatsManager) (i seq ts gap : Z) (res : SeqResult.t) :
  let st' := match res with
             | SeqResult.GAP => record_gap (record_rx st i seq ts) i gap
             | SeqResult.REORDER => record_reorder (record_rx st i seq ts) i
             | SeqResult.DUPLICATE => record_duplicate (record_rx st i seq ts) i
             | _ => record_rx st i seq ts
             end in
  is_Some (sources_ st' !! i) /\
  last_seq (get_source_stats st' i) = seq /\
  last_ts_ns (get_source_stats st' i) = ts /\
  rx_count (get_source_stats st' i) = wrap64 (rx_count (get_source_stats st i) + 1) /\
  (forall j, j <> i -> sources_ st' !! j = sources_ st !! j).
Proof.
  assert (Hold : rx_count (get_or_create_source (sources_ st) i) =
                 rx_count (get_source_stats st i)).
  { unfold get_or_create_source, get_source_stats. by destruct (sources_ st !! i). }
  cbv zeta.
  destruct res;
    unfold record_gap, record_reorder, record_duplicate, record_rx, update_source;
    cbn [sources_ global_];
    rewrite ?get_or_create_source_insert, ?get_source_stats_insert;
    cbn [last_seq last_ts_ns rx_count];
    (split; [rewrite lookup_insert_eq; by eexists |]);
    (split; [reflexivity |]); (split; [reflexivity |]);
    (split; [by rewrite Hold |]);
    intros j Hj; rewrite ?lookup_insert_ne by (intros E; apply Hj; by rewrite E);
    reflexivity.
Qed.

(** X20.  For a frame that parses, the gateway advances the tracker by
    [track] on the source id and sequence number of the header, and the
    entry of that source then holds the header's sequence number in
    [last_seq] and the local receive time, not the timestamp of the header,
    in [last_ts_ns]; nothing is recorded against source 0 unless the frame
    is from source 0. *)
Theorem process_frame_success (h0 : TelemetryHeader) (gw : Gateway)
    (frame : list byte) (ts : Z) :
  fst (parse_frame frame (crc_enabled gw) (ParsedFrame_init h0)) = ParseError.OK ->
  let h := deserialize_header frame in
  let gw' := process_frame h0 gw frame ts in
  let s := get_source_stats (stats_ gw') (hdr_src_id h) in
  tracker_ gw' = snd (track (tracker_ gw) (hdr_src_id h) (hdr_seq h)) /\
  is_Some (sources_ (stats_ gw') !! hdr_src_id h) /\
  last_seq s = hdr_seq h /\ last_ts_ns s = ts /\
  rx_count s = wrap64 (rx_count (get_source_stats (stats_ gw) (hdr_src_id h)) + 1) /\
  (forall j, j <> hdr_src_id h ->
     sources_ (stats_ gw') !! j = sources_ (stats_ gw) !! j).
Proof.
  intros Hok h gw' s. unfold s, gw'. clear s gw'.
  rewrite process_frame_unfold. cbv zeta. rewrite Hok. cbn [ParseError.eqb].
  destruct (parse_frame_ok_inv frame (crc_enabled gw) (ParsedFrame_init h0) Hok)
    as (Hh & _).
  destruct (record_if_enabled_keeps gw frame ts) as (_ & Hs & Ht).
  destruct (handle_parsed_keeps (record_if_enabled gw frame ts) frame
              (snd (parse_frame frame (crc_enabled gw) (ParsedFrame_init h0))) ts)
    as (Htr & Hst & _).
  rewrite Htr, Hst, Hs, Ht, Hh. fold h. cbv zeta.
  split; [reflexivity |].
  apply (seq_stats_source (stats_ gw) (hdr_src_id h) (hdr_seq h) ts).
Qed.

Lemma process_frame_success_witness :
  fst (parse_frame (track_frame x01) (crc_enabled (mkGateway false true ∅ StatsManager_new true [] []))
         (ParsedFrame_init header0)) = ParseError.OK /\
  let gw := mkGateway false true ∅ StatsManager_new true [] [] in
  let h := deserialize_header (track_frame x01) in
  let gw' := process_frame header0 gw (track_frame x01) 777 in
  let s := get_source_stats (stats_ gw') (hdr_src_id h) in
  tracker_ gw' = snd (track (tracker_ gw) (hdr_src_id h) (hdr_seq h)) /\
  is_Some (sources_ (stats_ gw') !! hdr_src_id h) /\
  last_seq s = hdr_seq h /\ last_ts_ns s = 777 /\
  rx_count s = wrap64 (rx_count (get_source_stats (stats_ gw) (hdr_src_id h)) + 1) /\
  (forall j, j <> hdr_src_id h ->
     sources_ (stats_ gw') !! j = sources_ (stats_ gw) !! j).
Proof.
  assert (H : fst (parse_frame (track_frame x01)
                     (crc_enabled (mkGateway false true ∅ StatsManager_new true [] []))
                     (ParsedFrame_init header0)) = ParseError.OK)
    by (vm_compute; reflexivity).
  split; [exact H |].
  exact (process_frame_success header0 (mkGateway false true ∅ StatsManager_new true [] [])
           (track_frame x01) 777 H).
Defined.

(** X21.  [process_frame] hands every frame to the recorder before it
    parses it, so malformed frames are recorded too: with recording enabled
    and the file open the record list grows by the frame and its receive
    time, else it stays.  The configuration is not written.  Events are
    only appended, at most two per frame, and a frame that does not parse
    appends exactly one, a NETWORK WARN that is EVT_CRC_FAIL for a CRC
    mismatch and EVT_FRAME_MALFORMED otherwise. *)
Theorem process_frame_records_and_events (h0 : TelemetryHeader) (gw : Gateway)
    (frame : list byte) (ts : Z) :
  let err := fst (parse_frame frame (crc_enabled gw) (ParsedFrame_init h0)) in
  let gw' := process_frame h0 gw frame ts in
  recorded gw' = (if record_enabled gw && recorder_open gw
                  then recorded gw ++ [(ts, frame)] else recorded gw) /\
  same_config gw' gw /\
  published_more 2 gw gw' /\
  (if ParseError.eqb err ParseError.OK then True
   else published gw' = published gw ++
          [mkEventRecord (if ParseError.eqb err ParseError.CRC_MISMATCH
                          then EVT_CRC_FAIL else EVT_FRAME_MALFORMED)
                         EventCategory.NETWORK Severity.WARN]).
Proof.
  intros err gw'. unfold gw'. rewrite process_frame_unfold. cbv zeta. fold err.
  destruct (record_if_enabled_fields gw frame ts) as ((C1 & C2 & C3) & P0 & R0).
  destruct (ParseError.eqb err ParseError.OK).
  - destruct (handle_parsed_keeps (record_if_enabled gw frame ts) frame
                (snd (parse_frame frame (crc_enabled gw) (ParsedFrame_init h0))) ts)
      as (_ & _ & R1 & (D1 & D2 & D3) & (evs & P1 & L1)).
    rewrite R1, R0. unfold same_config. rewrite D1, D2, D3.
    split; [reflexivity | split; [by repeat split | split; [| exact I]]].
    exists evs. by rewrite P1, P0.
  - destruct (handle_parse_error_keeps (record_if_enabled gw frame ts) err)
      as (_ & R1 & (D1 & D2 & D3) & P1).
    rewrite R1, R0. unfold same_config. rewrite D1, D2, D3.
    split; [reflexivity | split; [by repeat split | split]].
    + eexists. rewrite P1, P0. split; [reflexivity | simpl; lia].
    + by rewrite P1, P0.
Qed.

(** ** Generator and gateway together *)

Lemma wrap64_succ_add (x : Z) (n : nat) :
  wrap64 (wrap64 (x + 1) + Z.of_nat n) = wrap64 (x + Z.of_nat (S n)).
Proof.
  unfold wrap64. rewrite Zplus_mod_idemp_l. f_equal. lia.
Qed.

Lemma wrap32_succ_add (x : Z) (n : nat) :
  wrap32 (wrap32 (x + 1) + Z.of_nat n) = wrap32 (x + Z.of_nat (S n)).
Proof.
  unfold wrap32. rewrite Zplus_mod_idemp_l. f_equal. lia.
Qed.

(** One frame of the generator through a gateway whose tracker has not seen
    the source or expects exactly this sequence number. *)
Lemma process_generated_frame (h0 : TelemetryHeader) (g : MeasurementGenerator)
    (gw : Gateway) (type ts : Z) (payload : list byte) (rx : Z) :
  crc_enabled gw = false ->
  is_u16 (src_id_ g) -> is_u32 (seq_ g) -> is_u64 ts ->
  1 <= type <= 4 -> (length payload <= 1024)%nat ->
  (initialized (sources_at (tracker_ gw) (src_id_ g)) = false \/
   (initialized (sources_at (tracker_ gw) (src_id_ g)) = true /\
    next_expected (sources_at (tracker_ gw) (src_id_ g)) = seq_ g)) ->
  let gw' := process_frame h0 gw (fst (build_frame g type payload ts)) rx in
  let G := global_ (stats_ gw) in
  crc_enabled gw' = false /\
  global_ (stats_ gw') =
    mkGlobalStats (wrap64 (rx_total G + 1)) (malformed_total G) (gap_total G)
                  (reorder_total G) (duplicate_total G) (crc_fail_total G) /\
  initialized (sources_at (tracker_ gw') (src_id_ g)) = true /\
  next_expected (sources_at (tracker_ gw') (src_id_ g)) = wrap32 (seq_ g + 1).
Proof.
  intros Hcrc Hsrc Hseq Hts Hty Hlen Htr gw' G. unfold gw', G.
  rewrite process_frame_unfold. cbv zeta. rewrite Hcrc.
  rewrite build_frame_parse_off by assumption. cbn [fst snd ParseError.eqb].
  destruct (record_if_enabled_keeps gw (fst (build_frame g type payload ts)) rx)
    as (Hc & Hs & Ht).
  match goal with
  | |- context [handle_parsed ?a ?b ?c ?d] =>
      destruct (handle_parsed_keeps a b c d) as (T1 & S1 & _ & (C1 & _) & _)
  end.
  cbn [header hdr_src_id hdr_seq] in T1, S1.
  rewrite C1, T1, S1, Hc, Hs, Ht, Hcrc. rewrite track_result, sources_at_track.
  split; [reflexivity |].
  destruct Htr as [Hi | [Hi Hne]].
  - rewrite track_state_first by exact Hi. cbn [fst snd result]. cbv zeta.
    repeat split.
  - rewrite track_state_eq by (assumption || (symmetry; assumption)).
    cbn [fst snd result]. cbv zeta. repeat split.
Qed.

(** X22.  Generator, parser, tracker and statistics together: a gateway
    with the CRC policy off whose tracker has not seen the source receives
    [n] frames built in a row by one generator (any message type in 1..4,
    payloads of at most 1024 bytes).  All [n] are counted in [rx_total],
    nothing is counted as malformed, CRC failure, gap, reorder or
    duplicate, so the health is what it was; the generator's counter has
    advanced by [n] modulo 2^32 and, when [n > 0], the tracker expects
    exactly the generator's next sequence number. *)
Theorem generator_to_gateway (h0 : TelemetryHeader) (items : list (list byte * Z))
    (g : MeasurementGenerator) (gw : Gateway) (type ts : Z) :
  crc_enabled gw = false ->
  initialized (sources_at (tracker_ gw) (src_id_ g)) = false ->
  is_u16 (src_id_ g) -> is_u32 (seq_ g) -> is_u64 ts ->
  is_u64 (rx_total (global_ (stats_ gw))) ->
  1 <= type <= 4 ->
  Forall (fun it => (length (fst it) <= 1024)%nat) items ->
  let r := generate_and_process h0 g gw type ts items in
  let n := Z.of_nat (length items) in
  let G := global_ (stats_ gw) in
  global_ (stats_ (snd r)) =
    mkGlobalStats (wrap64 (rx_total G + n)) (malformed_total G) (gap_total G)
                  (reorder_total G) (duplicate_total G) (crc_fail_total G) /\
  get_health (stats_ (snd r)) = get_health (stats_ gw) /\
  seq_ (fst r) = wrap32 (seq_ g + n) /\
  (items = [] \/
   next_expected (sources_at (tracker_ (snd r)) (src_id_ g)) = seq_ (fst r)).
Proof.
  intros Hcrc Hi Hsrc Hseq Hts Hrx Hty Hitems r n G.
  assert (Gen : forall (l : list (list byte * Z)) (g1 : MeasurementGenerator) (gw1 : Gateway),
            src_id_ g1 = src_id_ g -> crc_enabled gw1 = false -> is_u32 (seq_ g1) ->
            is_u64 (rx_total (global_ (stats_ gw1))) ->
            Forall (fun it => (length (fst it) <= 1024)%nat) l ->
            (initialized (sources_at (tracker_ gw1) (src_id_ g)) = false \/
             (initialized (sources_at (tracker_ gw1) (src_id_ g)) = true /\
              next_expected (sources_at (tracker_ gw1) (src_id_ g)) = seq_ g1)) ->
            global_ (stats_ (snd (generate_and_process h0 g1 gw1 type ts l))) =
              mkGlobalStats
                (wrap64 (rx_total (global_ (stats_ gw1)) + Z.of_nat (length l)))
                (malformed_total (global_ (stats_ gw1))) (gap_total (global_ (stats_ gw1)))
                (reorder_total (global_ (stats_ gw1)))
                (duplicate_total (global_ (stats_ gw1)))
                (crc_fail_total (global_ (stats_ gw1))) /\
            seq_ (fst (generate_and_process h0 g1 gw1 type ts l)) =
              wrap32 (seq_ g1 + Z.of_nat (length l)) /\
            (l = [] \/
             next_expected (sources_at
               (tracker_ (snd (generate_and_process h0 g1 gw1 type ts l))) (src_id_ g)) =
             seq_ (fst (generate_and_process h0 g1 gw1 type ts l)))).
  { induction l as [| [payload rx] l IH]; intros g1 gw1 Hg Hc Hs Hr Hl Htr.
    - simpl. rewrite !Z.add_0_r. rewrite wrap64_small, wrap32_small by assumption.
      split; [by destruct (global_ (stats_ gw1)) | split; [reflexivity | by left]].
    - apply Forall_cons in Hl as [Hp Hl]. simpl in Hp.
      cbn [generate_and_process].
      destruct (build_frame g1 type payload ts) as [frame g2] eqn:Eb.
      assert (Hframe : frame = fst (build_frame g1 type payload ts)) by (by rewrite Eb).
      assert (Hg2 : g2 = mkMeasurementGenerator (src_id_ g1) (wrap32 (seq_ g1 + 1))).
      { unfold build_frame in Eb. by injection Eb as _ <-. }
      rewrite <- Hg in Htr.
      assert (Hsrc1 : is_u16 (src_id_ g1)) by (by rewrite Hg).
      destruct (process_generated_frame h0 g1 gw1 type ts payload rx
                  Hc Hsrc1 Hs Hts Hty Hp Htr) as (P1 & P2 & P3 & P4).
      rewrite <- Hframe in P1, P2, P3, P4. rewrite Hg in P3, P4.
      assert (Hg2s : src_id_ g2 = src_id_ g) by (by rewrite Hg2).
      assert (Hg2q : seq_ g2 = wrap32 (seq_ g1 + 1)) by (by rewrite Hg2).
      destruct (IH g2 (process_frame h0 gw1 frame rx) Hg2s P1) as (Q1 & Q2 & Q3).
      + rewrite Hg2q. apply wrap32_u32.
      + rewrite P2. simpl. apply wrap64_u64.
      + exact Hl.
      + right. split; [exact P3 | by rewrite P4, Hg2q].
      + rewrite Q1, Q2, P2, Hg2q. cbn [rx_total malformed_total gap_total reorder_total
                                        duplicate_total crc_fail_total length].
        rewrite wrap64_succ_add, wrap32_succ_add.
        split; [reflexivity | split; [reflexivity |]].
        right. destruct Q3 as [-> | Q3].
        * simpl. rewrite P4. reflexivity.
        * rewrite Q3, Q2, Hg2q. apply wrap32_succ_add. }
  destruct (Gen items g gw eq_refl Hcrc Hseq Hrx Hitems (or_introl Hi)) as (R1 & R2 & R3).
  unfold r, n, G. split; [exact R1 | split; [| split; [exact R2 | exact R3]]].
  unfold get_health. rewrite R1. reflexivity.
Qed.

Lemma generator_to_gateway_witness :
  crc_enabled gateway_nocrc = false /\
  initialized (sources_at (tracker_ gateway_nocrc) (src_id_ generator7)) = false /\
  is_u16 (src_id_ generator7) /\ is_u32 (seq_ generator7) /\ is_u64 5 /\
  is_u64 (rx_total (global_ (stats_ gateway_nocrc))) /\
  1 <= 4 <= 4 /\
  Forall (fun it => (length (fst it) <= 1024)%nat) three_items /\
  let r := generate_and_process header0 generator7 gateway_nocrc 4 5 three_items in
  let n := Z.of_nat (length three_items) in
  let G := global_ (stats_ gateway_nocrc) in
  global_ (stats_ (snd r)) =
    mkGlobalStats (wrap64 (rx_total G + n)) (malformed_total G) (gap_total G)
                  (reorder_total G) (duplicate_total G) (crc_fail_total G) /\
  get_health (stats_ (snd r)) = get_health (stats_ gateway_nocrc) /\
  seq_ (fst r) = wrap32 (seq_ generator7 + n) /\
  (three_items = [] \/
   next_expected (sources_at (tracker_ (snd r)) (src_id_ generator7)) = seq_ (fst r)).
Proof.
  assert (H1 : crc_enabled gateway_nocrc = false) by reflexivity.
  assert (H2 : initialized (sources_at (tracker_ gateway_nocrc) (src_id_ generator7))
               = false) by reflexivity.
  assert (H3 : is_u16 (src_id_ generator7)) by (unfold is_u16; simpl; lia).
  assert (H4 : is_u32 (seq_ generator7)) by (unfold is_u32; simpl; lia).
  assert (H5 : is_u64 5) by (unfold is_u64; lia).
  assert (H6 : is_u64 (rx_total (global_ (stats_ gateway_nocrc))))
    by (unfold is_u64; simpl; lia).
  assert (H7 : 1 <= 4 <= 4) by lia.
  assert (H8 : Forall (fun it => (length (fst it) <= 1024)%nat) three_items)
    by (repeat constructor; simpl; lia).
  split; [exact H1 | split; [exact H2 | split; [exact H3 | split; [exact H4 |
    split; [exact H5 | split; [exact H6 | split; [exact H7 | split; [exact H8 |]]]]]]]].
  exact (generator_to_gateway header0 three_items generator7 gateway_nocrc 4 5
           H1 H2 H3 H4 H5 H6 H7 H8).
Defined.

(** ** Control-channel codec, further *)

Lemma try_extract_frames_loop_ready (n : nat) (f : TcpFramer) :
  exists more, ready_frames_ (try_extract_frames_loop n f) = ready_frames_ f ++ more.
Proof.
  revert f. induction n as [| n IH]; intros f.
  - exists []. simpl. by rewrite app_nil_r.
  - simpl.
    destruct (buffer_ f) as [| b0 [| b1 [| b2 [| b3 rest]]]] eqn:E;
      try (exists []; by rewrite app_nil_r).
    destruct (MAX_FRAME_LEN <? _); [exists []; simpl; by rewrite app_nil_r |].
    destruct (buf_len _ <? _); [exists []; by rewrite app_nil_r |].
    match goal with
    | |- context [try_extract_frames_loop n ?g] => destruct (IH g) as [more Hm]
    end.
    rewrite Hm. cbn [ready_frames_]. eexists. by rewrite <- app_assoc.
Qed.

(** X23.  [feed] never drops or reorders a frame that is ready: whatever
    bytes arrive, well formed or not, the queue after the call is the queue
    before it followed by the frames completed by the call. *)
Theorem feed_ready_prefix (f : TcpFramer) (data : list byte) :
  exists more, ready_frames_ (feed f data) = ready_frames_ f ++ more.
Proof.
  unfold feed, try_extract_frames.
  match goal with
  | |- context [try_extract_frames_loop ?n ?g] =>
      destruct (try_extract_frames_loop_ready n g) as [more Hm]
  end.
  exists more. exact Hm.
Qed.

Lemma try_extract_frames_loop_settled (n : nat) (f : TcpFramer) :
  (length (buffer_ f) <= n)%nat ->
  buffer_settled (buffer_ (try_extract_frames_loop n f)).
Proof.
  revert f. induction n as [| n IH]; intros f Hn.
  - destruct (buffer_ f) as [| b0 l] eqn:E; [| simpl in Hn; lia].
    simpl. by rewrite E.
  - simpl.
    destruct (buffer_ f) as [| b0 [| b1 [| b2 [| b3 rest]]]] eqn:E;
      try (rewrite E; exact I).
    pose proof (read_frame_len_nonneg b0 b1 b2 b3) as H0.
    destruct (MAX_FRAME_LEN <? _) eqn:Emax; [exact I |].
    apply Z.ltb_ge in Emax.
    assert (Hw : wrap32 (4 + read_frame_len b0 b1 b2 b3) =
                 4 + read_frame_len b0 b1 b2 b3).
    { apply wrap32_small. unfold is_u32, MAX_FRAME_LEN in *. lia. }
    rewrite Hw.
    destruct (buf_len _ <? _) eqn:Elen.
    + apply Z.ltb_lt in Elen. rewrite E. simpl. split; assumption.
    + apply Z.ltb_ge in Elen. apply IH. cbn [buffer_].
      rewrite length_drop. simpl in Hn |- *. lia.
Qed.

(** X24.  After [feed] the buffer holds no complete frame: it has fewer
    than four bytes, or its length prefix is at most 10 MiB and announces
    more bytes than are buffered.  So extraction is idempotent. *)
Theorem feed_buffer_settled (f : TcpFramer) (data : list byte) :
  buffer_settled (buffer_ (feed f data)) /\
  try_extract_frames (feed f data) = feed f data.
Proof.
  assert (Hs : buffer_settled (buffer_ (feed f data))).
  { unfold feed, try_extract_frames. by apply try_extract_frames_loop_settled. }
  split; [exact Hs |].
  unfold try_extract_frames at 1.
  destruct (feed f data) as [b r]. cbn [buffer_] in *.
  destruct b as [| b0 [| b1 [| b2 [| b3 rest]]]]; try reflexivity.
  destruct Hs as [Hmax Hlen].
  pose proof (read_frame_len_nonneg b0 b1 b2 b3) as H0.
  cbn [length try_extract_frames_loop buffer_].
  destruct (MAX_FRAME_LEN <? _) eqn:Emax; [apply Z.ltb_lt in Emax; lia |].
  rewrite wrap32_small by (unfold is_u32, MAX_FRAME_LEN in *; lia).
  destruct (buf_len _ <? _) eqn:Elen; [reflexivity | apply Z.ltb_ge in Elen; lia].
Qed.

(** X25.  [encode] has no size limit but the decoder has: the encoding of a
    payload longer than 10 MiB (and shorter than 4 GiB), fed to a decoder
    with an empty buffer, whole or with anything after it, is thrown away
    with all that follows it in the same call, and no frame comes out. *)
Theorem feed_oversize_dropped (r : list (list byte)) (p rest : list byte) :
  MAX_FRAME_LEN < Z.of_nat (length p) < 2 ^ 32 ->
  feed {| buffer_ := []; ready_frames_ := r |} (encode p ++ rest) =
  {| buffer_ := []; ready_frames_ := r |}.
Proof.
  intros Hp. unfold feed, try_extract_frames. cbn [buffer_ ready_frames_ app].
  assert (Hu : is_u32 (Z.of_nat (length p))) by (unfold is_u32; lia).
  unfold encode. rewrite (wrap32_small _ Hu).
  cbn [app length try_extract_frames_loop buffer_ ready_frames_].
  rewrite (read_frame_len_encode _ Hu).
  destruct (MAX_FRAME_LEN <? Z.of_nat (length p)) eqn:E; [reflexivity |].
  apply Z.ltb_ge in E. lia.
Qed.

Lemma feed_oversize_dropped_witness :
  MAX_FRAME_LEN < Z.of_nat (length (repeat x00 (Z.to_nat 10485761))) < 2 ^ 32 /\
  feed {| buffer_ := []; ready_frames_ := [hello] |}
       (encode (repeat x00 (Z.to_nat 10485761)) ++ encode hello) =
  {| buffer_ := []; ready_frames_ := [hello] |}.
Proof.
  assert (H : MAX_FRAME_LEN < Z.of_nat (length (repeat x00 (Z.to_nat 10485761))) < 2 ^ 32).
  { rewrite repeat_length. unfold MAX_FRAME_LEN. lia. }
  split; [exact H |].
  exact (feed_oversize_dropped [hello] (repeat x00 (Z.to_nat 10485761)) (encode hello) H).
Defined.

(** ** Fault injector, further *)

Lemma bump_succ_r (k : nat) (x : Z) : bump k (wrap32 (x + 1)) = bump (S k) x.
Proof. unfold bump. by rewrite Nat.iter_succ_r. Qed.

Lemma bump_add (a b : nat) (x : Z) : bump a (bump b x) = bump (a + b) x.
Proof. unfold bump. by rewrite Nat.iter_add. Qed.

Lemma bump_0 (k : nat) : bump k 0 = wrap32 (Z.of_nat k).
Proof.
  induction k as [| k IH]; [reflexivity |].
  unfold bump in *. rewrite Nat.iter_succ, IH. unfold wrap32.
  rewrite Zplus_mod_idemp_l. f_equal. lia.
Qed.

Lemma one_byte_flipped_refl (a : list byte) : one_byte_flipped a a.
Proof. split; [reflexivity |]. by exists 0%nat. Qed.

Lemma flip_byte_one (frame : list byte) (i : Z) : one_byte_flipped frame (flip_byte frame i).
Proof.
  unfold flip_byte. destruct (frame !! Z.to_nat i); [| apply one_byte_flipped_refl].
  split; [apply length_insert |].
  exists (Z.to_nat i). intros j Hj. by apply list_lookup_insert_ne.
Qed.

Lemma insert_at_perm {A} (pos : Z) (x : A) (l : list A) : insert_at pos x l ≡ₚ x :: l.
Proof.
  unfold insert_at. rewrite <- Permutation_middle.
  by rewrite take_drop.
Qed.

Section FaultInjectorMore.

Context `{StdRandom}.

Lemma apply_stages (fi : FaultInjector) (frames : list (list byte)) :
  frames <> [] ->
  apply fi frames =
  (let cfg := config_ fi in
   let '(f1, e1) := stage_corrupt cfg frames (rng_ fi, FaultStats_default) in
   let '(f2, e2) := stage_duplicate cfg f1 e1 in
   let '(f3, e3) := stage_loss cfg f2 e2 in
   let '(f4, e4) := stage_reorder cfg f3 e3 in
   (f4, mkFaultInjector cfg (fst e4) (snd e4))).
Proof. intros Hne. destruct frames; [contradiction | reflexivity]. Qed.

Lemma corrupt_frames_spec (pct : double) (frames : list (list byte)) :
  forall e : Env,
    Forall2 one_byte_flipped frames (fst (corrupt_frames pct frames e)) /\
    exists k : nat, (k <= length frames)%nat /\
      snd (snd (corrupt_frames pct frames e)) =
      mkFaultStats (dropped (snd e)) (reordered (snd e)) (duplicated (snd e))
                   (bump k (corrupted (snd e))).
Proof.
  induction frames as [| frame rest IH]; intros e.
  - simpl. split; [constructor |]. exists 0%nat. split; [lia |]. by destruct (snd e).
  - cbn [corrupt_frames].
    destruct (uniform_real_0_100 (fst e)) as [r g1].
    destruct (double_lt r pct && negb (length frame =? 0)%nat).
    + destruct (uniform_int 0 (buf_len frame - 1) g1) as [i g2].
      specialize (IH (g2, incr_corrupted (snd e))).
      destruct (corrupt_frames pct rest (g2, incr_corrupted (snd e))) as [rest' e2].
      cbn [fst snd] in *. destruct IH as [IH1 (k & Hk & IH2)].
      split; [constructor; [apply flip_byte_one | exact IH1] |].
      exists (S k). split; [simpl; lia |].
      rewrite IH2. unfold incr_corrupted. cbn [dropped reordered duplicated corrupted].
      by rewrite bump_succ_r.
    + specialize (IH (g1, snd e)).
      destruct (corrupt_frames pct rest (g1, snd e)) as [rest' e2].
      cbn [fst snd] in *. destruct IH as [IH1 (k & Hk & IH2)].
      split; [constructor; [apply one_byte_flipped_refl | exact IH1] |].
      exists k. split; [simpl; lia | exact IH2].
Qed.

Lemma pick_extras_spec (pct : double) (frames : list (list byte)) :
  forall e : Env,
    fst (pick_extras pct frames e) `sublist_of` frames /\
    snd (snd (pick_extras pct frames e)) =
    mkFaultStats (dropped (snd e)) (reordered (snd e))
                 (bump (length (fst (pick_extras pct frames e))) (duplicated (snd e)))
                 (corrupted (snd e)).
Proof.
  induction frames as [| frame rest IH]; intros e.
  - simpl. split; [constructor | by destruct (snd e)].
  - cbn [pick_extras].
    destruct (uniform_real_0_100 (fst e)) as [r g1].
    destruct (double_lt r pct).
    + specialize (IH (g1, incr_duplicated (snd e))).
      destruct (pick_extras pct rest (g1, incr_duplicated (snd e))) as [extras e2].
      cbn [fst snd] in *. destruct IH as [IH1 IH2].
      split; [by constructor |].
      rewrite IH2. unfold incr_duplicated.
      cbn [dropped reordered duplicated corrupted length].
      by rewrite bump_succ_r.
    + specialize (IH (g1, snd e)). cbn [fst snd] in *. destruct IH as [IH1 IH2].
      split; [by constructor | exact IH2].
Qed.

Lemma insert_extras_spec (extras : list (list byte)) :
  forall (frames : list (list byte)) (g : mt19937),
    fst (insert_extras extras frames g) ≡ₚ extras ++ frames.
Proof.
  induction extras as [| dup rest IH]; intros frames g; [reflexivity |].
  cbn [insert_extras].
  destruct (uniform_int 0 (Z.of_nat (length frames)) g) as [pos g1].
  rewrite IH, insert_at_perm. cbn [app].
  by rewrite <- Permutation_middle.
Qed.

Lemma drop_frames_spec (pct : double) (frames : list (list byte)) :
  forall e : Env,
    fst (drop_frames pct frames e) `sublist_of` frames /\
    exists k : nat,
      (length (fst (drop_frames pct frames e)) + k = length frames)%nat /\
      snd (snd (drop_frames pct frames e)) =
      mkFaultStats (bump k (dropped (snd e))) (reordered (snd e))
                   (duplicated (snd e)) (corrupted (snd e)).
Proof.
  induction frames as [| frame rest IH]; intros e.
  - simpl. split; [constructor |]. exists 0%nat. split; [reflexivity | by destruct (snd e)].
  - cbn [drop_frames].
    destruct (uniform_real_0_100 (fst e)) as [r g1].
    destruct (double_lt r pct).
    + specialize (IH (g1, incr_dropped (snd e))). cbn [fst snd] in *.
      destruct IH as [IH1 (k & Hk & IH2)].
      split; [by constructor |].
      exists (S k). split; [simpl; lia |].
      rewrite IH2. unfold incr_dropped. cbn [dropped reordered duplicated corrupted].
      by rewrite bump_succ_r.
    + specialize (IH (g1, snd e)).
      destruct (drop_frames pct rest (g1, snd e)) as [rest' e2].
      cbn [fst snd] in *. destruct IH as [IH1 (k & Hk & IH2)].
      split; [by constructor |].
      exists k. split; [simpl; lia | exact IH2].
Qed.

Lemma reorder_frames_cons2 (pct : double) (a b : list byte) (rest : list (list byte))
    (e : Env) :
  reorder_frames pct (a :: b :: rest) e =
  (let '(r, g1) := uniform_real_0_100 (fst e) in
   if double_lt r pct then
     let '(rest', e2) := reorder_frames pct rest (g1, incr_reordered (snd e)) in
     (b :: a :: rest', e2)
   else
     let '(tl', e2) := reorder_frames pct (b :: rest) (g1, snd e) in
     (a :: tl', e2)).
Proof. reflexivity. Qed.

Lemma reorder_frames_spec (pct : double) (n : nat) :
  forall (frames : list (list byte)) (e : Env),
    (length frames <= n)%nat ->
    fst (reorder_frames pct frames e) ≡ₚ frames /\
    exists k : nat,
      (2 * k <= length frames)%nat /\
      snd (snd (reorder_frames pct frames e)) =
      mkFaultStats (dropped (snd e)) (bump k (reordered (snd e)))
                   (duplicated (snd e)) (corrupted (snd e)).
Proof.
  induction n as [| n IH]; intros frames e Hn.
  - destruct frames; [| simpl in Hn; lia].
    simpl. split; [reflexivity |]. exists 0%nat. split; [lia | by destruct (snd e)].
  - destruct frames as [| a [| b rest]].
    + simpl. split; [reflexivity |]. exists 0%nat. split; [lia | by destruct (snd e)].
    + simpl. split; [reflexivity |]. exists 0%nat. split; [lia | by destruct (snd e)].
    + rewrite reorder_frames_cons2.
      destruct (uniform_real_0_100 (fst e)) as [r g1].
      destruct (double_lt r pct).
      * destruct (IH rest (g1, incr_reordered (snd e))) as [IH1 (k & Hk & IH2)];
          [simpl in Hn; lia |].
        destruct (reorder_frames pct rest (g1, incr_reordered (snd e))) as [rest' e2].
        cbn [fst snd] in *.
        split; [rewrite IH1; apply perm_swap |].
        exists (S k). split; [simpl; lia |].
        rewrite IH2. unfold incr_reordered. cbn [dropped reordered duplicated corrupted].
        by rewrite bump_succ_r.
      * destruct (IH (b :: rest) (g1, snd e)) as [IH1 (k & Hk & IH2)];
          [simpl in Hn |- *; lia |].
        destruct (reorder_frames pct (b :: rest) (g1, snd e)) as [tl' e2].
        cbn [fst snd] in *.
        split; [by apply perm_skip |].
        exists k. split; [simpl in Hk |- *; lia | exact IH2].
Qed.

End FaultInjectorMore.

Section FaultInjectorDeterminism.

Context `{StdRandom}.

Lemma length_flip_byte (frame : list byte) (i : Z) :
  length (flip_byte frame i) = length frame.
Proof.
  unfold flip_byte. destruct (frame !! Z.to_nat i); [apply length_insert | reflexivity].
Qed.

(** Each stage looks at the number of frames and at their lengths, never
    at their bytes: on two batches of the same shape it draws the same
    numbers, counts the same and leaves batches of the same shape. *)
Lemma corrupt_frames_shape (pct : double) (a b : list (list byte)) :
  same_shape a b ->
  forall e : Env,
    same_shape (fst (corrupt_frames pct a e)) (fst (corrupt_frames pct b e)) /\
    snd (corrupt_frames pct a e) = snd (corrupt_frames pct b e).
Proof.
  induction 1 as [| x y a b Hxy Hab IH]; intros e; [split; [constructor | reflexivity] |].
  cbn [corrupt_frames]. unfold buf_len. rewrite Hxy.
  destruct (uniform_real_0_100 (fst e)) as [r g1].
  destruct (double_lt r pct && negb (length y =? 0)%nat).
  - destruct (uniform_int 0 (Z.of_nat (length y) - 1) g1) as [i g2].
    destruct (IH (g2, incr_corrupted (snd e))) as [I1 I2].
    destruct (corrupt_frames pct a _) as [a' ea], (corrupt_frames pct b _) as [b' eb].
    cbn [fst snd] in *. split; [| exact I2].
    constructor; [| exact I1]. by rewrite !length_flip_byte.
  - destruct (IH (g1, snd e)) as [I1 I2].
    destruct (corrupt_frames pct a _) as [a' ea], (corrupt_frames pct b _) as [b' eb].
    cbn [fst snd] in *. split; [| exact I2]. by constructor.
Qed.

Lemma pick_extras_shape (pct : double) (a b : list (list byte)) :
  same_shape a b ->
  forall e : Env,
    same_shape (fst (pick_extras pct a e)) (fst (pick_extras pct b e)) /\
    snd (pick_extras pct a e) = snd (pick_extras pct b e).
Proof.
  induction 1 as [| x y a b Hxy Hab IH]; intros e; [split; [constructor | reflexivity] |].
  cbn [pick_extras].
  destruct (uniform_real_0_100 (fst e)) as [r g1].
  destruct (double_lt r pct).
  - destruct (IH (g1, incr_duplicated (snd e))) as [I1 I2].
    destruct (pick_extras pct a _) as [a' ea], (pick_extras pct b _) as [b' eb].
    cbn [fst snd] in *. split; [| exact I2]. by constructor.
  - apply IH.
Qed.

Lemma insert_at_shape (pos : Z) (x y : list byte) (a b : list (list byte)) :
  length x = length y -> same_shape a b ->
  same_shape (insert_at pos x a) (insert_at pos y b).
Proof.
  intros Hxy Hab. unfold insert_at, same_shape.
  apply Forall2_app; [by apply Forall2_take |].
  constructor; [exact Hxy | by apply Forall2_drop].
Qed.

Lemma insert_extras_shape (xs ys : list (list byte)) :
  same_shape xs ys ->
  forall (a b : list (list byte)) (g : mt19937),
    same_shape a b ->
    same_shape (fst (insert_extras xs a g)) (fst (insert_extras ys b g)) /\
    snd (insert_extras xs a g) = snd (insert_extras ys b g).
Proof.
  induction 1 as [| x y xs ys Hxy Hxs IH]; intros a b g Hab; [by split |].
  cbn [insert_extras]. rewrite (Forall2_length _ _ _ Hab).
  destruct (uniform_int 0 (Z.of_nat (length b)) g) as [pos g1].
  apply IH. by apply insert_at_shape.
Qed.

Lemma drop_frames_shape (pct : double) (a b : list (list byte)) :
  same_shape a b ->
  forall e : Env,
    same_shape (fst (drop_frames pct a e)) (fst (drop_frames pct b e)) /\
    snd (drop_frames pct a e) = snd (drop_frames pct b e).
Proof.
  induction 1 as [| x y a b Hxy Hab IH]; intros e; [split; [constructor | reflexivity] |].
  cbn [drop_frames].
  destruct (uniform_real_0_100 (fst e)) as [r g1].
  destruct (double_lt r pct); [apply IH |].
  destruct (IH (g1, snd e)) as [I1 I2].
  destruct (drop_frames pct a _) as [a' ea], (drop_frames pct b _) as [b' eb].
  cbn [fst snd] in *. split; [| exact I2]. by constructor.
Qed.

Lemma reorder_frames_shape (pct : double) (n : nat) :
  forall (a b : list (list byte)) (e : Env),
    (length a <= n)%nat -> same_shape a b ->
    same_shape (fst (reorder_frames pct a e)) (fst (reorder_frames pct b e)) /\
    snd (reorder_frames pct a e) = snd (reorder_frames pct b e).
Proof.
  induction n as [| n IH]; intros a b e Hn Hab.
  - destruct Hab; [split; [constructor | reflexivity] | simpl in Hn; lia].
  - destruct Hab as [| x y a b Hxy Hab]; [split; [constructor | reflexivity] |].
    destruct Hab as [| x2 y2 a b Hxy2 Hab].
    + split; [| reflexivity]. by repeat constructor.
    + rewrite !reorder_frames_cons2.
      destruct (uniform_real_0_100 (fst e)) as [r g1].
      destruct (double_lt r pct).
      * destruct (IH a b (g1, incr_reordered (snd e))) as [I1 I2];
          [simpl in Hn; lia | exact Hab |].
        destruct (reorder_frames pct a _) as [a' ea], (reorder_frames pct b _) as [b' eb].
        cbn [fst snd] in *. split; [| exact I2]. by repeat constructor.
      * destruct (IH (x2 :: a) (y2 :: b) (g1, snd e)) as [I1 I2];
          [simpl in Hn |- *; lia | by constructor |].
        destruct (reorder_frames pct (x2 :: a) _) as [a' ea],
                 (reorder_frames pct (y2 :: b) _) as [b' eb].
        cbn [fst snd] in *. split; [| exact I2]. by constructor.
Qed.

(** One call on two batches of the same shape, by two injectors with the
    same configuration and engine state: the outputs have the same shape
    and the injectors are equal afterwards, counters and engine. *)
Lemma apply_shape (fi1 fi2 : FaultInjector) (a b : list (list byte)) :
  config_ fi1 = config_ fi2 -> rng_ fi1 = rng_ fi2 -> same_shape a b ->
  same_shape (fst (apply fi1 a)) (fst (apply fi2 b)) /\
  snd (apply fi1 a) = snd (apply fi2 b).
Proof.
  intros Hc Hg Hab.
  destruct Hab as [| x y a b Hxy Hab].
  - rewrite !apply_empty, Hc, Hg. split; [constructor | reflexivity].
  - assert (Hab' : same_shape (x :: a) (y :: b)) by (by constructor).
    rewrite !apply_stages by discriminate. cbv zeta. rewrite <- Hc, <- Hg.
    set (cfg := config_ fi1). set (e0 := (rng_ fi1, FaultStats_default)).
    assert (S1 : same_shape (fst (stage_corrupt cfg (x :: a) e0))
                            (fst (stage_corrupt cfg (y :: b) e0)) /\
                 snd (stage_corrupt cfg (x :: a) e0) = snd (stage_corrupt cfg (y :: b) e0)).
    { unfold stage_corrupt. destruct (double_lt _ _); [| by split].
      by apply corrupt_frames_shape. }
    destruct (stage_corrupt cfg (x :: a) e0) as [a1 e1],
             (stage_corrupt cfg (y :: b) e0) as [b1 e1'].
    cbn [fst snd] in S1. destruct S1 as [S1 <-].
    assert (S2 : same_shape (fst (stage_duplicate cfg a1 e1))
                            (fst (stage_duplicate cfg b1 e1)) /\
                 snd (stage_duplicate cfg a1 e1) = snd (stage_duplicate cfg b1 e1)).
    { unfold stage_duplicate. destruct (double_lt _ _); [| by split].
      destruct (pick_extras_shape (duplicate_pct cfg) a1 b1 S1 e1) as [P1 P2].
      destruct (pick_extras _ a1 e1) as [xs ex], (pick_extras _ b1 e1) as [ys ey].
      cbn [fst snd] in P1, P2. subst ey.
      destruct (insert_extras_shape xs ys P1 a1 b1 (fst ex) S1) as [Q1 Q2].
      destruct (insert_extras xs a1 _) as [fa ga], (insert_extras ys b1 _) as [fb gb].
      cbn [fst snd] in *. subst gb. by split. }
    destruct (stage_duplicate cfg a1 e1) as [a2 e2],
             (stage_duplicate cfg b1 e1) as [b2 e2'].
    cbn [fst snd] in S2. destruct S2 as [S2 <-].
    assert (S3 : same_shape (fst (stage_loss cfg a2 e2)) (fst (stage_loss cfg b2 e2)) /\
                 snd (stage_loss cfg a2 e2) = snd (stage_loss cfg b2 e2)).
    { unfold stage_loss. destruct (double_lt _ _); [| by split].
      by apply drop_frames_shape. }
    destruct (stage_loss cfg a2 e2) as [a3 e3], (stage_loss cfg b2 e2) as [b3 e3'].
    cbn [fst snd] in S3. destruct S3 as [S3 <-].
    assert (S4 : same_shape (fst (stage_reorder cfg a3 e3)) (fst (stage_reorder cfg b3 e3)) /\
                 snd (stage_reorder cfg a3 e3) = snd (stage_reorder cfg b3 e3)).
    { unfold stage_reorder. rewrite (Forall2_length _ _ _ S3).
      destruct (_ && _); [| by split].
      by apply (reorder_frames_shape _ (length a3)). }
    destruct (stage_reorder cfg a3 e3) as [a4 e4], (stage_reorder cfg b3 e3) as [b4 e4'].
    cbn [fst snd] in S4. destruct S4 as [S4 <-].
    by split.
Qed.

Lemma apply_all_cons (fi : FaultInjector) (frames : list (list byte))
    (rest : list (list (list byte))) :
  apply_all fi (frames :: rest) =
  ((fst (apply fi frames), last_stats_ (snd (apply fi frames)))
     :: fst (apply_all (snd (apply fi frames)) rest),
   snd (apply_all (snd (apply fi frames)) rest)).
Proof.
  cbn [apply_all]. destruct (apply fi frames) as [out fi1]. cbn [fst snd].
  destruct (apply_all fi1 rest). reflexivity.
Qed.

Lemma apply_all_shape (h1 h2 : list (list (list byte))) :
  Forall2 same_shape h1 h2 ->
  forall fi1 fi2 : FaultInjector,
    config_ fi1 = config_ fi2 -> rng_ fi1 = rng_ fi2 ->
    Forall2 (fun o1 o2 => same_shape (fst o1) (fst o2) /\ snd o1 = snd o2)
            (fst (apply_all fi1 h1)) (fst (apply_all fi2 h2)) /\
    config_ (snd (apply_all fi1 h1)) = config_ (snd (apply_all fi2 h2)) /\
    rng_ (snd (apply_all fi1 h1)) = rng_ (snd (apply_all fi2 h2)).
Proof.
  induction 1 as [| a b h1 h2 Hab Hh IH]; intros fi1 fi2 Hc Hg.
  - split; [constructor | by split].
  - rewrite !apply_all_cons. cbn [fst snd].
    destruct (apply_shape fi1 fi2 a b Hc Hg Hab) as [A1 A2].
    destruct (IH (snd (apply fi1 a)) (snd (apply fi2 b))) as (I1 & I2 & I3);
      [by rewrite A2 | by rewrite A2 |].
    split; [| by split].
    constructor; [| exact I1]. cbn [fst snd]. split; [exact A1 | by rewrite A2].
Qed.

Lemma apply_all_reads_config_rng (h : list (list (list byte))) :
  forall fi1 fi2 : FaultInjector,
    config_ fi1 = config_ fi2 -> rng_ fi1 = rng_ fi2 ->
    fst (apply_all fi1 h) = fst (apply_all fi2 h).
Proof.
  induction h as [| a h IH]; intros fi1 fi2 Hc Hg; [reflexivity |].
  rewrite !apply_all_cons. cbn [fst].
  rewrite (apply_reads_config_rng fi1 fi2 a Hc Hg).
  reflexivity.
Qed.

(** C6, as amended.  Two injectors with the same configuration and the
    same engine state, as two injectors constructed with the same
    configuration and seed are, whose earlier [apply] calls were made, call
    by call, on batches of the same shape (as many frames, of the same
    lengths; the bytes may differ) give on equal batches equal output
    batches, equal [last_stats] and equal engines; whatever [last_stats]
    an injector held before is not read.  In the earlier calls themselves
    the counters were equal and the outputs of the same shape, and equal
    where the batches were. *)
Theorem fault_injector_deterministic (fi1 fi2 : FaultInjector)
    (history1 history2 : list (list (list byte))) (frames : list (list byte)) :
  config_ fi1 = config_ fi2 -> rng_ fi1 = rng_ fi2 ->
  Forall2 same_shape history1 history2 ->
  apply (snd (apply_all fi1 history1)) frames =
  apply (snd (apply_all fi2 history2)) frames /\
  Forall2 (fun o1 o2 => same_shape (fst o1) (fst o2) /\ snd o1 = snd o2)
          (fst (apply_all fi1 history1)) (fst (apply_all fi2 history2)) /\
  (history1 = history2 -> fst (apply_all fi1 history1) = fst (apply_all fi2 history2)).
Proof.
  intros Hc Hg Hh.
  destruct (apply_all_shape history1 history2 Hh fi1 fi2 Hc Hg) as (A1 & A2 & A3).
  split; [by apply apply_reads_config_rng |]. split; [exact A1 |].
  intros <-. by apply apply_all_reads_config_rng.
Qed.

End FaultInjectorDeterminism.

Lemma fault_injector_deterministic_witness :
  let fi := @FaultInjector_new lcg_random all_faults 42 in
  @config_ lcg_random fi = @config_ lcg_random fi /\
  @rng_ lcg_random fi = @rng_ lcg_random fi /\
  Forall2 same_shape [batch4; batch1] [batch4_other; batch1] /\
  @apply lcg_random (snd (@apply_all lcg_random fi [batch4; batch1])) batch4 =
  @apply lcg_random (snd (@apply_all lcg_random fi [batch4_other; batch1])) batch4 /\
  Forall2 (fun o1 o2 => same_shape (fst o1) (fst o2) /\ snd o1 = snd o2)
          (fst (@apply_all lcg_random fi [batch4; batch1]))
          (fst (@apply_all lcg_random fi [batch4_other; batch1])) /\
  ([batch4; batch1] = [batch4_other; batch1] ->
   fst (@apply_all lcg_random fi [batch4; batch1]) =
   fst (@apply_all lcg_random fi [batch4_other; batch1])).
Proof.
  intros fi.
  assert (Hh : Forall2 same_shape [batch4; batch1] [batch4_other; batch1]).
  { repeat constructor. }
  split; [reflexivity |]. split; [reflexivity |]. split; [exact Hh |].
  exact (@fault_injector_deterministic lcg_random fi fi
           [batch4; batch1] [batch4_other; batch1] batch4 eq_refl eq_refl Hh).
Defined.

(** The number of earlier calls does not decide the output: the draws a
    call makes depend on the size of its batch.  After one call each, on
    a batch of four frames and on a batch of one, two injectors with the
    same configuration and seed give different batches and different
    counters on the same input. *)
Lemma same_call_count_different_output :
  let fi := @FaultInjector_new lcg_random all_faults 42 in
  length [batch4] = length [batch1] /\
  fst (@apply lcg_random (snd (@apply_all lcg_random fi [batch4])) batch4) <>
  fst (@apply lcg_random (snd (@apply_all lcg_random fi [batch1])) batch4) /\
  @last_stats_ lcg_random (snd (@apply lcg_random (snd (@apply_all lcg_random fi [batch4])) batch4)) <>
  @last_stats_ lcg_random (snd (@apply lcg_random (snd (@apply_all lcg_random fi [batch1])) batch4)) /\
  ~ call_count_determinism lcg_random.
Proof.
  intros fi.
  assert (D : fst (@apply lcg_random (snd (@apply_all lcg_random fi [batch4])) batch4) <>
              fst (@apply lcg_random (snd (@apply_all lcg_random fi [batch1])) batch4)).
  { vm_compute. discriminate. }
  split; [reflexivity |]. split; [exact D |]. split; [vm_compute; discriminate |].
  intros Hc. apply D.
  exact (proj1 (Hc all_faults 42 [batch4] [batch1] batch4 eq_refl)).
Qed.

Section FaultInjectorProps.

Context `{StdRandom}.

(** What one call of [apply] on a batch that is not empty does, stage by
    stage: [f1] after corruption, [f2] after duplication (the copies are
    [extras]), [f3] after loss, the output after reordering; [k1], [k3] and
    [k4] count the corruptions, the drops and the swaps. *)
Lemma apply_spec (fi : FaultInjector) (frames : list (list byte)) :
  frames <> [] ->
  let cfg := config_ fi in
  let out := fst (apply fi frames) in
  let s := last_stats_ (snd (apply fi frames)) in
  exists (f1 extras f2 f3 : list (list byte)) (k1 k3 k4 : nat),
    Forall2 one_byte_flipped frames f1 /\
    extras `sublist_of` f1 /\ f2 ≡ₚ extras ++ f1 /\
    f3 `sublist_of` f2 /\ out ≡ₚ f3 /\
    (k1 <= length frames)%nat /\ (length f3 + k3 = length f2)%nat /\
    (2 * k4 <= length f3)%nat /\
    s = mkFaultStats (bump k3 0) (bump k4 0) (bump (length extras) 0) (bump k1 0) /\
    (double_lt double_zero (corrupt_pct cfg) = false -> f1 = frames /\ k1 = 0%nat) /\
    (double_lt double_zero (duplicate_pct cfg) = false -> f2 = f1 /\ extras = []) /\
    (double_lt double_zero (loss_pct cfg) = false -> f3 = f2 /\ k3 = 0%nat) /\
    (double_lt double_zero (reorder_pct cfg) = false -> out = f3 /\ k4 = 0%nat) /\
    config_ (snd (apply fi frames)) = cfg.
Proof.
  intros Hne cfg out s. unfold out, s. rewrite apply_stages by exact Hne. fold cfg.
  cbv zeta.
  (* stage 1 *)
  assert (S1 : exists k1 : nat,
             Forall2 one_byte_flipped frames
               (fst (stage_corrupt cfg frames (rng_ fi, FaultStats_default))) /\
             (k1 <= length frames)%nat /\
             snd (snd (stage_corrupt cfg frames (rng_ fi, FaultStats_default))) =
               mkFaultStats 0 0 0 (bump k1 0) /\
             (double_lt double_zero (corrupt_pct cfg) = false ->
              fst (stage_corrupt cfg frames (rng_ fi, FaultStats_default)) = frames /\
              k1 = 0%nat)).
  { unfold stage_corrupt. destruct (double_lt double_zero (corrupt_pct cfg)).
    - destruct (corrupt_frames_spec (corrupt_pct cfg) frames (rng_ fi, FaultStats_default))
        as [A (k & Hk & B)].
      exists k. repeat split; try assumption; done.
    - exists 0%nat. cbn [fst snd]. repeat split; try lia.
      apply Forall2_same_length_lookup_2; [reflexivity |].
      intros i x y Hx Hy. rewrite Hx in Hy. injection Hy as <-.
      apply one_byte_flipped_refl. }
  destruct S1 as (k1 & A1 & Hk1 & B1 & C1).
  destruct (stage_corrupt cfg frames (rng_ fi, FaultStats_default)) as [f1 e1].
  cbn [fst snd] in A1, B1, C1.
  (* stage 2 *)
  assert (S2 : exists extras : list (list byte),
             extras `sublist_of` f1 /\
             fst (stage_duplicate cfg f1 e1) ≡ₚ extras ++ f1 /\
             snd (snd (stage_duplicate cfg f1 e1)) =
               mkFaultStats 0 0 (bump (length extras) 0) (bump k1 0) /\
             (double_lt double_zero (duplicate_pct cfg) = false ->
              fst (stage_duplicate cfg f1 e1) = f1 /\ extras = [])).
  { unfold stage_duplicate. destruct (double_lt double_zero (duplicate_pct cfg)).
    - destruct (pick_extras_spec (duplicate_pct cfg) f1 e1) as [A B].
      destruct (pick_extras (duplicate_pct cfg) f1 e1) as [extras e'].
      cbn [fst snd] in A, B.
      pose proof (insert_extras_spec extras f1 (fst e')) as P.
      destruct (insert_extras extras f1 (fst e')) as [fs g]. cbn [fst snd] in *.
      exists extras. rewrite B, B1. cbn [dropped reordered duplicated corrupted].
      repeat split; try assumption; done.
    - exists []. cbn [fst snd app length]. rewrite B1.
      repeat split; try reflexivity. apply sublist_nil_l. }
  destruct S2 as (extras & A2 & P2 & B2 & C2).
  destruct (stage_duplicate cfg f1 e1) as [f2 e2]. cbn [fst snd] in P2, B2, C2.
  (* stage 3 *)
  assert (S3 : exists k3 : nat,
             fst (stage_loss cfg f2 e2) `sublist_of` f2 /\
             (length (fst (stage_loss cfg f2 e2)) + k3 = length f2)%nat /\
             snd (snd (stage_loss cfg f2 e2)) =
               mkFaultStats (bump k3 0) 0 (bump (length extras) 0) (bump k1 0) /\
             (double_lt double_zero (loss_pct cfg) = false ->
              fst (stage_loss cfg f2 e2) = f2 /\ k3 = 0%nat)).
  { unfold stage_loss. destruct (double_lt double_zero (loss_pct cfg)).
    - destruct (drop_frames_spec (loss_pct cfg) f2 e2) as [A (k & Hk & B)].
      exists k. rewrite B, B2. cbn [dropped reordered duplicated corrupted].
      repeat split; try assumption; done.
    - exists 0%nat. cbn [fst snd]. rewrite B2. repeat split; try reflexivity; lia. }
  destruct S3 as (k3 & A3 & Hk3 & B3 & C3).
  destruct (stage_loss cfg f2 e2) as [f3 e3]. cbn [fst snd] in A3, Hk3, B3, C3.
  (* stage 4 *)
  assert (S4 : exists k4 : nat,
             fst (stage_reorder cfg f3 e3) ≡ₚ f3 /\
             (2 * k4 <= length f3)%nat /\
             snd (snd (stage_reorder cfg f3 e3)) =
               mkFaultStats (bump k3 0) (bump k4 0) (bump (length extras) 0) (bump k1 0) /\
             (double_lt double_zero (reorder_pct cfg) = false ->
              fst (stage_reorder cfg f3 e3) = f3 /\ k4 = 0%nat)).
  { unfold stage_reorder.
    destruct (double_lt double_zero (reorder_pct cfg)); cbn [andb].
    - destruct (2 <=? length f3)%nat.
      + destruct (reorder_frames_spec (reorder_pct cfg) (length f3) f3 e3 (le_n _))
          as [A (k & Hk & B)].
        exists k. rewrite B, B3. cbn [dropped reordered duplicated corrupted].
        repeat split; try assumption; done.
      + exists 0%nat. cbn [fst snd]. rewrite B3. repeat split; try reflexivity; try lia; done.
    - exists 0%nat. cbn [fst snd]. rewrite B3. repeat split; try reflexivity; lia. }
  destruct S4 as (k4 & A4 & Hk4 & B4 & C4).
  destruct (stage_reorder cfg f3 e3) as [f4 e4]. cbn [fst snd] in A4, B4, C4 |- *.
  exists f1, extras, f2, f3, k1, k3, k4.
  repeat split; try assumption;
    first [by apply C1 | by apply C2 | by apply C3 | by apply C4].
Qed.

End FaultInjectorProps.

Section FaultInjectorTheorems.

Context `{StdRandom}.

(** With no percentage above zero the injector is the identity: the
    batch comes out as it went in, every counter of [last_stats] is 0 and
    the engine is not advanced, so a later call draws what it would have
    drawn. *)
Theorem apply_no_faults (fi : FaultInjector) (frames : list (list byte)) :
  double_lt double_zero (corrupt_pct (config_ fi)) = false ->
  double_lt double_zero (duplicate_pct (config_ fi)) = false ->
  double_lt double_zero (loss_pct (config_ fi)) = false ->
  double_lt double_zero (reorder_pct (config_ fi)) = false ->
  apply fi frames =
  (frames, mkFaultInjector (config_ fi) (rng_ fi) FaultStats_default).
Proof.
  intros H1 H2 H3 H4. destruct frames as [| f frames]; [reflexivity |].
  rewrite apply_stages by discriminate. cbv zeta.
  unfold stage_corrupt, stage_duplicate, stage_loss, stage_reorder.
  rewrite H1, H2, H3, H4. reflexivity.
Qed.

(** X26.  The counters of [last_stats] account for the size of the batch:
    for a batch of fewer than 2^31 frames, the output has the input's
    frames plus the duplicated minus the dropped ones; at most one copy is
    made per frame, a copy can be dropped too, at most one corruption is
    counted per frame, and a swap uses two frames of the output. *)
Theorem apply_accounting (fi : FaultInjector) (frames : list (list byte)) :
  Z.of_nat (length frames) < 2 ^ 31 ->
  let out := fst (apply fi frames) in
  let s := last_stats_ (snd (apply fi frames)) in
  Z.of_nat (length out) = Z.of_nat (length frames) + duplicated s - dropped s /\
  0 <= duplicated s <= Z.of_nat (length frames) /\
  0 <= dropped s <= Z.of_nat (length frames) + duplicated s /\
  0 <= corrupted s <= Z.of_nat (length frames) /\
  0 <= 2 * reordered s <= Z.of_nat (length out).
Proof.
  intros Hlen out s. unfold out, s.
  destruct frames as [| f frames]; [cbn; lia |].
  destruct (apply_spec fi (f :: frames)) as
    (f1 & extras & f2 & f3 & k1 & k3 & k4 & A1 & A2 & P2 & A3 & P4 & Hk1 & Hk3 & Hk4 & Hs & _);
    [discriminate |].
  rewrite Hs. cbn [dropped reordered duplicated corrupted].
  rewrite !bump_0.
  apply Forall2_length in A1. apply sublist_length in A2.
  apply Permutation_length in P2, P4. rewrite length_app in P2.
  rewrite !wrap32_small by (unfold is_u32; lia).
  lia.
Qed.

(** X27.  The injector never makes a frame up and never changes the length
    of one: every frame of the output is a frame of the input with at most
    one byte changed, and with no corruption configured every frame of the
    output is a frame of the input as it was. *)
Theorem apply_frames_from_input (fi : FaultInjector) (frames : list (list byte))
    (f' : list byte) :
  f' ∈ fst (apply fi frames) ->
  (exists f, f ∈ frames /\ one_byte_flipped f f') /\
  (double_lt double_zero (corrupt_pct (config_ fi)) = false -> f' ∈ frames).
Proof.
  intros Hin.
  destruct frames as [| f0 frames]; [cbn in Hin; by apply not_elem_of_nil in Hin |].
  destruct (apply_spec fi (f0 :: frames)) as
    (f1 & extras & f2 & f3 & k1 & k3 & k4 & A1 & A2 & P2 & A3 & P4 & _ & _ & _ & _ & C1 & _);
    [discriminate |].
  assert (H1 : f' ∈ f1).
  { rewrite P4 in Hin. pose proof (elem_of_sublist _ _ _ Hin A3) as H2.
    rewrite P2 in H2. apply elem_of_app in H2 as [Hx | Hx]; [| exact Hx].
    exact (elem_of_sublist _ _ _ Hx A2). }
  split.
  - apply list_elem_of_lookup in H1 as [i Hi].
    destruct (Forall2_lookup_r _ _ _ _ _ A1 Hi) as (f & Hf & Hflip).
    exists f. split; [| exact Hflip]. apply list_elem_of_lookup. by exists i.
  - intros Hoff. destruct (C1 Hoff) as [<- _]. exact H1.
Qed.

(** X28.  With corruption and duplication off the output is a selection of
    the input's frames, each at most as often as it went in; with reordering
    off too it is a subsequence, in the input's order; with loss off
    instead it is a permutation of the input. *)
Theorem apply_loss_reorder_only (fi : FaultInjector) (frames : list (list byte)) :
  double_lt double_zero (corrupt_pct (config_ fi)) = false ->
  double_lt double_zero (duplicate_pct (config_ fi)) = false ->
  let out := fst (apply fi frames) in
  out ⊆+ frames /\
  (double_lt double_zero (reorder_pct (config_ fi)) = false -> out `sublist_of` frames) /\
  (double_lt double_zero (loss_pct (config_ fi)) = false -> out ≡ₚ frames).
Proof.
  intros Hc Hd out. unfold out.
  destruct frames as [| f0 frames].
  { cbn. repeat split; intros; reflexivity. }
  destruct (apply_spec fi (f0 :: frames)) as
    (f1 & extras & f2 & f3 & k1 & k3 & k4 & _ & _ & _ & A3 & P4 & _ & _ & _ & _ &
     C1 & C2 & C3 & C4 & _); [discriminate |].
  destruct (C1 Hc) as [-> _]. destruct (C2 Hd) as [-> _].
  split; [| split].
  - rewrite P4. by apply sublist_submseteq.
  - intros Hr. destruct (C4 Hr) as [-> _]. exact A3.
  - intros Hl. destruct (C3 Hl) as [-> _]. exact P4.
Qed.

End FaultInjectorTheorems.

Lemma apply_no_faults_witness :
  let fi := @FaultInjector_new lcg_random no_faults 42 in
  @double_lt lcg_random (@double_zero lcg_random) (@corrupt_pct lcg_random (@config_ lcg_random fi)) = false /\
  @double_lt lcg_random (@double_zero lcg_random) (@duplicate_pct lcg_random (@config_ lcg_random fi)) = false /\
  @double_lt lcg_random (@double_zero lcg_random) (@loss_pct lcg_random (@config_ lcg_random fi)) = false /\
  @double_lt lcg_random (@double_zero lcg_random) (@reorder_pct lcg_random (@config_ lcg_random fi)) = false /\
  @apply lcg_random fi batch4 =
  (batch4, @mkFaultInjector lcg_random (@config_ lcg_random fi) (@rng_ lcg_random fi)
             FaultStats_default).
Proof.
  repeat (split; [reflexivity |]).
  exact (@apply_no_faults lcg_random (@FaultInjector_new lcg_random no_faults 42) batch4
           eq_refl eq_refl eq_refl eq_refl).
Defined.

Lemma apply_accounting_witness :
  Z.of_nat (length batch4) < 2 ^ 31 /\
  let fi := @FaultInjector_new lcg_random all_faults 42 in
  let out := fst (@apply lcg_random fi batch4) in
  let s := @last_stats_ lcg_random (snd (@apply lcg_random fi batch4)) in
  Z.of_nat (length out) = Z.of_nat (length batch4) + duplicated s - dropped s /\
  0 <= duplicated s <= Z.of_nat (length batch4) /\
  0 <= dropped s <= Z.of_nat (length batch4) + duplicated s /\
  0 <= corrupted s <= Z.of_nat (length batch4) /\
  0 <= 2 * reordered s <= Z.of_nat (length out).
Proof.
  assert (H : Z.of_nat (length batch4) < 2 ^ 31) by (simpl; lia).
  split; [exact H |].
  exact (@apply_accounting lcg_random (@FaultInjector_new lcg_random all_faults 42) batch4 H).
Defined.

Lemma apply_frames_from_input_witness :
  let fi := @FaultInjector_new lcg_random all_faults 42 in
  [x04; x04] ∈ fst (@apply lcg_random fi batch4) /\
  (exists f, f ∈ batch4 /\ one_byte_flipped f [x04; x04]) /\
  (@double_lt lcg_random (@double_zero lcg_random)
     (@corrupt_pct lcg_random (@config_ lcg_random fi)) = false ->
   [x04; x04] ∈ batch4).
Proof.
  intros fi.
  assert (H : [x04; x04] ∈ fst (@apply lcg_random fi batch4)).
  { replace (fst (@apply lcg_random fi batch4))
      with [[x03; x03]; [x03; x03]; [x04; x04]] by (vm_compute; reflexivity).
    set_solver. }
  split; [exact H |].
  exact (@apply_frames_from_input lcg_random fi batch4 [x04; x04] H).
Defined.

Lemma apply_loss_reorder_only_witness :
  let fi := @FaultInjector_new lcg_random loss_reorder 42 in
  @double_lt lcg_random (@double_zero lcg_random)
    (@corrupt_pct lcg_random (@config_ lcg_random fi)) = false /\
  @double_lt lcg_random (@double_zero lcg_random)
    (@duplicate_pct lcg_random (@config_ lcg_random fi)) = false /\
  let out := fst (@apply lcg_random fi batch4) in
  out ⊆+ batch4 /\
  (@double_lt lcg_random (@double_zero lcg_random)
     (@reorder_pct lcg_random (@config_ lcg_random fi)) = false -> out `sublist_of` batch4) /\
  (@double_lt lcg_random (@double_zero lcg_random)
     (@loss_pct lcg_random (@config_ lcg_random fi)) = false -> out ≡ₚ batch4).
Proof.
  intros fi.
  split; [reflexivity | split; [reflexivity |]].
  exact (@apply_loss_reorder_only lcg_random fi batch4 eq_refl eq_refl).
Defined.

(** ** Frame recorder and replay source: theorems *)

Lemma record_all_file (recs : list (Z * list byte)) (f : list byte) (c : Z) :
  is_u64 c ->
  record_all (mkFrameRecorder (Some f) c) recs
  = mkFrameRecorder (Some (f ++ file_of recs)) (wrap64 (c + Z.of_nat (length recs))).
Proof.
  revert f c. induction recs as [| [ts fr] recs IH]; intros f c Hc.
  - cbn. by rewrite app_nil_r, Z.add_0_r, wrap64_small.
  - change (record_all (mkFrameRecorder (Some f) c) ((ts, fr) :: recs))
      with (record_all (mkFrameRecorder (Some (f ++ record_bytes ts fr)) (wrap64 (c + 1)))
              recs).
    rewrite IH by apply wrap64_u64.
    rewrite wrap64_succ_add. unfold file_of. cbn [map concat fst snd].
    by rewrite <- app_assoc.
Qed.

Lemma length_record_bytes (ts : Z) (f : list byte) :
  length (record_bytes ts f) = (12 + length f)%nat.
Proof.
  unfold record_bytes. cbv zeta. rewrite !length_app, !length_le_split. lia.
Qed.

(** One whole record at the head of the file is read back. *)
Lemma receive_record (s : ReplayFrameSource) (ts : Z) (f rest : list byte) :
  buf_len f < 2 ^ 32 ->
  paced s = false ->
  done_ s = false ->
  rep_file_ s = Some (record_bytes ts f ++ rest) ->
  exists s',
    receive s = (true, f, NoPacing, s') /\
    paced s' = false /\
    rep_file_ s' = Some rest /\
    done_ s' = match rest with [] => true | _ => false end /\
    frames_replayed_ s' = wrap64 (frames_replayed_ s + 1).
Proof.
  intros Hlen Hp Hd Hf. unfold receive. rewrite Hf, Hd, Hp.
  unfold record_bytes. cbv zeta.
  set (h8 := le_split 8 ts). set (h4 := le_split 4 (wrap32 (buf_len f))).
  assert (L8 : length h8 = 8%nat) by apply length_le_split.
  assert (L4 : length h4 = 4%nat) by apply length_le_split.
  assert (E1 : (buf_len ((h8 ++ h4 ++ f) ++ rest) <? 8) = false).
  { apply Z.ltb_ge. unfold buf_len. rewrite !length_app. lia. }
  rewrite E1.
  assert (D8 : drop 8 ((h8 ++ h4 ++ f) ++ rest) = (h4 ++ f) ++ rest).
  { rewrite <- !app_assoc. rewrite <- L8 at 1. by rewrite drop_app_length. }
  rewrite D8.
  assert (E2 : (buf_len ((h4 ++ f) ++ rest) <? 4) = false).
  { apply Z.ltb_ge. unfold buf_len. rewrite !length_app. lia. }
  rewrite E2.
  assert (T4 : take 4 ((h4 ++ f) ++ rest) = h4).
  { rewrite <- !app_assoc. rewrite <- L4 at 1. by rewrite take_app_length. }
  assert (D4 : drop 4 ((h4 ++ f) ++ rest) = f ++ rest).
  { rewrite <- !app_assoc. rewrite <- L4 at 1. by rewrite drop_app_length. }
  rewrite T4, D4.
  assert (Hl : le_combine h4 = buf_len f).
  { unfold h4. rewrite le_combine_le_split. change (8 * Z.of_nat 4) with 32.
    unfold wrap32. rewrite Z.mod_mod by lia. apply Z.mod_small.
    unfold buf_len in *. lia. }
  rewrite Hl.
  assert (E3 : (0 <? buf_len f) && (buf_len (f ++ rest) <? buf_len f) = false).
  { apply andb_false_iff. right. apply Z.ltb_ge. unfold buf_len.
    rewrite length_app. lia. }
  rewrite E3. unfold buf_len. rewrite Nat2Z.id.
  rewrite take_app_length, drop_app_length.
  eexists. split; [reflexivity |]. cbn. done.
Qed.

(** A record cut short at the head of the file, with nothing behind it,
    makes [receive] fail. *)
Lemma receive_cut (s : ReplayFrameSource) (ts : Z) (f : list byte) (k : nat) :
  buf_len f < 2 ^ 32 ->
  (k < 12 + length f)%nat ->
  done_ s = false ->
  rep_file_ s = Some (take k (record_bytes ts f)) ->
  receive s = read_failed s.
Proof.
  intros Hlen Hk Hd Hf. unfold receive. rewrite Hf, Hd.
  set (file := take k (record_bytes ts f)).
  assert (Lf : length file = k).
  { unfold file. rewrite length_take, length_record_bytes. lia. }
  destruct (buf_len file <? 8) eqn:E1; [reflexivity |].
  apply Z.ltb_ge in E1. unfold buf_len in E1.
  destruct (buf_len (drop 8 file) <? 4) eqn:E2; [reflexivity |].
  apply Z.ltb_ge in E2. unfold buf_len in E2. rewrite length_drop in E2.
  assert (Hk12 : (12 <= k)%nat) by lia.
  assert (Hfile : file = le_split 8 ts ++ le_split 4 (wrap32 (buf_len f)) ++ take (k - 12) f).
  { unfold file, record_bytes. cbv zeta.
    rewrite take_app_ge by (rewrite length_le_split; lia).
    rewrite length_le_split.
    rewrite take_app_ge by (rewrite length_le_split; lia).
    rewrite length_le_split. do 3 f_equal. lia. }
  set (h8 := le_split 8 ts) in *. set (h4 := le_split 4 (wrap32 (buf_len f))) in *.
  assert (L8 : length h8 = 8%nat) by apply length_le_split.
  assert (L4 : length h4 = 4%nat) by apply length_le_split.
  assert (D8 : drop 8 file = h4 ++ take (k - 12) f).
  { rewrite Hfile. rewrite <- L8 at 1. by rewrite drop_app_length. }
  rewrite D8.
  assert (T4 : take 4 (h4 ++ take (k - 12) f) = h4).
  { rewrite <- L4 at 1. by rewrite take_app_length. }
  assert (D4 : drop 4 (h4 ++ take (k - 12) f) = take (k - 12) f).
  { rewrite <- L4 at 1. by rewrite drop_app_length. }
  rewrite T4, D4.
  assert (Hl : le_combine h4 = buf_len f).
  { unfold h4. rewrite le_combine_le_split. change (8 * Z.of_nat 4) with 32.
    unfold wrap32. rewrite Z.mod_mod by lia. apply Z.mod_small.
    unfold buf_len in *. lia. }
  rewrite Hl.
  assert (E3 : (0 <? buf_len f) && (buf_len (take (k - 12) f) <? buf_len f) = true).
  { apply andb_true_iff. unfold buf_len. rewrite length_take.
    split; apply Z.ltb_lt; lia. }
  by rewrite E3.
Qed.

Lemma file_of_cons (ts : Z) (f : list byte) (recs : list (Z * list byte)) :
  file_of ((ts, f) :: recs) = record_bytes ts f ++ file_of recs.
Proof. reflexivity. Qed.

(** The loop on a recording that ends in a record cut short (or in none:
    [k = 0]) hands on the whole records and stops with [done_] set. *)
Lemma replay_loop_file (recs : list (Z * list byte)) :
  forall (fuel : nat) (s : ReplayFrameSource) (ts : Z) (f : list byte) (k : nat),
  Forall (fun rec => buf_len (snd rec) < 2 ^ 32) recs ->
  buf_len f < 2 ^ 32 ->
  (k < 12 + length f)%nat ->
  (length recs < fuel)%nat ->
  paced s = false ->
  rep_file_ s = Some (file_of recs ++ take k (record_bytes ts f)) ->
  (done_ s = true -> recs = []) ->
  is_u64 (frames_replayed_ s) ->
  fst (replay_loop fuel s) = map (fun rec => (snd rec, NoPacing)) recs /\
  (done_ s = false -> done_ (snd (replay_loop fuel s)) = true) /\
  frames_replayed_ (snd (replay_loop fuel s))
  = wrap64 (frames_replayed_ s + Z.of_nat (length recs)).
Proof.
  induction recs as [| [ts0 f0] recs IH]; intros fuel s ts f k Hall Hf Hk Hfuel Hp Hfile Hdone Hu.
  - destruct fuel as [| n]; [simpl in Hfuel; lia |].
    cbn [replay_loop]. destruct (done_ s) eqn:Hd.
    + cbn. rewrite Z.add_0_r, wrap64_small by done. done.
    + rewrite (receive_cut s ts f k Hf Hk Hd Hfile). unfold read_failed. cbn.
      rewrite Z.add_0_r, wrap64_small by done. done.
  - destruct fuel as [| n]; [simpl in Hfuel; lia |].
    cbn [replay_loop]. destruct (done_ s) eqn:Hd; [by specialize (Hdone eq_refl) |].
    apply Forall_cons in Hall as [Hf0 Hall]. cbn [snd] in Hf0.
    rewrite file_of_cons, <- app_assoc in Hfile.
    destruct (receive_record s ts0 f0 _ Hf0 Hp Hd Hfile)
      as (s' & Hr & Hp' & Hrest & Hd' & Hn').
    rewrite Hr.
    assert (Hdone' : done_ s' = true -> recs = []).
    { rewrite Hd'. destruct recs as [| [ts1 f1] recs']; [done |].
      rewrite file_of_cons. unfold record_bytes. cbv zeta. cbn. discriminate. }
    assert (Hu' : is_u64 (frames_replayed_ s')) by (rewrite Hn'; apply wrap64_u64).
    destruct (IH n s' ts f k Hall Hf Hk ltac:(simpl in Hfuel; lia) Hp' Hrest Hdone' Hu')
      as (I1 & I2 & I3).
    destruct (replay_loop n s') as [out s''] eqn:El. cbn [fst snd] in *.
    split; [by rewrite I1 |]. split.
    + intros _. destruct (done_ s') eqn:Hd''; [| by apply I2].
      specialize (Hdone' eq_refl). subst recs.
      destruct n as [| n']; cbn [replay_loop] in El.
      * injection El as _ <-. done.
      * rewrite Hd'' in El. injection El as _ <-. done.
    + rewrite I3, Hn'. apply wrap64_succ_add.
Qed.

Lemma replay_all_file (s : ReplayFrameSource) (recs : list (Z * list byte))
    (ts : Z) (f : list byte) (k : nat) :
  Forall (fun rec => buf_len (snd rec) < 2 ^ 32) recs ->
  buf_len f < 2 ^ 32 ->
  (k < 12 + length f)%nat ->
  paced s = false ->
  let res := replay_all (ReplayFrameSource_open s
                           (file_of recs ++ take k (record_bytes ts f))) in
  fst res = map (fun rec => (snd rec, NoPacing)) recs /\ done_ (snd res) = true /\
  frames_replayed_ (snd res) = wrap64 (Z.of_nat (length recs)).
Proof.
  intros Hall Hf Hk Hp res. unfold res, replay_all.
  set (s0 := ReplayFrameSource_open s _).
  assert (Hlen : (12 * length recs <= length (file_of recs))%nat).
  { clear. induction recs as [| [t0 f0] recs IH]; [simpl; lia |].
    rewrite file_of_cons, length_app, length_record_bytes. simpl length. lia. }
  destruct (replay_loop_file recs
              (match rep_file_ s0 with Some f => S (length f) | None => 1%nat end)
              s0 ts f k Hall Hf Hk)
    as (R1 & R2 & R3).
  - unfold s0, ReplayFrameSource_open. cbn [rep_file_]. rewrite length_app. lia.
  - exact Hp.
  - reflexivity.
  - discriminate.
  - unfold s0, ReplayFrameSource_open, is_u64. cbn. lia.
  - split; [exact R1 |]. split; [by apply R2 |]. exact R3.
Qed.

(** X29.  What the recorder writes, the replay source reads back, when
    the source is not paced (after [set_speed(0.0)]).  A recorder opened on
    an empty file and given any run of timestamped frames, each shorter
    than 2^32 bytes, leaves a file from which the replay loop hands on
    exactly those frames, in order, without asking anything of the clock;
    the loop ends with [done_] set, and both sides have counted the
    frames. *)
Theorem record_replay_roundtrip (r : FrameRecorder) (s : ReplayFrameSource)
    (recs : list (Z * list byte)) :
  paced s = false ->
  Forall (fun rec => buf_len (snd rec) < 2 ^ 32) recs ->
  exists file,
    rec_file_ (record_all (FrameRecorder_open r) recs) = Some file /\
    frame_count_ (record_all (FrameRecorder_open r) recs)
    = wrap64 (Z.of_nat (length recs)) /\
    let res := replay_all (ReplayFrameSource_open s file) in
    fst res = map (fun rec => (snd rec, NoPacing)) recs /\ done_ (snd res) = true /\
    frames_replayed_ (snd res) = wrap64 (Z.of_nat (length recs)).
Proof.
  intros Hp Hall. exists (file_of recs).
  unfold FrameRecorder_open.
  rewrite record_all_file by (unfold is_u64; lia).
  cbn [rec_file_ frame_count_ app]. split; [done |]. split; [done |].
  pose proof (replay_all_file s recs 0 [] 0 Hall) as R.
  cbn [take] in R. rewrite app_nil_r in R. apply R; [by vm_compute | lia | exact Hp].
Qed.

Lemma record_replay_roundtrip_witness :
  paced replay_fast = false /\
  Forall (fun rec => buf_len (snd rec) < 2 ^ 32) two_records /\
  exists file,
    rec_file_ (record_all (FrameRecorder_open recorder0) two_records) = Some file /\
    frame_count_ (record_all (FrameRecorder_open recorder0) two_records)
    = wrap64 (Z.of_nat (length two_records)) /\
    let res := replay_all (ReplayFrameSource_open replay_fast file) in
    fst res = map (fun rec => (snd rec, NoPacing)) two_records /\
    done_ (snd res) = true /\
    frames_replayed_ (snd res) = wrap64 (Z.of_nat (length two_records)).
Proof.
  assert (H : Forall (fun rec => buf_len (snd rec) < 2 ^ 32) two_records).
  { repeat constructor; vm_compute; reflexivity. }
  split; [reflexivity |]. split; [exact H |].
  exact (record_replay_roundtrip recorder0 replay_fast two_records eq_refl H).
Defined.

(** X30.  A recording whose last record is cut short, anywhere before its
    last byte, replayed by a source that is not paced: the loop hands on
    every whole record before the cut and nothing of the cut one; the
    failed read sets [done_], so the loop ends. *)
Theorem replay_truncated_recording (s : ReplayFrameSource)
    (recs : list (Z * list byte)) (ts : Z) (f : list byte) (k : nat) :
  paced s = false ->
  Forall (fun rec => buf_len (snd rec) < 2 ^ 32) recs ->
  buf_len f < 2 ^ 32 ->
  (k < length (record_bytes ts f))%nat ->
  let file := take (length (file_of recs) + k) (file_of (recs ++ [(ts, f)])) in
  let res := replay_all (ReplayFrameSource_open s file) in
  fst res = map (fun rec => (snd rec, NoPacing)) recs /\ done_ (snd res) = true /\
  frames_replayed_ (snd res) = wrap64 (Z.of_nat (length recs)).
Proof.
  intros Hp Hall Hf Hk file res. rewrite length_record_bytes in Hk.
  assert (E : file = file_of recs ++ take k (record_bytes ts f)).
  { unfold file, file_of. rewrite map_app, concat_app. cbn [map concat fst snd].
    rewrite app_nil_r. rewrite take_app_ge by lia. do 2 f_equal. lia. }
  unfold res. rewrite E. by apply replay_all_file.
Qed.

Lemma replay_truncated_recording_witness :
  paced replay_fast = false /\
  Forall (fun rec => buf_len (snd rec) < 2 ^ 32) two_records /\
  buf_len hello < 2 ^ 32 /\
  (14 < length (record_bytes 3000 hello))%nat /\
  let file := take (length (file_of two_records) + 14)
                   (file_of (two_records ++ [(3000, hello)])) in
  let res := replay_all (ReplayFrameSource_open replay_fast file) in
  fst res = map (fun rec => (snd rec, NoPacing)) two_records /\
  done_ (snd res) = true /\
  frames_replayed_ (snd res) = wrap64 (Z.of_nat (length two_records)).
Proof.
  assert (H : Forall (fun rec => buf_len (snd rec) < 2 ^ 32) two_records).
  { repeat constructor; vm_compute; reflexivity. }
  assert (H1 : buf_len hello < 2 ^ 32) by (vm_compute; reflexivity).
  assert (H2 : (14 < length (record_bytes 3000 hello))%nat) by (vm_compute; lia).
  split; [reflexivity |]. split; [exact H |]. split; [exact H1 |]. split; [exact H2 |].
  exact (replay_truncated_recording replay_fast two_records 3000 hello 14 eq_refl H H1 H2).
Defined.

(** A paced source on the same recording: the first call starts the clock,
    the second waits for the offset between the two timestamps. *)
Example replay_paced_waits :
  fst (replay_all (ReplayFrameSource_open replay0 (file_of two_records))) =
  [(hello, StartClock); ([], WaitUntil 1000)].
Proof. vm_compute. reflexivity. Qed.
